(** * H5PRunner: dependency resolution, asset store and ordered loading

    A shallow embedding of [packages/hashi/src/H5P/H5PRunner.js]: the
    recursive dependency walk over the archive, the topological ordering of
    the packages, the per-package resource maps with the stylesheet path
    rewriting, the ordered loader, and the user-data and xAPI shims.

    Conventions of the embedding.
    - A JS object used as a dictionary is a [gmap] of its own properties;
      where [Object.keys] or [Object.values] observes the order of the keys
      it is an ordered association list ([obj]).  The dictionaries are
      plain objects: a read of a key that is not an own property goes on to
      [Object.prototype], and an assignment to the key [__proto__] does not
      make an own property ([get_property], [set_property]).
    - [this] of the class is the record [H5PRunner], threaded explicitly.
    - A promise chain is run to completion.  What a function does before
      its first [then] happens at the call.  In the walk over the
      descriptors the callbacks of the promises of a [Promise.all] are run
      from left to right, each with all that it starts: the reads complete
      in the order in which they were started.  In the file pass the order
      in which the reads complete is a parameter ([completion]).  A
      rejected chain is a [Rejected] result; recursion is bounded by fuel
      and [OutOfFuel] is kept apart from the rejections of the program. *)

From Stdlib Require Import Ascii String.
From stdpp Require Import gmap strings list pretty.

Local Open Scope string_scope.
Local Open Scope list_scope.
Local Open Scope nat_scope.

(** ** Results of promise chains *)

(** The failures the pipeline can reject with.  [TypeError] is a property
    read or a method call on [null] or [undefined]: among them
    [zip.file(name).async(...)] when the archive has no entry [name], for
    which [zip.file] answers [null].  [SyntaxError] is what [JSON.parse]
    throws on a text that is not JSON.  [ScriptLoadFailure] is the [error]
    event of an injected script. *)
Inductive error : Type :=
  | TypeError
  | SyntaxError
  | ScriptLoadFailure.

Inductive result (A : Type) : Type :=
  | Resolved (a : A)
  | Rejected (e : error)
  | OutOfFuel.

Arguments Resolved {A} a.
Arguments Rejected {A} e.
Arguments OutOfFuel {A}.

(** [p.then(k)]: a rejected [p] skips the callback. *)
#[global] Instance result_bind : MBind result := λ A B k r,
  match r with
  | Resolved a => k a
  | Rejected e => Rejected e
  | OutOfFuel => OutOfFuel
  end.

(** The steps [f x] run on the state from left to right and the first
    failure ends the run: a loop or a [map] whose body has effects and may
    throw, a chain [items.reduce((p, x) => p.then(...), Promise.resolve())],
    or the wait for the promises of a [Promise.all], taken in order. *)
Fixpoint each {A S : Type} (f : A → S → result S) (items : list A) (st : S)
    : result S :=
  match items with
  | [] => Resolved st
  | x :: items' => st ← f x st; each f items' st
  end.

(** ** Ordered objects *)

(** A JS object whose key order is observed: the own properties in the
    order of their creation; an assignment to an existing key keeps its
    position.  [obj_keys] is [Object.keys] for an object none of whose keys
    is an array index, such as [this.packageFiles], whose keys are package
    paths and end with a slash; [Object_keys] and [Object_values] below
    are the general enumeration. *)
Definition obj (V : Type) : Type := list (string * V).

Fixpoint obj_get {V : Type} (o : obj V) (k : string) : option V :=
  match o with
  | [] => None
  | (k', v) :: o' => if decide (k' = k) then Some v else obj_get o' k
  end.

Fixpoint obj_set {V : Type} (o : obj V) (k : string) (v : V) : obj V :=
  match o with
  | [] => [(k, v)]
  | (k', v') :: o' =>
      if decide (k' = k) then (k, v) :: o' else (k', v') :: obj_set o' k v
  end.

Definition obj_keys {V : Type} (o : obj V) : list string := o.*1.
Definition obj_values {V : Type} (o : obj V) : list V := o.*2.

(** ** Plain objects *)

(** The members of [Object.prototype], which every plain object inherits:
    the constructor, the six methods of the language, and the accessor
    [__proto__] with the four legacy methods that browsers have. *)
Definition Object_prototype : list string :=
  ["constructor"; "hasOwnProperty"; "isPrototypeOf"; "propertyIsEnumerable";
   "toLocaleString"; "toString"; "valueOf"; "__proto__";
   "__defineGetter__"; "__defineSetter__"; "__lookupGetter__"; "__lookupSetter__"].

(** [k] is not an own property of [{}] and still [({})[k]] is defined. *)
Definition inherited (k : string) : bool := bool_decide (k ∈ Object_prototype).

(** What a read [o[k]] of a plain object with text values can give: the
    text of the own property [k]; or, when there is none, the member [k] of
    [Object.prototype], which is a built-in function, or for [__proto__]
    the object [Object.prototype] itself; or [undefined]. *)
Inductive js_value : Type :=
  | Undefined
  | Str (s : string)
  | Inherited (name : string).

(** [o[k]] *)
Definition get_property (o : gmap string string) (k : string) : js_value :=
  match o !! k with
  | Some v => Str v
  | None => if inherited k then Inherited k else Undefined
  end.

(** [o[k] = v] for a text [v]: the key becomes an own property, or keeps
    its place as one; but an assignment to [__proto__] calls the inherited
    setter, which ignores a value that is neither an object nor [null]. *)
Definition set_property (o : gmap string string) (k v : string) : gmap string string :=
  if decide (k = "__proto__") then o else <[k := v]> o.

(** [if (v)]: [undefined] and the empty text are falsy, functions and
    objects are truthy. *)
Definition truthy (v : js_value) : bool :=
  match v with
  | Undefined => false
  | Str s => negb (bool_decide (s = EmptyString))
  | Inherited _ => true
  end.

(** The value of a decimal digit. *)
Definition digit (c : ascii) : option N :=
  let n := N_of_ascii c in
  if ((48 <=? n) && (n <=? 57))%N then Some (n - 48)%N else None.

Fixpoint parse_digits (acc : N) (s : string) : option N :=
  match s with
  | EmptyString => Some acc
  | String c s' => d ← digit c; parse_digits (acc * 10 + d)%N s'
  end.

(** [k] is an array index: the canonical decimal text, without a leading
    zero, of an integer below 2^32 - 1. *)
Definition array_index (k : string) : option N :=
  match k with
  | EmptyString => None
  | String c k' =>
      n ← parse_digits 0 k;
      if (negb (bool_decide (c = "0"%char)) || bool_decide (k' = EmptyString))
         && (n <? 4294967295)%N
      then Some n else None
  end.

(** The properties with an array index, in ascending order of the index. *)
Fixpoint insert_index {V : Type} (i : N) (e : string * V)
    (l : list (N * (string * V))) : list (N * (string * V)) :=
  match l with
  | [] => [(i, e)]
  | (j, e') :: l' =>
      if (i <? j)%N then (i, e) :: l else (j, e') :: insert_index i e l'
  end.

Fixpoint index_entries {V : Type} (o : obj V) : list (N * (string * V)) :=
  match o with
  | [] => []
  | e :: o' =>
      match array_index e.1 with
      | Some i => insert_index i e (index_entries o')
      | None => index_entries o'
      end
  end.

(** [Object.entries(o)]: the own properties whose key is an array index
    come first, in ascending order of the index, and the others follow in
    the order of their creation. *)
Definition Object_entries {V : Type} (o : obj V) : list (string * V) :=
  (index_entries o).*2 ++ filter (λ e, array_index e.1 = None) (o : list (string * V)).

(** [Object.keys(o)] and [Object.values(o)] *)
Definition Object_keys {V : Type} (o : obj V) : list string := (Object_entries o).*1.
Definition Object_values {V : Type} (o : obj V) : list V := (Object_entries o).*2.

(** [o[k] = v] for a plain object whose key order is observed.  An
    assignment to [__proto__] makes no own property: the inherited setter
    ignores a text and [undefined], and for the object [Object.prototype],
    which is what a read of [__proto__] gives, it sets the prototype to
    what it is already. *)
Definition obj_assign (o : obj js_value) (k : string) (v : js_value) : obj js_value :=
  if decide (k = "__proto__") then o else obj_set o k v.

(** ** Descriptors and the archive *)

Module Json.

(** One element of [preloadedDependencies]. *)
Record dependency : Type := {
  machineName : string;
  majorVersion : nat;
  minorVersion : nat
}.

(** A parsed [h5p.json] or [library.json].  An absent list field is the
    empty list ([json['preloadedDependencies'] || []]); [preloadedJs] and
    [preloadedCss] hold the [path] of each element. *)
Record descriptor : Type := {
  preloadedDependencies : list dependency;
  preloadedJs : list string;
  preloadedCss : list string;
  mainLibrary : option string
}.

End Json.

(** An entry of the archive: its text and what [JSON.parse] makes of it
    ([None] when it throws). *)
Record entry : Type := {
  text : string;
  parsed : option Json.descriptor
}.

(** The archive: the file entries by name, in the order of the archive. *)
Definition archive : Type := obj entry.

(** [zip.file(name)] *)
Definition zip_file (zip : archive) (name : string) : option entry :=
  obj_get zip name.

(** ** The runner *)

Module Package.

(** A record pushed onto [this.dependencies]. *)
Record t : Type := {
  packagePath : string;
  dependencies : list string;
  preloadedCss : list string;
  preloadedJs : list string
}.

End Package.

(** A tier of the load plan: [{ dependency, fileMap }]. *)
Record depMap : Type := {
  dependency : string;
  fileMap : obj js_value
}.

Record H5PRunner : Type := {
  dependencies : list Package.t;
  (* the per-package file lists, before processJsDependencies and
     processCssDependencies replace them by the load plans *)
  jsDependencies : gmap string (list string);
  cssDependencies : gmap string (list string);
  packageFiles : obj (gmap string string);
  contentPaths : gmap string string;
  contentJson : string;
  library : option string;
  rootConfig : option Json.descriptor;
  loadedJs : gset string;
  loadedCss : gset string;
  sortedDependencies : list string;
  (* the load plans that processJsDependencies and processCssDependencies
     store in this.jsDependencies and this.cssDependencies *)
  jsPlan : list depMap;
  cssPlan : list depMap;
  (* the blobs registered by URL.createObjectURL, oldest first *)
  blobs : list string
}.

(** The fields as [init] sets them. *)
Definition new_runner : H5PRunner := {|
  dependencies := [];
  jsDependencies := ∅;
  cssDependencies := ∅;
  packageFiles := [];
  contentPaths := ∅;
  contentJson := EmptyString;
  library := None;
  rootConfig := None;
  loadedJs := ∅;
  loadedCss := ∅;
  sortedDependencies := [];
  jsPlan := [];
  cssPlan := [];
  blobs := []
|}.

(** Assignments to one field of [this]. *)
Definition set_dependencies (v : list Package.t) (this : H5PRunner) : H5PRunner :=
  {| dependencies := v; jsDependencies := jsDependencies this;
     cssDependencies := cssDependencies this; packageFiles := packageFiles this;
     contentPaths := contentPaths this; contentJson := contentJson this;
     library := library this; rootConfig := rootConfig this;
     loadedJs := loadedJs this; loadedCss := loadedCss this;
     sortedDependencies := sortedDependencies this; jsPlan := jsPlan this;
     cssPlan := cssPlan this; blobs := blobs this |}.

Definition set_packageFiles (v : obj (gmap string string)) (this : H5PRunner) : H5PRunner :=
  {| dependencies := dependencies this; jsDependencies := jsDependencies this;
     cssDependencies := cssDependencies this; packageFiles := v;
     contentPaths := contentPaths this; contentJson := contentJson this;
     library := library this; rootConfig := rootConfig this;
     loadedJs := loadedJs this; loadedCss := loadedCss this;
     sortedDependencies := sortedDependencies this; jsPlan := jsPlan this;
     cssPlan := cssPlan this; blobs := blobs this |}.

Definition set_contentPaths (v : gmap string string) (this : H5PRunner) : H5PRunner :=
  {| dependencies := dependencies this; jsDependencies := jsDependencies this;
     cssDependencies := cssDependencies this; packageFiles := packageFiles this;
     contentPaths := v; contentJson := contentJson this;
     library := library this; rootConfig := rootConfig this;
     loadedJs := loadedJs this; loadedCss := loadedCss this;
     sortedDependencies := sortedDependencies this; jsPlan := jsPlan this;
     cssPlan := cssPlan this; blobs := blobs this |}.

Definition set_contentJson (v : string) (this : H5PRunner) : H5PRunner :=
  {| dependencies := dependencies this; jsDependencies := jsDependencies this;
     cssDependencies := cssDependencies this; packageFiles := packageFiles this;
     contentPaths := contentPaths this; contentJson := v;
     library := library this; rootConfig := rootConfig this;
     loadedJs := loadedJs this; loadedCss := loadedCss this;
     sortedDependencies := sortedDependencies this; jsPlan := jsPlan this;
     cssPlan := cssPlan this; blobs := blobs this |}.

Definition set_library (v : option string) (this : H5PRunner) : H5PRunner :=
  {| dependencies := dependencies this; jsDependencies := jsDependencies this;
     cssDependencies := cssDependencies this; packageFiles := packageFiles this;
     contentPaths := contentPaths this; contentJson := contentJson this;
     library := v; rootConfig := rootConfig this;
     loadedJs := loadedJs this; loadedCss := loadedCss this;
     sortedDependencies := sortedDependencies this; jsPlan := jsPlan this;
     cssPlan := cssPlan this; blobs := blobs this |}.

Definition set_rootConfig (v : option Json.descriptor) (this : H5PRunner) : H5PRunner :=
  {| dependencies := dependencies this; jsDependencies := jsDependencies this;
     cssDependencies := cssDependencies this; packageFiles := packageFiles this;
     contentPaths := contentPaths this; contentJson := contentJson this;
     library := library this; rootConfig := v;
     loadedJs := loadedJs this; loadedCss := loadedCss this;
     sortedDependencies := sortedDependencies this; jsPlan := jsPlan this;
     cssPlan := cssPlan this; blobs := blobs this |}.

Definition set_loadedJs (v : gset string) (this : H5PRunner) : H5PRunner :=
  {| dependencies := dependencies this; jsDependencies := jsDependencies this;
     cssDependencies := cssDependencies this; packageFiles := packageFiles this;
     contentPaths := contentPaths this; contentJson := contentJson this;
     library := library this; rootConfig := rootConfig this;
     loadedJs := v; loadedCss := loadedCss this;
     sortedDependencies := sortedDependencies this; jsPlan := jsPlan this;
     cssPlan := cssPlan this; blobs := blobs this |}.

Definition set_loadedCss (v : gset string) (this : H5PRunner) : H5PRunner :=
  {| dependencies := dependencies this; jsDependencies := jsDependencies this;
     cssDependencies := cssDependencies this; packageFiles := packageFiles this;
     contentPaths := contentPaths this; contentJson := contentJson this;
     library := library this; rootConfig := rootConfig this;
     loadedJs := loadedJs this; loadedCss := v;
     sortedDependencies := sortedDependencies this; jsPlan := jsPlan this;
     cssPlan := cssPlan this; blobs := blobs this |}.

Definition set_sortedDependencies (v : list string) (this : H5PRunner) : H5PRunner :=
  {| dependencies := dependencies this; jsDependencies := jsDependencies this;
     cssDependencies := cssDependencies this; packageFiles := packageFiles this;
     contentPaths := contentPaths this; contentJson := contentJson this;
     library := library this; rootConfig := rootConfig this;
     loadedJs := loadedJs this; loadedCss := loadedCss this;
     sortedDependencies := v; jsPlan := jsPlan this;
     cssPlan := cssPlan this; blobs := blobs this |}.

Definition set_jsPlan (v : list depMap) (this : H5PRunner) : H5PRunner :=
  {| dependencies := dependencies this; jsDependencies := jsDependencies this;
     cssDependencies := cssDependencies this; packageFiles := packageFiles this;
     contentPaths := contentPaths this; contentJson := contentJson this;
     library := library this; rootConfig := rootConfig this;
     loadedJs := loadedJs this; loadedCss := loadedCss this;
     sortedDependencies := sortedDependencies this; jsPlan := v;
     cssPlan := cssPlan this; blobs := blobs this |}.

Definition set_cssPlan (v : list depMap) (this : H5PRunner) : H5PRunner :=
  {| dependencies := dependencies this; jsDependencies := jsDependencies this;
     cssDependencies := cssDependencies this; packageFiles := packageFiles this;
     contentPaths := contentPaths this; contentJson := contentJson this;
     library := library this; rootConfig := rootConfig this;
     loadedJs := loadedJs this; loadedCss := loadedCss this;
     sortedDependencies := sortedDependencies this; jsPlan := jsPlan this;
     cssPlan := v; blobs := blobs this |}.

Definition set_blobs (v : list string) (this : H5PRunner) : H5PRunner :=
  {| dependencies := dependencies this; jsDependencies := jsDependencies this;
     cssDependencies := cssDependencies this; packageFiles := packageFiles this;
     contentPaths := contentPaths this; contentJson := contentJson this;
     library := library this; rootConfig := rootConfig this;
     loadedJs := loadedJs this; loadedCss := loadedCss this;
     sortedDependencies := sortedDependencies this; jsPlan := jsPlan this;
     cssPlan := cssPlan this; blobs := v |}.

(** ** Dependency Graph Builder: recurseDependencies *)

(** [`${dep.machineName}-${dep.majorVersion}.${dep.minorVersion}/`] *)
Definition packagePathOf (dep : Json.dependency) : string :=
  Json.machineName dep +:+ "-" +:+ pretty (Json.majorVersion dep) +:+ "."
    +:+ pretty (Json.minorVersion dep) +:+ "/".

(** [`${dep.machineName} ${dep.majorVersion}.${dep.minorVersion}`] *)
Definition libraryOf (dep : Json.dependency) : string :=
  Json.machineName dep +:+ " " +:+ pretty (Json.majorVersion dep) +:+ "."
    +:+ pretty (Json.minorVersion dep).

(** What the callback of [dependencies.map] returns for one dependency:
    [Promise.resolve(packagePath)] for a visited path, or the promise of the
    recursive call, whose read of [packagePath + 'library.json'] is under
    way. *)
Inductive promise : Type :=
  | Settled (packagePath : string)
  | Reading (packagePath : string) (content : entry).

Definition promise_path (p : promise) : string :=
  match p with
  | Settled packagePath => packagePath
  | Reading packagePath _ => packagePath
  end.

(** The synchronous run of [dependencies.map(dep => ...)] inside the
    callback of [recurseDependencies]: every dependency is looked up in
    [visitedPaths], marked, and its recursive call is started, before any
    callback of a started call runs.  Starting a call evaluates
    [this.zip.file(jsonFile).async('string')], which throws a [TypeError]
    when the entry is absent and [zip.file] answers [null]. *)
Fixpoint startDependencies (zip : archive) (root : bool)
    (mainLibrary : option string) (deps : list Json.dependency)
    (visitedPaths : gset string) (library : option string)
    : result (gset string * option string * list promise) :=
  match deps with
  | [] => Resolved (visitedPaths, library, [])
  | dep :: deps' =>
      let packagePath := packagePathOf dep in
      let library :=
        if root && bool_decide (library = None)
           && bool_decide (Some (Json.machineName dep) = mainLibrary)
        then Some (libraryOf dep) else library in
      if decide (packagePath ∈ visitedPaths) then
        '(visitedPaths, library, promises) ←
          startDependencies zip root mainLibrary deps' visitedPaths library;
        Resolved (visitedPaths, library, Settled packagePath :: promises)
      else
        let visitedPaths := {[packagePath]} ∪ visitedPaths in
        match zip_file zip (packagePath +:+ "library.json") with
        | None => Rejected TypeError
        | Some content =>
            '(visitedPaths, library, promises) ←
              startDependencies zip root mainLibrary deps' visitedPaths library;
            Resolved (visitedPaths, library, Reading packagePath content :: promises)
        end
  end.

(** Waiting for one promise of the [Promise.all]: a started call goes on
    with its callback [callback], on the content read. *)
Definition await (callback : entry → string → H5PRunner → result H5PRunner)
    (p : promise) (this : H5PRunner) : result H5PRunner :=
  match p with
  | Settled _ => Resolved this
  | Reading packagePath content => callback content packagePath this
  end.

(** The [then] callback of [recurseDependencies], on the text read from
    the entry.  [visitedPaths] is the object of the caller as it is when the
    callback runs, that is after the caller's [map] has marked all of its
    dependencies; the callback copies it. *)
Fixpoint recurseDependencies_then (fuel : nat) (zip : archive) (content : entry)
    (root : bool) (visitedPaths : gset string) (packagePath : string)
    (this : H5PRunner) {struct fuel} : result H5PRunner :=
  match fuel with
  | O => OutOfFuel
  | S fuel' =>
      match parsed content with
      | None => Rejected SyntaxError
      | Some json =>
          let this := if root then set_rootConfig (Some json) this else this in
          '(visitedPaths, library, promises) ←
            startDependencies zip root (Json.mainLibrary json)
              (Json.preloadedDependencies json) visitedPaths (library this);
          let this := set_library library this in
          this ←
            each (await (λ content packagePath,
                           recurseDependencies_then fuel' zip content false
                             visitedPaths packagePath)) promises this;
          if decide (packagePath = EmptyString) then Resolved this
          else
            Resolved (set_dependencies
              (dependencies this ++
                 [{| Package.packagePath := packagePath;
                     Package.dependencies := promise_path <$> promises;
                     Package.preloadedCss := Json.preloadedCss json;
                     Package.preloadedJs := Json.preloadedJs json |}]) this)
      end
  end.

Definition recurseDependencies (fuel : nat) (zip : archive) (jsonFile : string)
    (root : bool) (visitedPaths : gset string) (packagePath : string)
    (this : H5PRunner) : result H5PRunner :=
  match zip_file zip jsonFile with
  | None => Rejected TypeError
  | Some content =>
      recurseDependencies_then fuel zip content root visitedPaths packagePath this
  end.

(** The recorded graph: [P] lists [Q] among its dependencies. *)
Definition records_edge (deps : list Package.t) (P Q : string) : Prop :=
  ∃ d, d ∈ deps ∧ Package.packagePath d = P ∧ Q ∈ Package.dependencies d.

(** ** Topological Sorter *)

Module Toposort.

(** Modelled from the spec: the state of the sorter of toposort-class,
    whose source is not among the sources (see [visit]): the registrations
    made through [add], oldest first, each an item and the list of items
    it depends on (section 4.3: node to dependency-list edges, possibly
    with duplicate registrations of a node). *)
Definition t : Type := list (string * list string).

(** Modelled from the spec: [new Toposort()] (see [visit]). *)
Definition empty : t := [].

(** Modelled from the spec: [sorter.add(item, deps)] (see [visit]). *)
Definition add (item : string) (deps : list string) (sorter : t) : t :=
  sorter ++ [(item, deps)].

(** Modelled from the spec: the distinct identifiers in the order of
    their first discovery (section 4.3; see [visit]). *)
Definition discover (names : list string) : list string :=
  fold_left (λ seen n, if decide (n ∈ seen) then seen else seen ++ [n]) names [].

(** Modelled from the spec: the nodes of the registered graph, items and
    dependencies, in discovery order (see [visit]). *)
Definition nodes (sorter : t) : list string :=
  discover (sorter ≫= λ r, r.1 :: r.2).

(** Modelled from the spec: all the dependencies registered for [node],
    over all its registrations (see [visit]). *)
Definition deps_of (sorter : t) (node : string) : list string :=
  sorter ≫= λ r, if decide (r.1 = node) then r.2 else [].

(** Modelled from the spec: the sorter is the class [Toposort] of the
    package toposort-class, which H5PRunner.js imports and whose source is
    not among the sources.  Section 4.3: given the node to dependency-list
    edges, possibly with duplicate registrations of a node, produce one
    linear order over all distinct identifiers in which, for every edge
    [P depends on Q], [Q] occurs before [P]; ties among independent nodes
    are broken by first-discovery order; a cycle that is nonetheless
    present is broken by dropping the back-edge rather than failing.

    The order is built by a depth-first walk from the nodes in discovery
    order.  The state is the list of nodes not yet entered and the list of
    nodes placed so far, last placed first.  A node is placed once all its
    dependencies have been walked; an edge to a node already entered (a
    back-edge, or an edge to a placed node) is not followed. *)
Fixpoint visit (fuel : nat) (sorter : t) (node : string)
    (st : list string * list string) {struct fuel}
    : result (list string * list string) :=
  match fuel with
  | O => OutOfFuel
  | S fuel' =>
      if decide (node ∈ st.1) then
        st' ← each (visit fuel' sorter) (deps_of sorter node)
                (filter (λ n, n ≠ node) st.1, st.2);
        Resolved (st'.1, node :: st'.2)
      else Resolved st
  end.

(** Modelled from the spec: [sorter.sort()] of toposort-class (see
    [visit]).  The result lists every package before the packages it
    depends on, so that the [sort().reverse()] of [setDependencies] is the
    order of section 4.3, dependencies first. *)
Definition sort (sorter : t) : result (list string) :=
  let ns := nodes sorter in
  st ← each (visit (S (length ns)) sorter) ns (ns, []);
  Resolved st.2.

End Toposort.

(** The three assignments of the loop body of [setDependencies]:
    [this.packageFiles[p] = {}], [this.cssDependencies[p] = css] and
    [this.jsDependencies[p] = js]. *)
Definition register_package (p : string) (css js : list string)
    (this : H5PRunner) : H5PRunner :=
  {| dependencies := dependencies this;
     jsDependencies := <[p := js]> (jsDependencies this);
     cssDependencies := <[p := css]> (cssDependencies this);
     packageFiles := obj_set (packageFiles this) p ∅;
     contentPaths := contentPaths this; contentJson := contentJson this;
     library := library this; rootConfig := rootConfig this;
     loadedJs := loadedJs this; loadedCss := loadedCss this;
     sortedDependencies := sortedDependencies this;
     jsPlan := jsPlan this; cssPlan := cssPlan this; blobs := blobs this |}.

(** The loop of [setDependencies] over [this.dependencies]. *)
Fixpoint setDependencies_loop (deps : list Package.t)
    (dependencySorter : Toposort.t) (this : H5PRunner) : Toposort.t * H5PRunner :=
  match deps with
  | [] => (dependencySorter, this)
  | dependency :: deps' =>
      setDependencies_loop deps'
        (Toposort.add (Package.packagePath dependency)
           (Package.dependencies dependency) dependencySorter)
        (register_package (Package.packagePath dependency)
           (Package.preloadedCss dependency) (Package.preloadedJs dependency) this)
  end.

Definition setDependencies (this : H5PRunner) : result H5PRunner :=
  let '(dependencySorter, this) :=
    setDependencies_loop (dependencies this) Toposort.empty this in
  sorted ← Toposort.sort dependencySorter;
  Resolved (set_sortedDependencies (reverse sorted) this).

(** [array.indexOf(x)], [None] for -1. *)
Fixpoint indexOf (x : string) (l : list string) : option nat :=
  match l with
  | [] => None
  | y :: l' => if decide (y = x) then Some 0 else S <$> indexOf x l'
  end.

(** [Q] is at a strictly smaller index than [P] in [order]. *)
Definition precedes (order : list string) (Q P : string) : Prop :=
  ∃ i j, indexOf Q order = Some i ∧ indexOf P order = Some j ∧ i < j.

(** ** Strings *)

(** [Some rest] when [s] is [p] followed by [rest]. *)
Fixpoint strip_prefix (p s : string) : option string :=
  match p, s with
  | EmptyString, _ => Some s
  | String a p', String b s' => if decide (a = b) then strip_prefix p' s' else None
  | String _ _, EmptyString => None
  end.

(** [regex.test(s)] for a pattern that is a literal [needle]: [needle]
    occurs somewhere in [s]. *)
Fixpoint includes (needle s : string) : bool :=
  match strip_prefix needle s with
  | Some _ => true
  | None =>
      match s with
      | EmptyString => false
      | String _ s' => includes needle s'
      end
  end.

(** [s.replace(needle, '')]: the first occurrence of [needle] is removed. *)
Fixpoint remove_first (needle s : string) : string :=
  match strip_prefix needle s with
  | Some rest => rest
  | None =>
      match s with
      | EmptyString => EmptyString
      | String c s' => String c (remove_first needle s')
      end
  end.

(** ** Stylesheet Path Rewriter: replacePaths *)

(** The double quote character. *)
Definition dquote : ascii := ascii_of_nat 34.

(** The class of the two quote characters, single and double. *)
Definition is_quote (c : ascii) : bool :=
  bool_decide (c = "'"%char) || bool_decide (c = dquote).

(** The negated class of the second group: any character but the two
    quotes and the closing parenthesis. *)
Definition is_path_char (c : ascii) : bool :=
  negb (is_quote c || bool_decide (c = ")"%char)).

(** An optional quote, greedy. *)
Definition opt_quote (s : string) : string * string :=
  match s with
  | String c s' => if is_quote c then (String c EmptyString, s') else (EmptyString, s)
  | EmptyString => (EmptyString, s)
  end.

(** The longest run of path characters and what follows it. *)
Fixpoint path_run (s : string) : string * string :=
  match s with
  | String c s' =>
      if is_path_char c
      then let '(run, rest) := path_run s' in (String c run, rest)
      else (EmptyString, s)
  | EmptyString => (EmptyString, EmptyString)
  end.

(** A match of [cssPathRegex]: the three groups; [p2] is [None] when the
    optional second group took no part in the match ([undefined]). *)
Record css_match : Type := {
  p1 : string;
  p2 : option string;
  p3 : string
}.

(** The matched text, the first argument of the replacement callback. *)
Definition matched (m : css_match) : string :=
  p1 m +:+ default EmptyString (p2 m) +:+ p3 m.

(** [cssPathRegex] tried at the start of [s].  With Q for the double quote
    the pattern is [/(url\(['Q]?)([^Q')]+)?(['Q]?\))/g]: the text [url(]
    and an optional quote; an optional, non-empty run of path characters;
    an optional quote and [)].  The greedy choices are the only ones that
    can succeed: a shorter run of the second group stops before a path
    character, which is neither a quote nor [)]; giving back a quote of the
    first or third group leaves that quote where [)] or a path character
    is required, except in [url(] quote [)], which the greedy choice
    matches as well (lemmas [cssPathRegex_at_sound] and
    [cssPathRegex_at_complete]). *)
Definition cssPathRegex_at (s : string) : option css_match :=
  s1 ← strip_prefix "url(" s;
  let '(q1, s2) := opt_quote s1 in
  let '(run, s3) := path_run s2 in
  let '(q3, s4) := opt_quote s3 in
  match s4 with
  | String c _ =>
      if bool_decide (c = ")"%char) then
        Some {| p1 := "url(" +:+ q1;
                p2 := if decide (run = EmptyString) then None else Some run;
                p3 := q3 +:+ ")" |}
      else None
  | EmptyString => None
  end.

(** The pieces [text.replace(cssPathRegex, f)] cuts [text] into: the
    matches, found from left to right, each search resuming where the
    previous match ended, and the characters between them. *)
Inductive piece : Type :=
  | Plain (c : ascii)
  | Url (m : css_match).

(** [skip] is the number of characters still covered by the last match. *)
Fixpoint pieces (skip : nat) (s : string) : list piece :=
  match s with
  | EmptyString => []
  | String c s' =>
      match skip with
      | S skip' => pieces skip' s'
      | O =>
          match cssPathRegex_at s with
          | Some m => Url m :: pieces (String.length (matched m) - 1) s'
          | None => Plain c :: pieces 0 s'
          end
      end
  end.

Definition piece_text (p : piece) : string :=
  match p with
  | Plain c => String c EmptyString
  | Url m => matched m
  end.

Fixpoint concat_strings (l : list string) : string :=
  match l with
  | [] => EmptyString
  | s :: l' => s +:+ concat_strings l'
  end.

(** What a piece becomes under the replacement callback [f]. *)
Definition rewrite_piece (f : css_match → string) (p : piece) : string :=
  match p with
  | Plain c => String c EmptyString
  | Url m => f m
  end.

(** [text.replace(cssPathRegex, f)] *)
Definition replace_cssPathRegex (f : css_match → string) (text : string) : string :=
  concat_strings (rewrite_piece f <$> pieces 0 text).

(** [s.substring(n)] *)
Fixpoint drop_string (n : nat) (s : string) : string :=
  match n, s with
  | S n', String _ s' => drop_string n' s'
  | _, _ => s
  end.

Section replacePaths.

(** [new URL(ref, new URL(dep, 'http://b.b/')).pathname.substring(1)] as
    a function of [dep] and [ref]; [None] when a [URL] constructor
    throws. *)
Variable URL_pathname : string → string → option string.

(** [String(Object.prototype[name])] for the name of a member of
    [Object.prototype]: the text that the engine gives its built-in
    function, or [[object Object]] for [__proto__]. *)
Variable prototype_text : string → string.

(** The replacement callback of [replacePaths].  An [undefined] second
    group reaches the [URL] constructor as the text [undefined].  The
    resolved path is read from the plain object [packageFiles]: an absent
    entry and an empty one are both falsy, and for a path that is the name
    of a member of [Object.prototype] and has no entry the read gives that
    member, which is truthy and is put into the text. *)
Definition replace_match (dep : string) (packageFiles : gmap string string)
    (m : css_match) : string :=
  match URL_pathname dep (default "undefined" (p2 m)) with
  | Some path =>
      match get_property packageFiles path with
      | Str newUrl =>
          if decide (newUrl = EmptyString) then matched m
          else p1 m +:+ newUrl +:+ p3 m
      | Inherited name => p1 m +:+ prototype_text name +:+ p3 m
      | Undefined => matched m
      end
  | None => matched m
  end.

(** [replacePaths(dep, packageFiles)]; [None] when [packageFiles[dep]] is
    not a text and [.replace] throws: it is [undefined], or a member of
    [Object.prototype], none of which has a method [replace]. *)
Definition replacePaths (dep : string) (packageFiles : gmap string string)
    : option string :=
  replace_cssPathRegex (replace_match dep packageFiles) <$> packageFiles !! dep.

(** A reference that [replacePaths] cannot resolve: the resolution
    throws, or the read of the resolved path from the resource map is
    [undefined]: the path has no entry, and it is not the name of a member
    of [Object.prototype]. *)
Definition broken_reference (dep : string) (packageFiles : gmap string string)
    (m : css_match) : Prop :=
  match URL_pathname dep (default "undefined" (p2 m)) with
  | Some path => get_property packageFiles path = Undefined
  | None => True
  end.

End replacePaths.

(** ** Virtual Asset Store *)

(** [URL.createObjectURL(new Blob(...))]: the blob is registered and a
    fresh URL with the scheme [blob:] names it.  The URL of the n-th blob
    registered is written [blob:n]. *)
Definition createObjectURL (content : string) (this : H5PRunner)
    : string * H5PRunner :=
  ("blob:" +:+ pretty (length (blobs this)),
   set_blobs (blobs this ++ [content]) this).

(** [createBlobUrl(uint8array, fileName)]; the MIME type that the file name
    selects does not show in the URL. *)
Definition createBlobUrl (content fileName : string) (this : H5PRunner)
    : string * H5PRunner :=
  createObjectURL content this.

(** An addressable handle: a URL with the scheme [blob:]. *)
Definition isBlobUrl (s : string) : bool :=
  match strip_prefix "blob:" s with
  | Some _ => true
  | None => false
  end.

(** [undefined.x] and [undefined.f()] throw. *)
Definition defined {A : Type} (o : option A) : result A :=
  match o with
  | Some a => Resolved a
  | None => Rejected TypeError
  end.

(** A read of an entry that is under way, with the content it will give,
    and what its callback does with the content:
    [this.contentJson = content];
    [this.contentPaths[fileName] = createBlobUrl(uint8array, fileName)];
    [this.packageFiles[packagePath][fileName] = content];
    [this.packageFiles[packagePath][fileName] = createBlobUrl(uint8array, fileName)]. *)
Inductive read : Type :=
  | ContentJson (content : string)
  | ContentPath (fileName content : string)
  | PackageText (packagePath fileName content : string)
  | PackageBlob (packagePath fileName content : string).

(** [processContent(file)], up to the read that it starts. *)
Definition processContent (name : string) (file : entry) : read :=
  let fileName := remove_first "content/" name in
  if decide (fileName = "content.json") then ContentJson (text file)
  else ContentPath fileName (text file).

(** [processPackageFile(file, packagePath)], up to the read that it
    starts: the file is looked up in the lists of the package and its name
    is noted in [loadedJs] or [loadedCss] at the call. *)
Definition processPackageFile (name : string) (file : entry) (packagePath : string)
    (this : H5PRunner) : result (H5PRunner * read) :=
  let fileName := remove_first packagePath name in
  js ← defined (jsDependencies this !! packagePath);
  css ← defined (cssDependencies this !! packagePath);
  let jsFile := bool_decide (fileName ∈ js) in
  let cssFile := bool_decide (fileName ∈ css) in
  if jsFile then
    Resolved (set_loadedJs ({[name]} ∪ loadedJs this) this,
              PackageBlob packagePath fileName (text file))
  else if cssFile then
    Resolved (set_loadedCss ({[name]} ∪ loadedCss this) this,
              PackageText packagePath fileName (text file))
  else
    Resolved (this, PackageBlob packagePath fileName (text file)).

(** [this.packageFiles[packagePath][fileName] = v] *)
Definition set_packageFile (packagePath fileName v : string) (this : H5PRunner)
    : result H5PRunner :=
  files ← defined (obj_get (packageFiles this) packagePath);
  Resolved (set_packageFiles
              (obj_set (packageFiles this) packagePath
                 (set_property files fileName v)) this).

(** The callback of a read, run when the read completes. *)
Definition complete (r : read) (this : H5PRunner) : result H5PRunner :=
  match r with
  | ContentJson content => Resolved (set_contentJson content this)
  | ContentPath fileName content =>
      let '(url, this) := createBlobUrl content fileName this in
      Resolved (set_contentPaths (set_property (contentPaths this) fileName url) this)
  | PackageText packagePath fileName content =>
      set_packageFile packagePath fileName content this
  | PackageBlob packagePath fileName content =>
      let '(url, this) := createBlobUrl content fileName this in
      set_packageFile packagePath fileName url this
  end.

(** [this.zip.file(regex)] for a pattern that is a literal text: the
    entries whose name contains it, in the order of the archive. *)
Definition zip_files_matching (zip : archive) (needle : string) : archive :=
  filter (λ f, includes needle f.1 = true) zip.

(** The calls of [processFiles]: [processContent] for each file of the
    content folder and [processPackageFile] for each file of each package
    of [Object.keys(this.packageFiles)]; the reads that they start, in the
    order of the calls. *)
Definition startFiles (zip : archive) (this : H5PRunner)
    : result (H5PRunner * list read) :=
  each (λ packagePath st,
          each (λ f '(this, reads),
                  '(this, r) ← processPackageFile f.1 f.2 packagePath this;
                  Resolved (this, reads ++ [r]))
            (zip_files_matching zip packagePath) st)
    (obj_keys (packageFiles this))
    (this, (λ f, processContent f.1 f.2) <$> zip_files_matching zip "content/").

(** The order in which reads complete is a rearrangement of the order in
    which they were started. *)
Definition completion_order (completion : list read → list read) : Prop :=
  ∀ reads, completion reads ≡ₚ reads.

Section pipeline.

Variable URL_pathname : string → string → option string.
Variable prototype_text : string → string.

(** The order in which the reads of the file pass complete, given the
    reads in the order in which they were started. *)
Variable completion : list read → list read.

(** [processFiles()]: every read is started, and [Promise.all] waits for
    all of them; their callbacks run in the order in which the reads
    complete. *)
Definition processFiles (zip : archive) (this : H5PRunner) : result H5PRunner :=
  '(this, reads) ← startFiles zip this;
  each complete (completion reads) this.

(** The body of the inner [map] of [processCssDependencies], for the
    stylesheet [cssDep] of the package [dependency]. *)
Definition processCssDependency (dependency cssDep : string)
    (st : H5PRunner * obj js_value)
    : result (H5PRunner * obj js_value) :=
  let '(this, fileMap) := st in
  files ← defined (obj_get (packageFiles this) dependency);
  css ← defined (replacePaths URL_pathname prototype_text cssDep files);
  let '(url, this) := createObjectURL css this in
  let fileMap := obj_assign fileMap cssDep (Str url) in
  this ← set_packageFile dependency cssDep css this;
  Resolved (this, fileMap).

(** [processCssDependencies()] *)
Definition processCssDependencies (this : H5PRunner) : result H5PRunner :=
  '(this, plan) ←
    each (λ dependency '(this, plan),
            cssDeps ← defined (cssDependencies this !! dependency);
            '(this, fileMap) ←
              each (processCssDependency dependency) cssDeps (this, []);
            Resolved (this, plan ++ [{| dependency := dependency;
                                        fileMap := fileMap |}]))
      (sortedDependencies this) (this, []);
  Resolved (set_cssPlan plan this).

(** [processJsDependencies()]: the value of a script is read from the
    plain object [this.packageFiles[dependency]]. *)
Definition processJsDependencies (this : H5PRunner) : result H5PRunner :=
  plan ←
    each (λ dependency plan,
            jsDeps ← defined (jsDependencies this !! dependency);
            fileMap ←
              each (λ jsDep fileMap,
                      files ← defined (obj_get (packageFiles this) dependency);
                      Resolved (obj_assign fileMap jsDep (get_property files jsDep)))
                jsDeps [];
            Resolved (plan ++ [{| dependency := dependency; fileMap := fileMap |}]))
      (sortedDependencies this) [];
  Resolved (set_jsPlan plan this).

(** The promise chain of [init], up to the point where [initH5P] is
    called: the recursion over the dependencies from [h5p.json], the
    sorting, the asset store, the stylesheet rewriting and the plans. *)
Definition init (zip : archive) : result H5PRunner :=
  this ← recurseDependencies (S (length zip)) zip "h5p.json" true ∅
           EmptyString new_runner;
  this ← setDependencies this;
  this ← processFiles zip this;
  this ← processCssDependencies this;
  processJsDependencies this.

End pipeline.

(** ** Predicates of the correctness statements *)

(** Every placed node has all its registered dependencies placed before
    it; the list holds the last placed node first. *)
Definition placed_closed (sorter : Toposort.t) (placed : list string) : Prop :=
  ∀ l1 x l2, placed = l1 ++ x :: l2 →
    ∀ d, d ∈ Toposort.deps_of sorter x → d ∈ l2.

(** What a walk from one node changes in the state of the sorter. *)
Definition visit_post (sorter : Toposort.t) (st st' : list string * list string) : Prop :=
  (∃ new, st'.2 = new ++ st.2) ∧
  placed_closed sorter st'.2 ∧
  (∀ x, x ∈ st'.1 → x ∈ st.1) ∧
  length st'.1 ≤ length st.1 ∧
  (∀ x, x ∈ st.1 ∨ x ∈ st.2 → x ∈ st'.1 ∨ x ∈ st'.2).

(** [rk] ranks every package above the packages it is recorded to depend
    on: the recorded graph has no cycle. *)
Definition ranked (rk : string → nat) (deps : list Package.t) : Prop :=
  Forall (λ d, Forall (λ q, rk q < rk (Package.packagePath d))
                 (Package.dependencies d)) deps.

(** ** Example archives *)

Definition dep_1_0 (name : string) : Json.dependency :=
  {| Json.machineName := name; Json.majorVersion := 1; Json.minorVersion := 0 |}.

(** A [library.json] that declares the dependencies [deps], all at version
    1.0, and one script. *)
Definition library_json (deps : list string) (js : string) : entry :=
  {| text := "{}";
     parsed := Some {| Json.preloadedDependencies := dep_1_0 <$> deps;
                       Json.preloadedJs := [js];
                       Json.preloadedCss := [];
                       Json.mainLibrary := None |} |}.

(** An [h5p.json] whose main library and only dependency is [main]. *)
Definition h5p_json (main : string) : entry :=
  {| text := "{}";
     parsed := Some {| Json.preloadedDependencies := [dep_1_0 main];
                       Json.preloadedJs := [];
                       Json.preloadedCss := [];
                       Json.mainLibrary := Some main |} |}.

(** The cycle A → B → A. *)
Definition cyclic_archive : archive :=
  [("h5p.json", h5p_json "A");
   ("A-1.0/library.json", library_json ["B"] "a.js");
   ("B-1.0/library.json", library_json ["A"] "b.js")].

(** The diamond A → {B, C}, B → D, C → D. *)
Definition diamond_archive : archive :=
  [("h5p.json", h5p_json "A");
   ("A-1.0/library.json", library_json ["B"; "C"] "a.js");
   ("B-1.0/library.json", library_json ["D"] "b.js");
   ("C-1.0/library.json", library_json ["D"] "c.js");
   ("D-1.0/library.json", library_json [] "d.js")].

(** A ranking of the packages of the diamond. *)
Definition diamond_rank (p : string) : nat :=
  if decide (p = "A-1.0/") then 2
  else if decide (p = "D-1.0/") then 0
  else 1.

(** A record of [this.dependencies] for a package with one script. *)
Definition record (packagePath : string) (deps : list string) (js : string)
    : Package.t :=
  {| Package.packagePath := packagePath; Package.dependencies := deps;
     Package.preloadedCss := []; Package.preloadedJs := [js] |}.

(** An archive whose package A declares one stylesheet, without any
    reference in it. *)
Definition styled_archive : archive :=
  [("h5p.json", h5p_json "A");
   ("A-1.0/library.json",
    {| text := "{}";
       parsed := Some {| Json.preloadedDependencies := [];
                         Json.preloadedJs := [];
                         Json.preloadedCss := ["a.css"];
                         Json.mainLibrary := None |} |});
   ("A-1.0/a.css", {| text := "body { color: red }"; parsed := None |})].

(** ** Reachable descriptors *)

(** The descriptors the declared dependencies lead to from [h5p.json]. *)
Inductive reachable (zip : archive) : string → Prop :=
  | reachable_root : reachable zip "h5p.json"
  | reachable_dep (jsonFile : string) (content : entry) (json : Json.descriptor)
      (dep : Json.dependency) :
      reachable zip jsonFile →
      zip_file zip jsonFile = Some content →
      parsed content = Some json →
      dep ∈ Json.preloadedDependencies json →
      reachable zip (packagePathOf dep +:+ "library.json").

(** Every reachable descriptor that is in the archive is well-formed
    JSON. *)
Definition descriptors_parse (zip : archive) : Prop :=
  ∀ jsonFile content,
    reachable zip jsonFile → zip_file zip jsonFile = Some content →
    is_Some (parsed content).

(** A reachable descriptor declares a dependency whose [library.json] is
    absent from the archive. *)
Definition missing_dependency (zip : archive) : Prop :=
  ∃ jsonFile content json dep,
    reachable zip jsonFile ∧
    zip_file zip jsonFile = Some content ∧
    parsed content = Some json ∧
    dep ∈ Json.preloadedDependencies json ∧
    zip_file zip (packagePathOf dep +:+ "library.json") = None.

(** [q] has a record among [new]. *)
Definition recorded (new : list Package.t) (q : string) : Prop :=
  ∃ d, d ∈ new ∧ Package.packagePath d = q.

(** Every record of [new] was made from the descriptor of its package, and
    each dependency it lists is in [visited] or has a record in [new]. *)
Definition records_closed (zip : archive) (visited : gset string)
    (new : list Package.t) : Prop :=
  ∀ d, d ∈ new →
    ∃ content json,
      zip_file zip (Package.packagePath d +:+ "library.json") = Some content ∧
      parsed content = Some json ∧
      Package.dependencies d = packagePathOf <$> Json.preloadedDependencies json ∧
      ∀ q, q ∈ Package.dependencies d → q ∈ visited ∨ recorded new q.

(** The entries of the archive that are not the [library.json] of a
    visited package: the measure of the recursion. *)
Definition unvisited (zip : archive) (visited : gset string) : gset string :=
  list_to_set (obj_keys zip) ∖ set_map (λ p, p +:+ "library.json") visited.

(** ** Ordered Loader *)

(** What can be observed of a load: the injection of an element for the
    file number [file] of the tier number [tier] of the style chain
    ([css = true]) or of the script chain ([body.appendChild(script)]); the
    resolution of the promise of [scriptLoader] for it, which for a script
    is its [load] event; the [error] event of a script; and the final call
    of [H5P.init()]. *)
Inductive event : Type :=
  | Inject (css : bool) (tier file : nat) (url : js_value)
  | Loaded (css : bool) (tier file : nat)
  | Failed (tier file : nat)
  | H5P_init.

(** How a chain of promises ends: resolved, rejected, or never settled. *)
Inductive outcome : Type :=
  | Completed
  | Aborted (e : error)
  | Pending.

(** The [load] and [error] events that the scripts of a tier fire once
    the [Promise.all] of the tier is rejected: nothing removes the
    elements that the tier has injected, so each of the [n] scripts that
    has not fired yet may still load or fail.  [settled] are the scripts
    that have fired. *)
Inductive late_events (tier n : nat) : list nat → list event → Prop :=
  | late_events_end (settled : list nat) :
      late_events tier n settled []
  | late_events_load (settled : list nat) (file : nat) (tr : list event) :
      file < n → file ∉ settled →
      late_events tier n (file :: settled) tr →
      late_events tier n settled (Loaded false tier file :: tr)
  | late_events_error (settled : list nat) (file : nat) (tr : list event) :
      file < n → file ∉ settled →
      late_events tier n (file :: settled) tr →
      late_events tier n settled (Failed tier file :: tr).

(** The [load] and [error] events of the scripts of one tier, in the order
    in which they fire, and how the [Promise.all] of the tier settles: it
    resolves once each of the [n] scripts has loaded, is rejected by the
    first [error], after which the other scripts of the tier may still
    fire, and stays pending when a script fires neither.  [loaded] are the
    scripts that have loaded so far. *)
Inductive script_events (tier n : nat) : list nat → list event → outcome → Prop :=
  | script_events_all (loaded : list nat) :
      (∀ file, file < n → file ∈ loaded) →
      script_events tier n loaded [] Completed
  | script_events_hang (loaded : list nat) (file : nat) :
      file < n → file ∉ loaded →
      script_events tier n loaded [] Pending
  | script_events_load (loaded : list nat) (file : nat) (tr : list event) (o : outcome) :
      file < n → file ∉ loaded →
      script_events tier n (file :: loaded) tr o →
      script_events tier n loaded (Loaded false tier file :: tr) o
  | script_events_error (loaded : list nat) (file : nat) (tr : list event) :
      file < n → file ∉ loaded →
      late_events tier n (file :: loaded) tr →
      script_events tier n loaded (Failed tier file :: tr) (Aborted ScriptLoadFailure).

(** The elements that the [map] over [Object.values(depMap.fileMap)]
    injects for a tier of scripts, one after the other and without
    waiting. *)
Definition inject_scripts (tier : nat) (urls : list js_value) : list event :=
  imap (λ file url, Inject false tier file url) urls.

(** The same for a tier of styles: [scriptLoader] resolves the promise of
    a stylesheet at once, before it appends the link element. *)
Definition inject_styles (tier : nat) (urls : list js_value) : list event :=
  mjoin (imap (λ file url, [Loaded true tier file; Inject true tier file url]) urls).

(** One step of the chain of [loadDependencies]:
    [Promise.all(Object.values(depMap.fileMap).map(url => this.scriptLoader(url, css)))]. *)
Inductive tier_run (tier : nat) (urls : list js_value)
    : bool → list event → outcome → Prop :=
  | tier_styles :
      tier_run tier urls true (inject_styles tier urls) Completed
  | tier_scripts (tr : list event) (o : outcome) :
      script_events tier (length urls) [] tr o →
      tier_run tier urls false (inject_scripts tier urls ++ tr) o.

(** [loadDependencies(dependencies, css)], from the tier number [tier]
    on: [dependencies.reduce((p, depMap) => p.then(...), Promise.resolve())].
    The step of a tier runs when the step of the tier before it has
    resolved; a step that does not resolve ends the chain. *)
Inductive loadDependencies_run (css : bool)
    : nat → list depMap → list event → outcome → Prop :=
  | loadDependencies_done (tier : nat) :
      loadDependencies_run css tier [] [] Completed
  | loadDependencies_next (tier : nat) (d : depMap) (rest : list depMap)
      (tr1 tr2 : list event) (o : outcome) :
      tier_run tier (Object_values (fileMap d)) css tr1 Completed →
      loadDependencies_run css (S tier) rest tr2 o →
      loadDependencies_run css tier (d :: rest) (tr1 ++ tr2) o
  | loadDependencies_stop (tier : nat) (d : depMap) (rest : list depMap)
      (tr1 : list event) (o : outcome) :
      tier_run tier (Object_values (fileMap d)) css tr1 o →
      o ≠ Completed →
      loadDependencies_run css tier (d :: rest) tr1 o.

(** [initH5P()]: the style plan, then the script plan, then [H5P.init()]. *)
Inductive initH5P_run (this : H5PRunner) : list event → outcome → Prop :=
  | initH5P_styles_stop (trc : list event) (o : outcome) :
      loadDependencies_run true 0 (cssPlan this) trc o →
      o ≠ Completed →
      initH5P_run this trc o
  | initH5P_scripts_stop (trc trj : list event) (o : outcome) :
      loadDependencies_run true 0 (cssPlan this) trc Completed →
      loadDependencies_run false 0 (jsPlan this) trj o →
      o ≠ Completed →
      initH5P_run this (trc ++ trj) o
  | initH5P_started (trc trj : list event) :
      loadDependencies_run true 0 (cssPlan this) trc Completed →
      loadDependencies_run false 0 (jsPlan this) trj Completed →
      initH5P_run this (trc ++ trj ++ [H5P_init]) Completed.

(** The whole load of an archive: the chain of [init] and, when it
    resolves, [initH5P]. *)
Inductive H5P_load (URL_pathname : string → string → option string)
    (prototype_text : string → string) (completion : list read → list read)
    (zip : archive) : list event → outcome → Prop :=
  | H5P_load_rejected (e : error) :
      init URL_pathname prototype_text completion zip = Rejected e →
      H5P_load URL_pathname prototype_text completion zip [] (Aborted e)
  | H5P_load_started (this : H5PRunner) (tr : list event) (o : outcome) :
      init URL_pathname prototype_text completion zip = Resolved this →
      initH5P_run this tr o →
      H5P_load URL_pathname prototype_text completion zip tr o.

(** An archive whose package A declares the dependency B, for which there
    is no [library.json]. *)
Definition incomplete_archive : archive :=
  [("h5p.json", h5p_json "A");
   ("A-1.0/library.json", library_json ["B"] "a.js");
   ("A-1.0/a.js", {| text := "a()"; parsed := None |})].

(** An archive whose root declares the packages A and B: the descriptor
    of A is not JSON, and B declares the dependency C, for which there is
    no [library.json]. *)
Definition unparsable_archive : archive :=
  [("h5p.json",
    {| text := "{}";
       parsed := Some {| Json.preloadedDependencies := [dep_1_0 "A"; dep_1_0 "B"];
                         Json.preloadedJs := [];
                         Json.preloadedCss := [];
                         Json.mainLibrary := Some "A" |} |});
   ("A-1.0/library.json", {| text := "{"; parsed := None |});
   ("B-1.0/library.json", library_json ["C"] "b.js")].

(** ** User data shim: H5P.setUserData *)

Module UserData.

Section setUserData.

(** The values handed to [setUserData], the exceptions of [JSON.stringify]
    and the store behind [self.data]. *)
Context {value exn store : Type}.

(** [JSON.stringify(data)]: the exception it throws, or its result, which
    is [undefined] ([None]) for a value without a JSON text. *)
Variable JSON_stringify : value → exn + option string.

(** [set(self.data, [subContentId, dataId], data)] of lodash. *)
Variable lodash_set : store → string → string → option string → store.

(** The calls the shim makes to the outside: the error callback of the
    caller, and [self.stateUpdated()]. *)
Inductive call : Type :=
  | ErrorCallback (errorCallback : string) (err : exn)
  | StateUpdated.

(** [self]: the store [self.data] and the calls made so far. *)
Record self : Type := {
  data : store;
  calls : list call
}.

(** The fourth argument, [{ subContentId = 0, errorCallback = null } = {}];
    [errorCallback] is [Some f] for a function [f] and [None] for [null] or
    any other value that [isFunction] refuses. *)
Record options : Type := {
  subContentId : string;
  errorCallback : option string
}.

Definition default_options : options :=
  {| subContentId := "0"; errorCallback := None |}.

(** [H5P.setUserData(contentId, dataId, data, options)] *)
Definition setUserData (contentId dataId : string) (d : value) (o : options)
    (s : self) : self :=
  match JSON_stringify d with
  | inl err =>
      match errorCallback o with
      | Some f => {| data := data s; calls := calls s ++ [ErrorCallback f err] |}
      | None => s
      end
  | inr text =>
      {| data := lodash_set (data s) (subContentId o) dataId text;
         calls := calls s ++ [StateUpdated] |}
  end.

End setUserData.

End UserData.

(** ** Predicates on load traces *)

(** The event belongs to the tier [tier] of the chain [css]. *)
Definition event_of_tier (css : bool) (tier : nat) (e : event) : Prop :=
  match e with
  | Inject c t _ _ => c = css ∧ t = tier
  | Loaded c t _ => c = css ∧ t = tier
  | Failed t _ => css = false ∧ t = tier
  | H5P_init => False
  end.

(** The event belongs to the chain [css], at the tier [tier] or later. *)
Definition event_from_tier (css : bool) (tier : nat) (e : event) : Prop :=
  ∃ t, tier ≤ t ∧ event_of_tier css t e.

(** The event is the completion, with success or not, of a script of
    [tier]. *)
Definition script_settled (tier : nat) (e : event) : Prop :=
  ∃ file, e = Loaded false tier file ∨ e = Failed tier file.

(** ** xAPI event dispatch *)

Module XAPI.

Local Open Scope Z_scope.

(** An xAPI statement: [statement.verb.id] and the rest of it. *)
Record statement : Type := {
  verb : string;
  body : string
}.

(** Modelled from the spec: the state of one function made by [debounce]
    of lodash, whose source is not among the sources (see [shouldInvoke]):
    the arguments of the last call not yet passed on, the time of the last
    call, the time of the last invocation of the wrapped function, and the
    time at which the pending timer is due. *)
Record debounced : Type := {
  lastArgs : option statement;
  lastCallTime : option Z;
  lastInvokeTime : Z;
  timerId : option Z
}.

(** Modelled from the spec: a debounced function that has not been called
    (see [shouldInvoke]). *)
Definition debounce_new : debounced :=
  {| lastArgs := None; lastCallTime := None; lastInvokeTime := 0; timerId := None |}.

Section debounce.

(** [debounce(func, wait, { leading: true, maxWait })]; times are in
    milliseconds. *)
Variables (wait maxWait : Z).

(** Modelled from the spec: [debounce] is imported from lodash and its
    source is not among the sources.  Section 6 (d): a debounce policy
    (fixed delay, with immediate-plus-trailing firing), so that repeated
    events collapse into one externally reported event per window;
    section 9: it fires once immediately, collapses intermediate calls,
    and fires at most once more at window end, as a small per-verb timer
    state machine.  The machine below is that policy with the options the
    source passes: an invocation on the leading edge, a trailing
    invocation once [wait] has passed since the last call, and a forced
    invocation once [maxWait] has passed since the last one.

    [shouldInvoke time]: this is the first call, or the last call is at
    least [wait] old, or the clock went backwards, or the last invocation
    is at least [maxWait] old. *)
Definition shouldInvoke (time : Z) (d : debounced) : bool :=
  match lastCallTime d with
  | None => true
  | Some lastCall =>
      (wait <=? time - lastCall) || (time - lastCall <? 0)
      || (Z.max maxWait wait <=? time - lastInvokeTime d)
  end.

(** Modelled from the spec (see [shouldInvoke]): the wrapped function is
    invoked at [time] on the pending arguments, which are given in the
    second component. *)
Definition invokeFunc (time : Z) (d : debounced) : debounced * list statement :=
  ({| lastArgs := None; lastCallTime := lastCallTime d;
      lastInvokeTime := time; timerId := timerId d |},
   option_list (lastArgs d)).

(** Modelled from the spec (see [shouldInvoke]): the leading edge starts
    the timer and invokes the function at once. *)
Definition leadingEdge (time : Z) (d : debounced) : debounced * list statement :=
  invokeFunc time
    {| lastArgs := lastArgs d; lastCallTime := lastCallTime d;
       lastInvokeTime := time; timerId := Some (time + wait) |}.

(** Modelled from the spec (see [shouldInvoke]): the trailing edge clears
    the timer and invokes the function if arguments are pending. *)
Definition trailingEdge (time : Z) (d : debounced) : debounced * list statement :=
  let d := {| lastArgs := lastArgs d; lastCallTime := lastCallTime d;
              lastInvokeTime := lastInvokeTime d; timerId := None |} in
  match lastArgs d with
  | Some _ => invokeFunc time d
  | None => (d, [])
  end.

(** Modelled from the spec (see [shouldInvoke]): a call of the debounced
    function at [time].  A call inside the window only replaces the
    pending arguments. *)
Definition debounced_call (time : Z) (args : statement) (d : debounced)
    : debounced * list statement :=
  let isInvoking := shouldInvoke time d in
  let d := {| lastArgs := Some args; lastCallTime := Some time;
              lastInvokeTime := lastInvokeTime d; timerId := timerId d |} in
  if isInvoking then
    match timerId d with
    | None => leadingEdge time d
    | Some _ =>
        invokeFunc time
          {| lastArgs := lastArgs d; lastCallTime := lastCallTime d;
             lastInvokeTime := lastInvokeTime d; timerId := Some (time + wait) |}
    end
  else
    match timerId d with
    | None =>
        ({| lastArgs := lastArgs d; lastCallTime := lastCallTime d;
            lastInvokeTime := lastInvokeTime d; timerId := Some (time + wait) |}, [])
    | Some _ => (d, [])
    end.

(** Modelled from the spec (see [shouldInvoke]): the time the timer is
    restarted for. *)
Definition remainingWait (time : Z) (d : debounced) : Z :=
  Z.min (wait - (time - default 0 (lastCallTime d)))
        (Z.max maxWait wait - (time - lastInvokeTime d)).

(** Modelled from the spec (see [shouldInvoke]): the timer fires at
    [time]: the trailing edge, or a restart of the timer for the time that
    remains. *)
Definition timerExpired (time : Z) (d : debounced) : debounced * list statement :=
  if shouldInvoke time d then trailingEdge time d
  else
    ({| lastArgs := lastArgs d; lastCallTime := lastCallTime d;
        lastInvokeTime := lastInvokeTime d;
        timerId := Some (time + remainingWait time d) |}, []).

End debounce.

Section hook.

(** [XAPIVerbMap] of [../xAPI/xAPIVocabulary]: the verb id of a verb name,
    [None] for a name it does not have. *)
Variable XAPIVerbMap : string → option string.

(** [XAPIVerbMap[name]] used as a property key. *)
Definition verb_key (name : string) : string :=
  default "undefined" (XAPIVerbMap name).

Definition doNotLogVerbs : list string :=
  ["downloaded"; "copied"; "accessed-reuse"; "accessed-embed"; "accessed-copyright"].

Definition doNotLogVerbMap : gset string :=
  list_to_set (verb_key <$> doNotLogVerbs).

Definition debounceVerbs : list string := ["answered"; "interacted"].

(** Time in seconds to debounce by, and the longest delay. *)
Definition debounceDelay : Z := 5.
Definition maxDelay : Z := 30.

(** [debouncedHandlers], as the loop of [shimH5P] fills it. *)
Definition debouncedHandlers : gmap string debounced :=
  foldl (λ handlers name, <[verb_key name := debounce_new]> handlers) ∅ debounceVerbs.

(** [doNotLogVerbMap[id]] is truthy: [id] is a key of the map, or it is
    the name of a member of [Object.prototype], which the read of the plain
    object finds and which is truthy. *)
Definition denied (id : string) : bool :=
  bool_decide (id ∈ doNotLogVerbMap) || inherited id.

(** The listener on [xAPI] events, when [contentWindow.xAPI] is there: the
    statements it hands to [xAPI.sendStatement], and the handlers
    after it.  The deny list is read first, so that the id with which
    [debouncedHandlers] is read is not the name of a member of
    [Object.prototype], and that read finds own properties only. *)
Definition dispatch (time : Z) (s : statement) (handlers : gmap string debounced)
    : gmap string debounced * list statement :=
  if denied (verb s) then (handlers, [])
  else
    match handlers !! verb s with
    | Some d =>
        let '(d, sent) :=
          debounced_call (debounceDelay * 1000) (maxDelay * 1000) time s d in
        (<[verb s := d]> handlers, sent)
    | None => (handlers, [s])
    end.

(** What happens to the hook: an xAPI event at a time, or the timer of the
    handler of a verb firing at a time. *)
Inductive input : Type :=
  | Xapi (time : Z) (s : statement)
  | Timeout (time : Z) (key : string).

(** The statements reported over a sequence of inputs, each with the time
    of its report.  [None] when the sequence cannot happen: time runs
    backwards, or a timer fires that is not pending or not yet due. *)
Fixpoint run (inputs : list input) (clock : Z) (handlers : gmap string debounced)
    : option (list (Z * statement)) :=
  match inputs with
  | [] => Some []
  | Xapi time s :: inputs' =>
      if decide (clock ≤ time) then
        let '(handlers, sent) := dispatch time s handlers in
        (λ reports, ((λ r, (time, r)) <$> sent) ++ reports) <$> run inputs' time handlers
      else None
  | Timeout time key :: inputs' =>
      if decide (clock ≤ time) then
        d ← handlers !! key;
        due ← timerId d;
        if decide (due ≤ time) then
          let '(d, sent) :=
            timerExpired (debounceDelay * 1000) (maxDelay * 1000) time d in
          (λ reports, ((λ r, (time, r)) <$> sent) ++ reports)
            <$> run inputs' time (<[key := d]> handlers)
        else None
      else None
  end.


End hook.

End XAPI.

(** ** Example inputs of the shims *)

(** A vocabulary in the style of [xAPIVocabulary]: every verb name has an
    id under the ADL prefix. *)
Definition example_verbs (name : string) : option string :=
  Some ("http://adlnet.gov/expapi/verbs/" +:+ name).

Definition interacted (body : string) : XAPI.statement :=
  {| XAPI.verb := "http://adlnet.gov/expapi/verbs/interacted"; XAPI.body := body |}.




(** A serializer that throws on [None]. *)
Definition example_stringify (d : option string) : string + option string :=
  match d with
  | None => inl "TypeError: cyclic object value"
  | Some t => inr (Some t)
  end.

(** A store that keeps the writes, last first. *)
Definition example_set (store : list (string * string * option string))
    (subContentId dataId : string) (v : option string)
    : list (string * string * option string) :=
  (subContentId, dataId, v) :: store.

(** ** Invariant of the sorter *)

(** No node is placed twice, and a placed node is no longer to be
    entered. *)
Definition sorter_inv (st : list string * list string) : Prop :=
  NoDup st.2 ∧ ∀ x, x ∈ st.2 → x ∉ st.1.

(** A walk places only nodes that were still to be entered, and adds none
    to those. *)
Definition sorter_step (st st' : list string * list string) : Prop :=
  (∀ x, x ∈ st'.2 → x ∈ st.2 ∨ x ∈ st.1) ∧ (∀ x, x ∈ st'.1 → x ∈ st.1).

(** The records of the diamond, in the order in which the recursion of
    this development pushes them. *)
Definition diamond_records : list Package.t :=
  [record "D-1.0/" [] "d.js"; record "B-1.0/" ["D-1.0/"] "b.js";
   record "D-1.0/" [] "d.js"; record "C-1.0/" ["D-1.0/"] "c.js";
   record "A-1.0/" ["B-1.0/"; "C-1.0/"] "a.js"].

(** The chain is rejected, and with the [TypeError] of the absent entry
    when every reachable descriptor of the archive is well-formed. *)
Definition rejected_absent (zip : archive) (r : result H5PRunner) : Prop :=
  ∃ e, r = Rejected e ∧ (descriptors_parse zip → e = TypeError).

(** ** What the pattern of [cssPathRegex] admits *)

(** Nothing, or one quote character. *)
Definition optional_quote (q : string) : Prop :=
  q = EmptyString ∨ ∃ c, is_quote c = true ∧ q = String c EmptyString.

Fixpoint all_path_chars (s : string) : bool :=
  match s with
  | EmptyString => true
  | String c s' => is_path_char c && all_path_chars s'
  end.

(** Some way of matching the pattern at the start of [s], whatever the
    choices made for its optional parts: [url(], [q1], the run [r] (empty
    when the second group takes no part), [q3], [)], and the text that
    follows. *)
Definition cssPathRegex_parse (s q1 r q3 rest : string) : Prop :=
  s = "url(" +:+ q1 +:+ r +:+ q3 +:+ ")" +:+ rest ∧
  optional_quote q1 ∧ all_path_chars r = true ∧ optional_quote q3.

(** ** An example load *)

(** A runner whose plans hold one style tier with one file, and two script
    tiers with two files and one file. *)
Definition example_plans : H5PRunner :=
  set_cssPlan
    [{| dependency := "A-1.0/"; fileMap := [("a.css", Str "blob:0")] |}]
    (set_jsPlan
       [{| dependency := "B-1.0/";
           fileMap := [("b1.js", Str "blob:1"); ("b2.js", Str "blob:2")] |};
        {| dependency := "A-1.0/"; fileMap := [("a.js", Str "blob:3")] |}]
       new_runner).

(** A load of these plans in which the second script of the first tier
    loads before the first. *)
Definition example_trace : list event :=
  [Loaded true 0 0; Inject true 0 0 (Str "blob:0");
   Inject false 0 0 (Str "blob:1"); Inject false 0 1 (Str "blob:2");
   Loaded false 0 1; Loaded false 0 0;
   Inject false 1 0 (Str "blob:3"); Loaded false 1 0;
   H5P_init].

(** ** What the walk records *)

(** The record [d] summarizes the [library.json] of its package, a
    descriptor the declared dependencies lead to: its dependency paths and
    its script and style paths are those of the descriptor, in the order of
    the descriptor. *)
Definition record_of_descriptor (zip : archive) (d : Package.t) : Prop :=
  reachable zip (Package.packagePath d +:+ "library.json") ∧
  ∃ content json,
    zip_file zip (Package.packagePath d +:+ "library.json") = Some content ∧
    parsed content = Some json ∧
    Package.dependencies d = packagePathOf <$> Json.preloadedDependencies json ∧
    Package.preloadedCss d = Json.preloadedCss json ∧
    Package.preloadedJs d = Json.preloadedJs json.

(** The library name of the first dependency of [json] whose machine name
    is the [mainLibrary] of [json]. *)
Definition main_library (json : Json.descriptor) : option string :=
  libraryOf <$>
    head (filter (λ dep, Some (Json.machineName dep) = Json.mainLibrary json)
            (Json.preloadedDependencies json)).

(** The fields of [this] that [recurseDependencies] does not assign. *)
Definition walk_frame (this this' : H5PRunner) : Prop :=
  jsDependencies this' = jsDependencies this ∧
  cssDependencies this' = cssDependencies this ∧
  packageFiles this' = packageFiles this ∧
  contentPaths this' = contentPaths this ∧
  contentJson this' = contentJson this ∧
  loadedJs this' = loadedJs this ∧
  loadedCss this' = loadedCss this ∧
  sortedDependencies this' = sortedDependencies this ∧
  jsPlan this' = jsPlan this ∧
  cssPlan this' = cssPlan this ∧
  blobs this' = blobs this.

(** ** The state between the stages of [init] *)

(** Every package that has a resource map has its lists of declared
    scripts and styles: [this.jsDependencies[p]] and
    [this.cssDependencies[p]] are defined for each key [p] of
    [this.packageFiles]. *)
Definition registered (this : H5PRunner) : Prop :=
  ∀ p, p ∈ obj_keys (packageFiles this) →
       is_Some (jsDependencies this !! p) ∧ is_Some (cssDependencies this !! p).

(** The fields of [this] that [setDependencies] does not assign. *)
Definition sort_frame (this this' : H5PRunner) : Prop :=
  dependencies this' = dependencies this ∧
  contentPaths this' = contentPaths this ∧
  contentJson this' = contentJson this ∧
  library this' = library this ∧
  rootConfig this' = rootConfig this ∧
  loadedJs this' = loadedJs this ∧
  loadedCss this' = loadedCss this ∧
  jsPlan this' = jsPlan this ∧
  cssPlan this' = cssPlan this ∧
  blobs this' = blobs this.

(** ** What the file pass stores *)

(** The URL that [URL.createObjectURL] gives the blob number [n]. *)
Definition blob_url (n : nat) : string := "blob:" +:+ pretty n.

(** [url] names a registered blob, and the blob holds [content]. *)
Definition blob_of (this : H5PRunner) (url content : string) : Prop :=
  ∃ n, url = blob_url n ∧ blobs this !! n = Some content.

(** [f] is an entry that [processFiles] hands to [processPackageFile] for
    the package [packagePath], and [fileName] is the key it is stored
    under: the name of [f] contains [packagePath], and [fileName] is that
    name without the first occurrence of [packagePath]. *)
Definition package_entry (zip : archive) (packagePath fileName : string)
    (f : string * entry) : Prop :=
  f ∈ zip ∧ includes packagePath f.1 = true ∧ remove_first packagePath f.1 = fileName.

(** The same for [processContent] and the text [content/]. *)
Definition content_entry (zip : archive) (fileName : string) (f : string * entry) : Prop :=
  package_entry zip "content/" fileName f.

(** [fileName] is handled as a stylesheet of [packagePath] by
    [processPackageFile]: it is among the declared styles of the package
    and not among its declared scripts. *)
Definition stylesheet_of (this : H5PRunner) (packagePath fileName : string) : Prop :=
  ∃ js css,
    jsDependencies this !! packagePath = Some js ∧
    cssDependencies this !! packagePath = Some css ∧
    (fileName ∉ js) ∧ fileName ∈ css.

(** The fields of [this] that [processFiles] does not assign. *)
Definition files_frame (this this' : H5PRunner) : Prop :=
  dependencies this' = dependencies this ∧
  jsDependencies this' = jsDependencies this ∧
  cssDependencies this' = cssDependencies this ∧
  library this' = library this ∧
  rootConfig this' = rootConfig this ∧
  sortedDependencies this' = sortedDependencies this ∧
  jsPlan this' = jsPlan this ∧
  cssPlan this' = cssPlan this.

(** What the file pass may do to the stores: the packages keep their
    resource maps, blobs are registered and not revoked, no entry of a
    resource map or of [contentPaths] is deleted, and no name leaves
    [loadedJs] or [loadedCss]. *)
Definition store_step (this this' : H5PRunner) : Prop :=
  files_frame this this' ∧
  obj_keys (packageFiles this') = obj_keys (packageFiles this) ∧
  blobs this `prefix_of` blobs this' ∧
  (∀ P files k, obj_get (packageFiles this) P = Some files → is_Some (files !! k) →
     ∃ files', obj_get (packageFiles this') P = Some files' ∧ is_Some (files' !! k)) ∧
  (∀ k, is_Some (contentPaths this !! k) → is_Some (contentPaths this' !! k)) ∧
  loadedJs this ⊆ loadedJs this' ∧
  loadedCss this ⊆ loadedCss this'.

(** The stores hold only what the file pass can have put there from the
    archive [zip]: a content path or a package file that is not a
    stylesheet has the URL of a blob with the content of an entry it was
    made from, a stylesheet has the text of such an entry, no key is
    [__proto__], and the names in [loadedJs] and [loadedCss] are names of
    entries with a declared script or stylesheet. *)
Definition store_valid (zip : archive) (this : H5PRunner) : Prop :=
  registered this ∧
  (∀ k v, contentPaths this !! k = Some v →
     k ≠ "content.json" ∧ k ≠ "__proto__" ∧
     ∃ f, content_entry zip k f ∧ blob_of this v (text f.2)) ∧
  (∀ P files k v, obj_get (packageFiles this) P = Some files → files !! k = Some v →
     k ≠ "__proto__" ∧
     ∃ f, package_entry zip P k f ∧
          (stylesheet_of this P k → v = text f.2) ∧
          (¬ stylesheet_of this P k → blob_of this v (text f.2))) ∧
  (∀ name, name ∈ loadedJs this →
     ∃ P js file, P ∈ obj_keys (packageFiles this) ∧ (name, file) ∈ zip ∧
                  includes P name = true ∧ jsDependencies this !! P = Some js ∧
                  remove_first P name ∈ js) ∧
  (∀ name, name ∈ loadedCss this →
     ∃ P file, P ∈ obj_keys (packageFiles this) ∧ (name, file) ∈ zip ∧
               includes P name = true ∧ stylesheet_of this P (remove_first P name)).

(** [r] is a read of the content [content] for the key [fileName] of the
    resource map of [packagePath]. *)
Definition package_read (packagePath fileName content : string) (r : read) : Prop :=
  r = PackageText packagePath fileName content ∨
  r = PackageBlob packagePath fileName content.

(** [r] is a read that the file pass starts for an entry of [zip], with
    the callback that the lists of [this] select for it. *)
Definition read_valid (zip : archive) (this : H5PRunner) (r : read) : Prop :=
  match r with
  | ContentJson content =>
      ∃ f, content_entry zip "content.json" f ∧ content = text f.2
  | ContentPath fileName content =>
      fileName ≠ "content.json" ∧
      ∃ f, content_entry zip fileName f ∧ content = text f.2
  | PackageText packagePath fileName content =>
      packagePath ∈ obj_keys (packageFiles this) ∧
      stylesheet_of this packagePath fileName ∧
      ∃ f, package_entry zip packagePath fileName f ∧ content = text f.2
  | PackageBlob packagePath fileName content =>
      packagePath ∈ obj_keys (packageFiles this) ∧
      ¬ stylesheet_of this packagePath fileName ∧
      ∃ f, package_entry zip packagePath fileName f ∧ content = text f.2
  end.

(** The stores have the entry that the callback of [r] makes; it makes
    none for the key [__proto__]. *)
Definition stored (this : H5PRunner) (r : read) : Prop :=
  match r with
  | ContentJson _ => True
  | ContentPath fileName _ =>
      fileName ≠ "__proto__" → is_Some (contentPaths this !! fileName)
  | PackageText packagePath fileName _ | PackageBlob packagePath fileName _ =>
      fileName ≠ "__proto__" →
      ∃ files, obj_get (packageFiles this) packagePath = Some files ∧
               is_Some (files !! fileName)
  end.

(** The package of the read [r], if it is the read of a package file, has
    a resource map in [this]. *)
Definition read_registered (this : H5PRunner) (r : read) : Prop :=
  match r with
  | PackageText packagePath _ _ | PackageBlob packagePath _ _ =>
      packagePath ∈ obj_keys (packageFiles this)
  | _ => True
  end.

(** The contents of the reads of [content.json], in the order of the
    reads. *)
Definition json_contents (reads : list read) : list string :=
  reads ≫= λ r, match r with ContentJson content => [content] | _ => [] end.

(** The texts of the entries of [zip] that [processContent] takes for the
    content descriptor: their name contains [content/] and is
    [content.json] without the first [content/]. *)
Definition content_json_texts (zip : archive) : list string :=
  (λ f, text f.2) <$>
    filter (λ f, remove_first "content/" f.1 = "content.json")
      (zip_files_matching zip "content/").

(** What the calls of [processFiles] do before any read completes: they
    note names in [loadedJs] and [loadedCss], and start reads. *)
Definition start_step (st st' : H5PRunner * list read) : Prop :=
  store_step st.1 st'.1 ∧
  packageFiles st'.1 = packageFiles st.1 ∧
  contentPaths st'.1 = contentPaths st.1 ∧
  contentJson st'.1 = contentJson st.1 ∧
  blobs st'.1 = blobs st.1 ∧
  (∀ r, r ∈ st.2 → r ∈ st'.2) ∧
  json_contents st'.2 = json_contents st.2.

(** What the loops of [startFiles] keep: valid stores, the lists and the
    keys of [this], and reads of entries of the archive. *)
Definition start_inv (zip : archive) (this : H5PRunner)
    (st : H5PRunner * list read) : Prop :=
  store_valid zip st.1 ∧ files_frame this st.1 ∧
  obj_keys (packageFiles st.1) = obj_keys (packageFiles this) ∧
  Forall (read_valid zip this) st.2.

(** What the callbacks of the reads do: steps of the stores that leave
    [loadedJs] and [loadedCss] alone. *)
Definition complete_step (this this' : H5PRunner) : Prop :=
  store_step this this' ∧
  loadedJs this' = loadedJs this ∧
  loadedCss this' = loadedCss this.

(** ** What the plans are made of *)

(** [fileMap'] is [fileMap] after the assignments [fileMap[k] = v] for
    the keys [ks], in their order, with some values. *)
Fixpoint assigned (ks : list string) (fileMap fileMap' : obj js_value) : Prop :=
  match ks with
  | [] => fileMap' = fileMap
  | k :: ks' => ∃ v, assigned ks' (obj_assign fileMap k v) fileMap'
  end.

(** The order in which [Object.keys] lists the keys [ks] of a plain
    object that were created in the order of the list: those that are
    array indices first, in ascending order, then the others as they are. *)
Definition key_order (ks : list string) : list string :=
  Object_keys ((λ k, (k, ())) <$> ks).

(** The names that become keys of a file map: all but [__proto__]. *)
Definition own_names (ks : list string) : list string :=
  filter (λ k, k ≠ "__proto__") ks.

(** What [processCssDependencies] may do to the stores: it registers
    blobs, and in a resource map it replaces the values of declared
    stylesheets, without adding or deleting a key. *)
Definition css_step (this this' : H5PRunner) : Prop :=
  files_frame this this' ∧
  contentPaths this' = contentPaths this ∧
  contentJson this' = contentJson this ∧
  loadedJs this' = loadedJs this ∧
  loadedCss this' = loadedCss this ∧
  obj_keys (packageFiles this') = obj_keys (packageFiles this) ∧
  blobs this `prefix_of` blobs this' ∧
  ∀ P files, obj_get (packageFiles this) P = Some files →
    ∃ files', obj_get (packageFiles this') P = Some files' ∧
      (∀ k, is_Some (files' !! k) ↔ is_Some (files !! k)) ∧
      (∀ k, (∀ css, cssDependencies this !! P = Some css → k ∉ css) →
            files' !! k = files !! k).

(** A chain that ends neither by running out of fuel nor with a failure
    other than a [TypeError]. *)
Definition type_error_only {A : Type} (r : result A) : Prop :=
  match r with
  | Resolved _ => True
  | Rejected e => e = TypeError
  | OutOfFuel => False
  end.

(** The stylesheet tier [d] of the plan, against the stores [this]: its
    file map has the declared stylesheets of the package as keys, in the
    order of their first declaration, and each value is the URL of a blob
    whose content is the text that the resource map of the package holds
    for the stylesheet. *)
Definition css_tier (this : H5PRunner) (d : depMap) : Prop :=
  ∃ css,
    cssDependencies this !! dependency d = Some css ∧
    assigned css [] (fileMap d) ∧
    ∀ k u, obj_get (fileMap d) k = Some u →
      ∃ url text files,
        u = Str url ∧ blob_of this url text ∧
        obj_get (packageFiles this) (dependency d) = Some files ∧
        files !! k = Some text.

(** The script tier [d] of the plan: its file map has the declared
    scripts of the package as keys, and the value of a script is what the
    read of the resource map of the package gives for it. *)
Definition js_tier (this : H5PRunner) (d : depMap) : Prop :=
  ∃ js,
    jsDependencies this !! dependency d = Some js ∧
    assigned js [] (fileMap d) ∧
    ∀ k, k ∈ own_names js →
      ∃ files, obj_get (packageFiles this) (dependency d) = Some files ∧
               obj_get (fileMap d) k = Some (get_property files k).

(** The stylesheets recorded in [fm] have the URL of a blob with the text
    that the resource map of [dep] holds for them. *)
Definition css_fileMap_valid (this : H5PRunner) (dep : string)
    (fm : obj js_value) : Prop :=
  ∀ k u, obj_get fm k = Some u →
    ∃ url text files,
      u = Str url ∧ blob_of this url text ∧
      obj_get (packageFiles this) dep = Some files ∧ files !! k = Some text.

(** ** The shims over the stores *)

(** The [getLibraryFilePath] that [shimH5P] gives the content types:
    [self.packageFiles[this.libraryInfo.versionedNameNoSpaces + '/'][filePath]],
    a read of the plain object that is the resource map of the library. *)
Definition getLibraryFilePath (this : H5PRunner)
    (versionedNameNoSpaces filePath : string) : result js_value :=
  files ← defined (obj_get (packageFiles this) (versionedNameNoSpaces +:+ "/"));
  Resolved (get_property files filePath).

(** [path.substr(-4, 4) === '#tmp'] *)
Definition has_tmp_suffix (path : string) : bool :=
  bool_decide (substring (String.length path - 4) 4 path = "#tmp").

(** The [H5P.getPath] of [shimH5P], over the [H5P.getPath] it replaces:
    a suffix [#tmp] is cut off, and the path is read from the plain object
    [contentPaths]; what the read gives is returned when it is truthy, be
    it a URL or a member of [Object.prototype]. *)
Definition getPath (this : H5PRunner) (originalGetPath : string → string → string)
    (path contentId : string) : js_value :=
  let path :=
    if has_tmp_suffix path then substring 0 (String.length path - 4) path else path in
  let url := get_property (contentPaths this) path in
  if truthy url then url else Str (originalGetPath path contentId).

(** ** The chain of [init] by stages *)

(** The chain of [init] up to the stylesheet rewriting: the walk, the
    sorting and the file pass. *)
Definition before_styles (completion : list read → list read) (zip : archive)
    : result H5PRunner :=
  this ← recurseDependencies (S (length zip)) zip "h5p.json" true ∅
           EmptyString new_runner;
  this ← setDependencies this;
  processFiles completion zip this.

(** The archive of [styled_archive] without the stylesheet that its
    package declares. *)
Definition unstyled_archive : archive :=
  [("h5p.json", h5p_json "A");
   ("A-1.0/library.json",
    {| text := "{}";
       parsed := Some {| Json.preloadedDependencies := [];
                         Json.preloadedJs := ["a.js"];
                         Json.preloadedCss := ["a.css"];
                         Json.mainLibrary := None |} |})].

(** An archive with a package that declares a script and a stylesheet and
    has an image besides, and with a content folder. *)
Definition content_archive : archive :=
  [("h5p.json", h5p_json "A");
   ("A-1.0/library.json",
    {| text := "{}";
       parsed := Some {| Json.preloadedDependencies := [];
                         Json.preloadedJs := ["a.js"];
                         Json.preloadedCss := ["a.css"];
                         Json.mainLibrary := None |} |});
   ("A-1.0/a.js", {| text := "a()"; parsed := None |});
   ("A-1.0/a.css", {| text := "body { color: red }"; parsed := None |});
   ("A-1.0/img.png", {| text := "PNG"; parsed := None |});
   ("content/content.json", {| text := "{ }"; parsed := None |});
   ("content/images/pic.png", {| text := "PIC"; parsed := None |})].

(** An archive with two entries that [processContent] takes for the
    content descriptor: the name of each is [content.json] once the first
    [content/] is removed. *)
Definition two_descriptors_archive : archive :=
  [("h5p.json", h5p_json "A");
   ("A-1.0/library.json", library_json [] "a.js");
   ("content/content.json", {| text := "first"; parsed := None |});
   ("ccontent/ontent.json", {| text := "second"; parsed := None |})].

(** An archive with entries named [__proto__], in the package A and in
    the content folder. *)
Definition proto_archive : archive :=
  [("h5p.json", h5p_json "A");
   ("A-1.0/library.json", library_json [] "a.js");
   ("A-1.0/__proto__", {| text := "P"; parsed := None |});
   ("content/__proto__", {| text := "Q"; parsed := None |})].

(** ** What a load can be observed to do *)

(** The trace of a chain of style tiers, from the tier number [tier] on:
    for each file of each tier, in order, the resolution of its promise
    and then the link element. *)
Fixpoint styles_trace (tier : nat) (plan : list depMap) : list event :=
  match plan with
  | [] => []
  | d :: rest => inject_styles tier (Object_values (fileMap d)) ++ styles_trace (S tier) rest
  end.

(** The plan of the chain [css]. *)
Definition plan_of (this : H5PRunner) (css : bool) : list depMap :=
  if css then cssPlan this else jsPlan this.

(** A load of the plans of [example_plans] in which the first script of
    the first tier fails, after which the second still loads. *)
Definition failing_trace : list event :=
  [Loaded true 0 0; Inject true 0 0 (Str "blob:0");
   Inject false 0 0 (Str "blob:1"); Inject false 0 1 (Str "blob:2");
   Failed 0 0; Loaded false 0 1].

(** ** User data shim: H5P.getUserData and H5P.deleteUserData *)

Module UserStore.

(** What [getUserData] hands to [done] as the data; the error it hands
    over is always [undefined].  [Data None] is [undefined]. *)
Inductive user_data : Type :=
  | Null
  | Data (d : option string).

Section shim.

Context {exn store : Type}.

(** [get(self.data, [subContentId, dataId])] of lodash, for a store whose
    values are the serialized texts that [setUserData] writes; [None] is
    [undefined]. *)
Variable lodash_get : store → string → string → option string.

(** [unset(self.data, [subContentId, dataId])] of lodash. *)
Variable lodash_unset : store → string → string → store.

(** [H5P.getUserData(contentId, dataId, done, subContentId)] *)
Definition getUserData (contentId dataId subContentId : string)
    (s : @UserData.self exn store) : user_data :=
  let data := lodash_get (UserData.data s) subContentId dataId in
  if decide (data = Some "RESET") then Null else Data data.

(** [H5P.deleteUserData(contentId, dataId, subContentId)] *)
Definition deleteUserData (contentId dataId subContentId : string)
    (s : @UserData.self exn store) : @UserData.self exn store :=
  {| UserData.data := lodash_unset (UserData.data s) subContentId dataId;
     UserData.calls := UserData.calls s ++ [UserData.StateUpdated] |}.

End shim.

End UserStore.

(** The reads of the example store, which keeps the writes last first,
    and its deletions. *)
Fixpoint example_get (store : list (string * string * option string))
    (subContentId dataId : string) : option string :=
  match store with
  | [] => None
  | (s, i, v) :: store' =>
      if decide (s = subContentId ∧ i = dataId) then v
      else example_get store' subContentId dataId
  end.

Definition example_unset (store : list (string * string * option string))
    (subContentId dataId : string) : list (string * string * option string) :=
  (subContentId, dataId, None) :: store.

(** ** Runs of xAPI events *)



(** The statement of an event, if the input is one. *)
Definition statement_of (i : XAPI.input) : option XAPI.statement :=
  match i with
  | XAPI.Xapi _ s => Some s
  | XAPI.Timeout _ _ => None
  end.

(** A statement of the verb [copied], under the example vocabulary. *)
Definition copied (body : string) : XAPI.statement :=
  {| XAPI.verb := "http://adlnet.gov/expapi/verbs/copied"; XAPI.body := body |}.


(** ** Helpers: escapeRegExp *)

(** The backslash. *)
Definition backslash : ascii := ascii_of_nat 92.

(** The class of [escapeRegExp]: the fourteen syntax characters of a
    regular expression and the hyphen. *)
Definition is_escaped (c : ascii) : bool :=
  bool_decide (c ∈ ["."; "*"; "+"; "-"; "?"; "^"; "$"; "{"; "}"; "("; ")"; "|";
                    "["; "]"; backslash]%char).

(** The syntax characters of a regular expression: outside an escape any
    of them is an operator of the pattern. *)
Definition is_syntax_character (c : ascii) : bool :=
  bool_decide (c ∈ ["."; "*"; "+"; "?"; "^"; "$"; "{"; "}"; "("; ")"; "|";
                    "["; "]"; backslash]%char).

(** [escapeRegExp(string)]: every character of the class gets a
    backslash in front ([string.replace(class, '\\$&')]). *)
Fixpoint escapeRegExp (s : string) : string :=
  match s with
  | EmptyString => EmptyString
  | String c s' =>
      if is_escaped c then String backslash (String c (escapeRegExp s'))
      else String c (escapeRegExp s')
  end.

(** The text that a pattern matches when it has no operator: a backslash
    followed by a character of the class stands for that character, any
    other character but a syntax character stands for itself.  [None] for
    a pattern with an operator or with another escape. *)
Fixpoint pattern_literal (p : string) : option string :=
  match p with
  | EmptyString => Some EmptyString
  | String c p' =>
      if bool_decide (c = backslash) then
        match p' with
        | String c' p'' =>
            if is_escaped c' then String c' <$> pattern_literal p'' else None
        | EmptyString => None
        end
      else if is_syntax_character c then None
      else String c <$> pattern_literal p'
  end.

(** [new RegExp(pattern).test(name)] for a pattern without operators:
    the text it stands for occurs in [name]. *)
Definition literal_test (pattern name : string) : option bool :=
  (λ literal, includes literal name) <$> pattern_literal pattern.

(** ** Helpers: the type of a blob, and the name of the archive *)

(** [fileName.split('.')]: the pieces between the dots, at least one. *)
Fixpoint split_dot (s : string) : list string :=
  match s with
  | EmptyString => [EmptyString]
  | String c s' =>
      if bool_decide (c = "."%char) then EmptyString :: split_dot s'
      else
        match split_dot s' with
        | piece :: pieces => String c piece :: pieces
        | [] => [String c EmptyString]
        end
  end.

(** [fileName.split('.').slice(-1)[0]] *)
Definition fileNameExt (fileName : string) : string :=
  default EmptyString (last (split_dot fileName)).

Section blob_type.

(** [mimetypes[ext]] of [../mimetypes.json], [None] for [undefined], and
    [String.prototype.toLowerCase]. *)
Variable mimetypes : string → option string.
Variable toLowerCase : string → string.

(** The [type] that [createBlobUrl] gives the blob of [fileName]. *)
Definition blob_type (fileName : string) : option string :=
  let fileNameExt := fileNameExt fileName in
  if decide (fileNameExt = EmptyString) then Some EmptyString
  else mimetypes (toLowerCase fileNameExt).

End blob_type.

(** [s.lastIndexOf(c)], [None] for -1. *)
Fixpoint lastIndexOf (c : ascii) (s : string) : option nat :=
  match s with
  | EmptyString => None
  | String x s' =>
      match lastIndexOf c s' with
      | Some i => Some (S i)
      | None => if decide (x = c) then Some 0 else None
      end
  end.

(** The relative URL of the getter [urlLibraries] of [shimH5PIntegration]:
    [`../../zipcontent/${filepath.substring(filepath.lastIndexOf('/') + 1)}`]. *)
Definition urlLibraries_path (filepath : string) : string :=
  "../../zipcontent/" +:+
    drop_string (match lastIndexOf "/" filepath with
                 | Some i => i + 1
                 | None => 0
                 end) filepath.

(** The character [c] does not occur in [s]. *)
Fixpoint free_of (c : ascii) (s : string) : bool :=
  match s with
  | EmptyString => true
  | String x s' => negb (bool_decide (x = c)) && free_of c s'
  end.

(** ** Example states *)

(** A resolver of references for stylesheets at the root of their
    package, and the texts that V8 gives the members of
    [Object.prototype]. *)
Definition example_pathname (dep ref : string) : option string := Some ref.

Definition example_prototype_text (name : string) : string :=
  if decide (name = "__proto__") then "[object Object]"
  else "function " +:+ (if decide (name = "constructor") then "Object" else name)
         +:+ "() { [native code] }".

(** The state that a chain leaves when it resolves (the fresh runner
    otherwise), to name the states of the examples. *)
Definition state_of (r : result H5PRunner) : H5PRunner :=
  match r with
  | Resolved this => this
  | _ => new_runner
  end.

(** The states of [init] on [content_archive]: at the end, and before the
    file pass. *)
Definition content_state : H5PRunner :=
  state_of (init example_pathname example_prototype_text reverse content_archive).

Definition content_walk_state : H5PRunner :=
  state_of (recurseDependencies 8 content_archive "h5p.json" true ∅ EmptyString
              new_runner).

Definition content_sorted_state : H5PRunner :=
  state_of (setDependencies content_walk_state).

(** The states of the chain on [unstyled_archive] and on [styled_archive]
    before the stylesheet rewriting, and after the next stage. *)
Definition unstyled_state : H5PRunner :=
  state_of (before_styles reverse unstyled_archive).


Definition styled_state : H5PRunner := state_of (before_styles reverse styled_archive).

Definition styled_sheet_state : H5PRunner :=
  state_of (processCssDependencies example_pathname example_prototype_text styled_state).

(** The reads that the file pass starts on [styled_archive], in the order
    in which it starts them, and the state of [init] on that archive when
    the reads complete in the order [order]. *)
Definition styled_reads : list read :=
  [PackageBlob "A-1.0/" "library.json" "{}";
   PackageText "A-1.0/" "a.css" "body { color: red }"].

Definition styled_final_state (URL_pathname : string → string → option string)
    (prototype_text : string → string) (order : list read) : H5PRunner :=
  state_of (init URL_pathname prototype_text (λ _, order) styled_archive).

(** The state after [setDependencies] on the records of the diamond. *)
Definition diamond_sorted_state : H5PRunner :=
  state_of (setDependencies (set_dependencies diamond_records new_runner)).

(** Events of a denied verb and of a debounced verb, and the timer of
    the latter. *)
Definition denied_events : list XAPI.input :=
  [XAPI.Xapi 0 (copied "a"); XAPI.Xapi 1 (interacted "b");
   XAPI.Xapi 2 (copied "c"); XAPI.Timeout 6000 "http://adlnet.gov/expapi/verbs/interacted"].

(** * Properties *)

(** ** Sequencing *)

Lemma each_cons {A S : Type} (f : A → S → result S) x items st :
  each f (x :: items) st = (f x st ≫= each f items).
Proof. reflexivity. Qed.

Lemma bind_Resolved {A B : Type} (k : A → result B) (a : A) :
  (Resolved a ≫= k) = k a.
Proof. reflexivity. Qed.

(** ** The sorter *)

Lemma discover_acc (names seen : list string) (x : string) :
  x ∈ fold_left (λ seen n, if decide (n ∈ seen) then seen else seen ++ [n]) names seen
  ↔ x ∈ seen ∨ x ∈ names.
Proof.
  revert seen. induction names as [|n names IH]; intros seen; simpl.
  - rewrite elem_of_nil. tauto.
  - rewrite IH, elem_of_cons. destruct (decide (n ∈ seen)) as [Hn|Hn].
    + split; [tauto|]. intros [?|[->|?]]; auto.
    + rewrite elem_of_app, list_elem_of_singleton. tauto.
Qed.

Lemma elem_of_discover (names : list string) (x : string) :
  x ∈ Toposort.discover names ↔ x ∈ names.
Proof.
  unfold Toposort.discover. rewrite discover_acc, elem_of_nil. tauto.
Qed.

Lemma elem_of_deps_of (sorter : Toposort.t) (p q : string) :
  q ∈ Toposort.deps_of sorter p ↔ ∃ ds, (p, ds) ∈ sorter ∧ q ∈ ds.
Proof.
  unfold Toposort.deps_of. rewrite list_elem_of_bind. split.
  - intros [[i ds] [Hq Hr]]. simpl in Hq. destruct (decide (i = p)) as [->|]; [eauto|].
    by apply elem_of_nil in Hq.
  - intros (ds & Hr & Hq). exists (p, ds). simpl. by rewrite decide_True.
Qed.

Lemma item_in_nodes (sorter : Toposort.t) (p : string) (ds : list string) :
  (p, ds) ∈ sorter → p ∈ Toposort.nodes sorter.
Proof.
  intros H. apply elem_of_discover, list_elem_of_bind. exists (p, ds). split; [|done].
  simpl. apply elem_of_cons; auto.
Qed.

Lemma dep_in_nodes (sorter : Toposort.t) (p q : string) :
  q ∈ Toposort.deps_of sorter p → q ∈ Toposort.nodes sorter.
Proof.
  intros (ds & Hr & Hq)%elem_of_deps_of.
  apply elem_of_discover, list_elem_of_bind. exists (p, ds). split; [|done].
  simpl. apply elem_of_cons; auto.
Qed.

Section toposort_correct.
Context (sorter : Toposort.t) (rk : string → nat).
Hypothesis rk_edge : ∀ p q, q ∈ Toposort.deps_of sorter p → rk q < rk p.

Lemma visit_post_refl st : placed_closed sorter st.2 → visit_post sorter st st.
Proof. intros H. unfold visit_post. split_and!; auto. by exists []. Qed.

Lemma visit_post_trans st1 st2 st3 :
  visit_post sorter st1 st2 → visit_post sorter st2 st3 → visit_post sorter st1 st3.
Proof.
  intros ([n1 E1] & _ & S1 & L1 & U1) ([n2 E2] & C2 & S2 & L2 & U2).
  unfold visit_post. split_and!; auto; [|lia].
  exists (n2 ++ n1). by rewrite E2, E1, (assoc_L (++)).
Qed.

Lemma each_visit_spec (fuel r : nat) :
  (∀ node st, length st.1 < fuel → placed_closed sorter st.2 →
     (∀ x, x ∈ Toposort.nodes sorter → rk x ≤ rk node → x ∈ st.1 ∨ x ∈ st.2) →
     node ∈ Toposort.nodes sorter →
     ∃ st', Toposort.visit fuel sorter node st = Resolved st' ∧
            visit_post sorter st st' ∧ node ∈ st'.2) →
  ∀ deps st,
    (∀ d, d ∈ deps → d ∈ Toposort.nodes sorter ∧ rk d < r) →
    length st.1 < fuel → placed_closed sorter st.2 →
    (∀ x, x ∈ Toposort.nodes sorter → rk x < r → x ∈ st.1 ∨ x ∈ st.2) →
    ∃ st', each (Toposort.visit fuel sorter) deps st = Resolved st' ∧
           visit_post sorter st st' ∧ ∀ d, d ∈ deps → d ∈ st'.2.
Proof.
  intros IH deps. induction deps as [|d deps IHd]; intros st Hd Hlen Hcl Hlow.
  - exists st. split_and!; [done|by apply visit_post_refl|]. by intros d ?%elem_of_nil.
  - destruct (Hd d) as [Hdn Hdr]; [by left|].
    destruct (IH d st) as (st1 & E1 & P1 & In1); auto.
    { intros x Hx Hle. apply Hlow; [done|lia]. }
    rewrite each_cons, E1, bind_Resolved.
    destruct P1 as (N1 & C1 & S1 & L1 & U1).
    destruct (IHd st1) as (st2 & E2 & P2 & In2); auto.
    { intros d' ?. apply Hd. by right. }
    { lia. }
    exists st2. split_and!; [done| |].
    + eapply visit_post_trans; [|done]. by unfold visit_post; split_and!.
    + intros d' [->|?]%elem_of_cons; auto.
      destruct P2 as ([n2 ->] & _). apply elem_of_app; auto.
Qed.

Lemma visit_spec (fuel : nat) :
  ∀ node st, length st.1 < fuel → placed_closed sorter st.2 →
    (∀ x, x ∈ Toposort.nodes sorter → rk x ≤ rk node → x ∈ st.1 ∨ x ∈ st.2) →
    node ∈ Toposort.nodes sorter →
    ∃ st', Toposort.visit fuel sorter node st = Resolved st' ∧
           visit_post sorter st st' ∧ node ∈ st'.2.
Proof.
  induction fuel as [|fuel IH]; intros node [rem placed] Hlen Hcl Hlow Hnode;
    simpl in *; [lia|].
  destruct (decide (node ∈ rem)) as [Hin|Hout].
  - set (st0 := (filter (λ n, n ≠ node) rem, placed)).
    assert (Hlt : length st0.1 < length rem).
    { simpl. eapply length_filter_lt; [done|]. naive_solver. }
    destruct (each_visit_spec fuel (rk node) IH (Toposort.deps_of sorter node) st0)
      as ([rem' placed'] & E & (N & C & Sb & L & U) & Hall).
    + intros d Hd. split; [by eapply dep_in_nodes|by apply rk_edge].
    + lia.
    + done.
    + intros x Hx Hr. simpl. destruct (Hlow x) as [?|?]; auto; [lia|].
      left. apply list_elem_of_filter. split; [|done]. intros ->. lia.
    + rewrite E. simpl. eexists. split; [done|]. simpl in *.
      unfold visit_post; simpl. split_and!.
      * destruct N as [new ->]. by exists (node :: new).
      * intros l1 x l2 Heq d Hd. destruct l1 as [|y l1]; simplify_eq/=.
        -- by apply Hall.
        -- by eapply C.
      * intros x Hx. apply Sb, list_elem_of_filter in Hx. tauto.
      * lia.
      * intros x Hx. destruct (decide (x = node)) as [->|Hne].
        { right. by left. }
        destruct (U x) as [?|?]; auto.
        { destruct Hx as [?|?]; auto. left. by apply list_elem_of_filter. }
        right. by right.
      * by left.
  - eexists. split; [done|]. split; [by apply visit_post_refl|].
    simpl. destruct (Hlow node); auto. done.
Qed.

Lemma sort_spec :
  ∃ sorted, Toposort.sort sorter = Resolved sorted ∧ placed_closed sorter sorted ∧
    ∀ x, x ∈ Toposort.nodes sorter → x ∈ sorted.
Proof.
  unfold Toposort.sort. set (ns := Toposort.nodes sorter).
  assert (G : ∀ todo st, length st.1 < S (length ns) → placed_closed sorter st.2 →
    (∀ x, x ∈ ns → x ∈ st.1 ∨ x ∈ st.2) → (∀ x, x ∈ todo → x ∈ ns) →
    ∃ st', each (Toposort.visit (S (length ns)) sorter) todo st = Resolved st' ∧
      visit_post sorter st st' ∧ ∀ x, x ∈ todo → x ∈ st'.2).
  { induction todo as [|n todo IHt]; intros st Hlen Hcl Hall Hsub.
    - exists st. split_and!; [done|by apply visit_post_refl|]. by intros d ?%elem_of_nil.
    - destruct (visit_spec (S (length ns)) n st) as (st1 & E1 & P1 & In1); auto.
      { apply Hsub. by left. }
      rewrite each_cons, E1, bind_Resolved. destruct P1 as (N1 & C1 & S1 & L1 & U1).
      destruct (IHt st1) as (st2 & E2 & P2 & In2); auto.
      { lia. }
      { intros x ?. apply Hsub. by right. }
      exists st2. split_and!; [done| |].
      + eapply visit_post_trans; [|done]. by unfold visit_post; split_and!.
      + intros d' [->|?]%elem_of_cons; auto.
        destruct P2 as ([n2 ->] & _). apply elem_of_app; auto. }
  destruct (G ns (ns, [])) as ([rem sorted] & E & (N & C & Sb & L & U) & Hall).
  { simpl. lia. }
  { intros l1 x l2 Heq. by destruct l1. }
  { simpl. auto. }
  { auto. }
  rewrite E, bind_Resolved. eauto.
Qed.

End toposort_correct.

(** ** The sorter places every node once *)

Lemma each_invariant {A S : Type} (f : A → S → result S)
    (I : S → Prop) (R : S → S → Prop) :
  (∀ st, R st st) → (∀ st1 st2 st3, R st1 st2 → R st2 st3 → R st1 st3) →
  (∀ x st st', f x st = Resolved st' → I st → I st' ∧ R st st') →
  ∀ items st st', each f items st = Resolved st' → I st → I st' ∧ R st st'.
Proof.
  intros Hrefl Htrans Hf items.
  induction items as [|x items IH]; intros st st' E HI.
  - injection E as <-. auto.
  - rewrite each_cons in E. destruct (f x st) as [st1| |] eqn:E1; [|done..].
    rewrite bind_Resolved in E.
    destruct (Hf _ _ _ E1 HI) as [HI1 HR1].
    destruct (IH _ _ E HI1) as [HI2 HR2]. eauto.
Qed.

Lemma sorter_step_refl st : sorter_step st st.
Proof. split; auto. Qed.

Lemma sorter_step_trans st1 st2 st3 :
  sorter_step st1 st2 → sorter_step st2 st3 → sorter_step st1 st3.
Proof.
  intros [P1 R1] [P2 R2]. split; [|auto].
  intros x Hx. destruct (P2 x Hx) as [?|?]; auto.
Qed.

Lemma visit_inv (sorter : Toposort.t) (fuel : nat) :
  ∀ node st st',
    Toposort.visit fuel sorter node st = Resolved st' →
    sorter_inv st → sorter_inv st' ∧ sorter_step st st'.
Proof.
  induction fuel as [|fuel IH]; intros node [rem placed] st' E [Hnd Hdis]; [done|].
  simpl in E. destruct (decide (node ∈ rem)) as [Hin|Hout].
  - destruct (each (Toposort.visit fuel sorter) (Toposort.deps_of sorter node)
                (filter (λ n, n ≠ node) rem, placed)) as [[rem2 placed2]| |] eqn:E2;
      [|done..].
    rewrite bind_Resolved in E. injection E as <-. simpl in *.
    destruct (each_invariant (Toposort.visit fuel sorter) sorter_inv sorter_step
                sorter_step_refl sorter_step_trans IH _ _ _ E2)
      as [[Hnd2 Hdis2] [P2 R2]]; simpl in *.
    { split; [done|]. simpl. intros x Hx [_ Hr]%list_elem_of_filter. by eapply Hdis. }
    assert (Hn2 : node ∉ placed2).
    { intros [Hp|[Hne _]%list_elem_of_filter]%P2; [by eapply Hdis|done]. }
    split; split; simpl.
    + by constructor.
    + intros x [->|Hx]%elem_of_cons; [|by apply Hdis2].
      intros [Hne _]%R2%list_elem_of_filter. done.
    + intros x [->|Hx]%elem_of_cons; [by right|].
      destruct (P2 x Hx) as [?|[_ ?]%list_elem_of_filter]; auto.
    + intros x [_ ?]%R2%list_elem_of_filter. done.
  - injection E as <-. split; [done|apply sorter_step_refl].
Qed.

Lemma sort_NoDup (sorter : Toposort.t) (sorted : list string) :
  Toposort.sort sorter = Resolved sorted → NoDup sorted.
Proof.
  unfold Toposort.sort. intros E.
  destruct (each _ _ _) as [st| |] eqn:E1; [|done..].
  rewrite bind_Resolved in E. injection E as <-.
  destruct (each_invariant _ sorter_inv sorter_step sorter_step_refl sorter_step_trans
              (visit_inv sorter _) _ _ _ E1) as [[Hnd _] _]; [|done].
  split; [constructor|]. by intros x ?%elem_of_nil.
Qed.

Lemma filter_eq_not_elem_of (l : list string) (x : string) :
  x ∉ l → filter (λ p, p = x) l = [].
Proof.
  induction l as [|y l IH]; intros Hx; [done|].
  apply not_elem_of_cons in Hx as [Hne Hx]. rewrite filter_cons.
  rewrite decide_False by done. by apply IH.
Qed.

Lemma NoDup_count_1 (l : list string) (x : string) :
  NoDup l → x ∈ l → length (filter (λ p, p = x) l) = 1%nat.
Proof.
  induction 1 as [|y l Hy Hnd IH]; intros Hx; [by apply elem_of_nil in Hx|].
  rewrite filter_cons. destruct (decide (y = x)) as [->|Hne].
  - simpl. by rewrite filter_eq_not_elem_of.
  - apply elem_of_cons in Hx as [->|Hx]; [done|]. by apply IH.
Qed.

(** ** Indices *)

Lemma indexOf_app_l (x : string) (l1 l2 : list string) :
  x ∈ l1 → ∃ i, indexOf x (l1 ++ l2) = Some i ∧ i < length l1.
Proof.
  induction l1 as [|y l1 IH]; intros Hx; [by apply elem_of_nil in Hx|].
  simpl. destruct (decide (y = x)) as [->|Hne].
  - exists 0. split; [done|lia].
  - apply elem_of_cons in Hx as [->|Hx]; [done|].
    destruct (IH Hx) as (i & -> & Hi). exists (S i). split; [done|lia].
Qed.

Lemma indexOf_app_r (x : string) (l1 l2 : list string) :
  x ∉ l1 → indexOf x (l1 ++ x :: l2) = Some (length l1).
Proof.
  induction l1 as [|y l1 IH]; intros Hx; simpl.
  - by rewrite decide_True.
  - apply not_elem_of_cons in Hx as [Hne Hx].
    rewrite decide_False by done. by rewrite IH.
Qed.

Lemma indexOf_elem_of (x : string) (l : list string) (i : nat) :
  indexOf x l = Some i → x ∈ l.
Proof.
  revert i. induction l as [|y l IH]; intros i; simpl; [done|].
  destruct (decide (y = x)) as [->|Hne]; [by left|].
  destruct (indexOf x l) eqn:E; [|done]. intros _. right. by eapply IH.
Qed.

Lemma precedes_irrefl_pair (order : list string) (P Q : string) :
  precedes order Q P → precedes order P Q → False.
Proof.
  intros (i & j & Hi & Hj & Hlt) (i' & j' & Hi' & Hj' & Hlt').
  simplify_eq. lia.
Qed.

(** In a closed placement, read from its end, a dependency comes before
    the package that declares it. *)
Lemma placed_closed_precedes (sorter : Toposort.t) (sorted : list string)
    (P Q : string) :
  placed_closed sorter sorted → P ∈ sorted → Q ∈ Toposort.deps_of sorter P →
  precedes (reverse sorted) Q P.
Proof.
  intros Hcl HP HQ.
  destruct (list_elem_of_split_r _ _ HP) as (l1 & l2 & -> & Hl2).
  assert (HQ2 : Q ∈ l2) by by eapply Hcl.
  rewrite reverse_app, reverse_cons, <- (assoc_L (++)). simpl.
  destruct (indexOf_app_l Q (reverse l2) (P :: reverse l1)) as (i & Hi & Hlt).
  { by apply elem_of_reverse. }
  exists i, (length (reverse l2)). split_and!; [done| |done].
  apply indexOf_app_r. by rewrite elem_of_reverse.
Qed.

(** ** setDependencies *)

Lemma setDependencies_loop_sorter (deps : list Package.t) (sorter : Toposort.t)
    (this : H5PRunner) :
  (setDependencies_loop deps sorter this).1 =
  sorter ++ ((λ d, (Package.packagePath d, Package.dependencies d)) <$> deps).
Proof.
  revert sorter this. induction deps as [|d deps IH]; intros sorter this; simpl.
  - by rewrite app_nil_r.
  - rewrite IH. unfold Toposort.add. by rewrite <- (assoc_L (++)).
Qed.

Lemma records_edge_deps_of (deps : list Package.t) (P Q : string) :
  records_edge deps P Q ↔
  Q ∈ Toposort.deps_of
        ((λ d, (Package.packagePath d, Package.dependencies d)) <$> deps) P.
Proof.
  rewrite elem_of_deps_of. unfold records_edge. split.
  - intros (d & Hd & <- & HQ). eexists. split; [|done].
    apply list_elem_of_fmap. by exists d.
  - intros (ds & (d & [= -> ->] & Hd)%list_elem_of_fmap & HQ). eauto.
Qed.

Lemma ranked_edge (rk : string → nat) (deps : list Package.t) (P Q : string) :
  ranked rk deps → records_edge deps P Q → rk Q < rk P.
Proof.
  intros Hr (d & Hd & <- & HQ). unfold ranked in Hr.
  rewrite Forall_forall in Hr. specialize (Hr d Hd).
  rewrite Forall_forall in Hr. by apply Hr.
Qed.

(** On records without a cycle [setDependencies] resolves; the order it
    stores is the reverse of a closed placement without repetition that
    holds every recorded package. *)
Lemma setDependencies_sorted (this : H5PRunner) (rk : string → nat) :
  ranked rk (dependencies this) →
  ∃ this' sorted,
    setDependencies this = Resolved this' ∧
    sortedDependencies this' = reverse sorted ∧
    placed_closed
      ((λ d, (Package.packagePath d, Package.dependencies d)) <$> dependencies this)
      sorted ∧
    NoDup sorted ∧
    ∀ d, d ∈ dependencies this → Package.packagePath d ∈ sorted.
Proof.
  intros Hr. unfold setDependencies.
  pose proof (setDependencies_loop_sorter (dependencies this) Toposort.empty this) as Hs.
  destruct (setDependencies_loop (dependencies this) Toposort.empty this) as [sorter this1].
  simpl in Hs.
  destruct (sort_spec sorter rk) as (sorted & E & Hcl & Hall).
  { intros p q Hq. eapply ranked_edge; [done|]. apply records_edge_deps_of.
    by rewrite <- Hs. }
  pose proof (sort_NoDup _ _ E) as Hnd. subst sorter.
  rewrite E, bind_Resolved. eexists. exists sorted. split_and!; [done..|].
  intros d Hd. apply Hall. eapply item_in_nodes. apply list_elem_of_fmap. by exists d.
Qed.

(** C1 (as amended): for every graph that the builder records and that has
    no cycle among its recorded edges, diamonds included, [setDependencies]
    resolves, and for every recorded edge where [P] lists [Q] the index of
    [Q] in [sortedDependencies] is strictly less than the index of [P]. *)
Theorem recorded_edges_sorted (zip : archive) (fuel : nat) (this : H5PRunner)
    (rk : string → nat) :
  recurseDependencies fuel zip "h5p.json" true ∅ EmptyString new_runner = Resolved this →
  ranked rk (dependencies this) →
  ∃ this', setDependencies this = Resolved this' ∧
    ∀ P Q, records_edge (dependencies this) P Q →
           precedes (sortedDependencies this') Q P.
Proof.
  intros _ Hr.
  destruct (setDependencies_sorted this rk Hr) as (this' & sorted & E & Hs & Hcl & _ & Hall).
  exists this'. split; [done|].
  intros P Q HPQ. rewrite Hs.
  pose proof HPQ as (d & Hd & <- & _).
  apply records_edge_deps_of in HPQ.
  eapply placed_closed_precedes; [done| |done]. by apply Hall.
Qed.

Lemma recorded_edges_sorted_witness :
  ∃ this this',
    recurseDependencies 4 diamond_archive "h5p.json" true ∅ EmptyString new_runner
      = Resolved this ∧
    setDependencies this = Resolved this' ∧
    ∀ P Q, records_edge (dependencies this) P Q →
           precedes (sortedDependencies this') Q P.
Proof.
  eexists.
  eassert (E : recurseDependencies 4 diamond_archive "h5p.json" true ∅ EmptyString
                 new_runner = Resolved _) by (vm_compute; reflexivity).
  destruct (recorded_edges_sorted diamond_archive 4 _ diamond_rank E) as (this' & E' & H).
  - vm_compute. repeat constructor.
  - exists this'. split_and!; [exact E|exact E'|exact H].
Defined.

(** C1, counterexample: on the cycle A → B → A the builder records both
    the edge from A to B and the edge from B to A, so that no order at all
    puts the dependency first on every recorded edge. *)
Lemma recorded_edges_sorted_counterexample :
  ∃ this,
    recurseDependencies 3 cyclic_archive "h5p.json" true ∅ EmptyString new_runner
      = Resolved this ∧
    records_edge (dependencies this) "A-1.0/" "B-1.0/" ∧
    records_edge (dependencies this) "B-1.0/" "A-1.0/" ∧
    ∀ order, ¬ (∀ P Q, records_edge (dependencies this) P Q → precedes order Q P).
Proof.
  eexists. split; [vm_compute; reflexivity|].
  assert (HAB : records_edge [record "B-1.0/" ["A-1.0/"] "b.js";
                              record "A-1.0/" ["B-1.0/"] "a.js"] "A-1.0/" "B-1.0/").
  { exists (record "A-1.0/" ["B-1.0/"] "a.js"). split_and!; [|done|by left].
    right. by left. }
  assert (HBA : records_edge [record "B-1.0/" ["A-1.0/"] "b.js";
                              record "A-1.0/" ["B-1.0/"] "a.js"] "B-1.0/" "A-1.0/").
  { exists (record "B-1.0/" ["A-1.0/"] "b.js"). split_and!; [|done|by left].
    by left. }
  split_and!; [exact HAB|exact HBA|].
  intros order H. eapply precedes_irrefl_pair; [apply (H _ _ HAB)|apply (H _ _ HBA)].
Qed.

(** ** The builder on the cycle and on the diamond *)

Lemma cyclic_archive_records (k : nat) :
  ∃ this,
    recurseDependencies (3 + k) cyclic_archive "h5p.json" true ∅ EmptyString new_runner
      = Resolved this ∧
    dependencies this =
      [record "B-1.0/" ["A-1.0/"] "b.js"; record "A-1.0/" ["B-1.0/"] "a.js"].
Proof. eexists. split; vm_compute; reflexivity. Qed.

(** C3 (as amended): on the cycle A → B → A the recursion resolves with
    any fuel of at least three, that is within three nested calls, and
    records B and A once each; the edge from B back to A is not followed,
    A's descriptor is not read a second time, but the record of B still
    lists A among its dependencies. *)
Theorem cycle_terminates (k : nat) :
  ∃ this,
    recurseDependencies (3 + k) cyclic_archive "h5p.json" true ∅ EmptyString new_runner
      = Resolved this ∧
    Package.packagePath <$> dependencies this = ["B-1.0/"; "A-1.0/"] ∧
    records_edge (dependencies this) "A-1.0/" "B-1.0/" ∧
    records_edge (dependencies this) "B-1.0/" "A-1.0/".
Proof.
  destruct (cyclic_archive_records k) as (this & E & Hdeps).
  exists this. rewrite Hdeps. split_and!; [done|done| |].
  - exists (record "A-1.0/" ["B-1.0/"] "a.js").
    split_and!; [right; by left|done|by left].
  - exists (record "B-1.0/" ["A-1.0/"] "b.js").
    split_and!; [by left|done|by left].
Qed.

(** C3, counterexample: the recorded graph of the cycle does contain the
    back-edge from B to A. *)
Lemma cycle_terminates_counterexample :
  ¬ (∃ this,
       recurseDependencies 3 cyclic_archive "h5p.json" true ∅ EmptyString new_runner
         = Resolved this ∧
       (∃ d, d ∈ dependencies this ∧ Package.packagePath d = "A-1.0/") ∧
       (∃ d, d ∈ dependencies this ∧ Package.packagePath d = "B-1.0/") ∧
       ¬ records_edge (dependencies this) "B-1.0/" "A-1.0/").
Proof.
  intros (this & E & _ & _ & Habsent).
  destruct (cyclic_archive_records 0) as (this0 & E0 & Hdeps).
  simpl in E0. rewrite E0 in E. injection E as <-. apply Habsent.
  rewrite Hdeps. exists (record "B-1.0/" ["A-1.0/"] "b.js").
  split_and!; [by left|done|by left].
Qed.

Lemma diamond_archive_records (k : nat) :
  ∃ this,
    recurseDependencies (4 + k) diamond_archive "h5p.json" true ∅ EmptyString new_runner
      = Resolved this ∧
    dependencies this = diamond_records.
Proof. eexists. split; vm_compute; reflexivity. Qed.

(** C4: on the diamond A → {B, C}, B → D, C → D the builder pushes a
    record for D twice, once under B and once under C; and in whatever
    order the five records were pushed, the order of [setDependencies]
    holds D exactly once, at an index before both B and C. *)
Theorem diamond_recorded_twice_sorted_once (k : nat) :
  ∃ this,
    recurseDependencies (4 + k) diamond_archive "h5p.json" true ∅ EmptyString new_runner
      = Resolved this ∧
    dependencies this ≡ₚ diamond_records ∧
    length (filter (λ d, Package.packagePath d = "D-1.0/") (dependencies this)) = 2 ∧
    ∀ this0, dependencies this0 ≡ₚ diamond_records →
      ∃ this', setDependencies this0 = Resolved this' ∧
        length (filter (λ p, p = "D-1.0/") (sortedDependencies this')) = 1 ∧
        precedes (sortedDependencies this') "D-1.0/" "B-1.0/" ∧
        precedes (sortedDependencies this') "D-1.0/" "C-1.0/".
Proof.
  destruct (diamond_archive_records k) as (this & E & Hdeps).
  exists this. rewrite Hdeps. split_and!; [done|done|by vm_compute|].
  intros this0 Hperm.
  assert (Hr : ranked diamond_rank (dependencies this0)).
  { unfold ranked. rewrite Hperm. vm_compute. repeat constructor. }
  destruct (setDependencies_sorted this0 diamond_rank Hr)
    as (this' & sorted & E' & Hs & Hcl & Hnd & Hall).
  assert (Hin : ∀ d, d ∈ diamond_records → d ∈ dependencies this0).
  { intros d Hd. by rewrite Hperm. }
  assert (HD : record "D-1.0/" [] "d.js" ∈ dependencies this0)
    by (apply Hin; by left).
  assert (HB : record "B-1.0/" ["D-1.0/"] "b.js" ∈ dependencies this0)
    by (apply Hin; right; by left).
  assert (HC : record "C-1.0/" ["D-1.0/"] "c.js" ∈ dependencies this0)
    by (apply Hin; do 3 right; by left).
  exists this'. rewrite Hs. split_and!; [done| | |].
  - apply NoDup_count_1; [by rewrite reverse_Permutation|].
    apply elem_of_reverse. by apply (Hall _ HD).
  - eapply placed_closed_precedes; [done|by apply (Hall _ HB)|].
    apply records_edge_deps_of. eexists. split_and!; [exact HB|done|by left].
  - eapply placed_closed_precedes; [done|by apply (Hall _ HC)|].
    apply records_edge_deps_of. eexists. split_and!; [exact HC|done|by left].
Qed.

(** ** The stylesheet rewriter *)

Lemma string_app_cons (x : ascii) (a b : string) :
  String x a +:+ b = String x (a +:+ b).
Proof. reflexivity. Qed.

Lemma string_app_nil (b : string) : EmptyString +:+ b = b.
Proof. reflexivity. Qed.

Ltac app_simpl := repeat (rewrite string_app_cons || rewrite string_app_nil).

Lemma strip_prefix_Some (p s rest : string) :
  strip_prefix p s = Some rest → s = p +:+ rest.
Proof.
  revert s. induction p as [|a p IH]; intros s; simpl.
  - by intros [= ->].
  - destruct s as [|b s]; [done|].
    destruct (decide (a = b)) as [->|]; [|done]. intros H.
    by rewrite (IH _ H), string_app_cons.
Qed.

Lemma opt_quote_app (s q rest : string) :
  opt_quote s = (q, rest) → s = q +:+ rest.
Proof.
  destruct s as [|c s]; simpl; [by intros [= <- <-]|].
  destruct (is_quote c); by intros [= <- <-].
Qed.

Lemma path_run_app (s run rest : string) :
  path_run s = (run, rest) → s = run +:+ rest.
Proof.
  revert run rest. induction s as [|c s IH]; intros run rest; simpl.
  - by intros [= <- <-].
  - destruct (is_path_char c); [|by intros [= <- <-]].
    destruct (path_run s) as [run' rest']. intros [= <- <-].
    by rewrite string_app_cons, <- (IH _ _ eq_refl).
Qed.

Lemma string_app_assoc (a b c : string) : (a +:+ b) +:+ c = a +:+ b +:+ c.
Proof. induction a as [|x a IH]; app_simpl; [done|by rewrite IH]. Qed.

(** A match is a prefix of the text it was found in. *)
Lemma cssPathRegex_at_prefix (s : string) (m : css_match) :
  cssPathRegex_at s = Some m → ∃ rest, s = matched m +:+ rest.
Proof.
  unfold cssPathRegex_at. destruct (strip_prefix "url(" s) as [s1|] eqn:E1; [|done].
  simpl. destruct (opt_quote s1) as [q1 s2] eqn:E2.
  destruct (path_run s2) as [run s3] eqn:E3.
  destruct (opt_quote s3) as [q3 s4] eqn:E4.
  destruct s4 as [|c s5]; [done|].
  case_bool_decide as Hc; [|done]. subst c. intros [= <-].
  exists s5. unfold matched. cbn [p1 p2 p3].
  apply strip_prefix_Some in E1. apply opt_quote_app in E2.
  apply path_run_app in E3. apply opt_quote_app in E4.
  assert (Hrun : default EmptyString
            (if decide (run = EmptyString) then None else Some run) = run).
  { destruct (decide (run = EmptyString)) as [->|]; done. }
  rewrite Hrun, E1, E2, E3, E4.
  rewrite !string_app_assoc. done.
Qed.

Lemma matched_nonempty (s : string) (m : css_match) :
  cssPathRegex_at s = Some m → ∃ n, String.length (matched m) = S n.
Proof.
  unfold cssPathRegex_at. destruct (strip_prefix "url(" s) as [s1|]; [|done].
  simpl. destruct (opt_quote s1) as [q1 s2]. destruct (path_run s2) as [run s3].
  destruct (opt_quote s3) as [q3 s4]. destruct s4 as [|c s5]; [done|].
  case_bool_decide; [|done]. intros [= <-]. unfold matched. cbn [p1]. app_simpl.
  simpl. eauto.
Qed.

Lemma drop_string_app (a b : string) : drop_string (String.length a) (a +:+ b) = b.
Proof. induction a as [|x a IH]; app_simpl; simpl; [by destruct b|done]. Qed.

Lemma concat_strings_app (l1 l2 : list string) :
  concat_strings (l1 ++ l2) = concat_strings l1 +:+ concat_strings l2.
Proof.
  induction l1 as [|s l1 IH]; simpl; [done|]. by rewrite IH, string_app_assoc.
Qed.

(** The pieces make up the text they were cut from. *)
Lemma pieces_text (skip : nat) (s : string) :
  concat_strings (piece_text <$> pieces skip s) = drop_string skip s.
Proof.
  revert skip. induction s as [|c s IH]; intros skip; simpl.
  - by destruct skip.
  - destruct skip as [|skip]; [|apply IH].
    destruct (cssPathRegex_at (String c s)) as [m|] eqn:E; simpl.
    + rewrite IH.
      destruct (cssPathRegex_at_prefix _ _ E) as (rest & Hs).
      destruct (matched_nonempty _ _ E) as (n & Hn).
      rewrite Hn. simpl. rewrite Nat.sub_0_r.
      change (drop_string n s) with (drop_string (S n) (String c s)).
      rewrite Hs at 1. by rewrite <- Hn, drop_string_app.
    + by rewrite IH.
Qed.

(** *** The greedy matcher and the pattern *)

Lemma strip_prefix_app (p s : string) : strip_prefix p (p +:+ s) = Some s.
Proof.
  induction p as [|a p IH]; app_simpl; simpl; [done|]. by rewrite decide_True.
Qed.

Lemma path_run_spec (r t : string) :
  all_path_chars r = true →
  (t = EmptyString ∨ ∃ c t', t = String c t' ∧ is_path_char c = false) →
  path_run (r +:+ t) = (r, t).
Proof.
  intros Hr Ht. induction r as [|c r IH]; app_simpl; simpl in *.
  - destruct Ht as [->|(c & t' & -> & Hc)]; simpl; [done|by rewrite Hc].
  - apply andb_prop in Hr as [Hc Hr]. by rewrite Hc, (IH Hr).
Qed.

Lemma is_quote_not_path_char (c : ascii) : is_quote c = true → is_path_char c = false.
Proof. unfold is_path_char. by intros ->. Qed.

Lemma paren_not_path_char : is_path_char ")" = false.
Proof. reflexivity. Qed.

Lemma paren_not_quote : is_quote ")" = false.
Proof. reflexivity. Qed.

(** The match that the greedy matcher returns is a way of matching the
    pattern. *)
Lemma cssPathRegex_at_sound (s : string) (m : css_match) :
  cssPathRegex_at s = Some m →
  ∃ q1 r q3 rest,
    cssPathRegex_parse s q1 r q3 rest ∧
    p1 m = "url(" +:+ q1 ∧
    p2 m = (if decide (r = EmptyString) then None else Some r) ∧
    p3 m = q3 +:+ ")".
Proof.
  unfold cssPathRegex_at. destruct (strip_prefix "url(" s) as [s1|] eqn:E1; [|done].
  simpl. destruct (opt_quote s1) as [q1 s2] eqn:E2.
  destruct (path_run s2) as [run s3] eqn:E3.
  destruct (opt_quote s3) as [q3 s4] eqn:E4.
  destruct s4 as [|c s5]; [done|].
  case_bool_decide as Hc; [|done]. subst c. intros [= <-].
  exists q1, run, q3, s5. split; [|done].
  assert (Hq : ∀ a q b, opt_quote a = (q, b) → optional_quote q).
  { intros [|x a] q b; simpl; [intros [= <- <-]; by left|].
    destruct (is_quote x) eqn:Hx; intros [= <- <-]; [right; eauto|by left]. }
  assert (Hrun : ∀ a r b, path_run a = (r, b) → all_path_chars r = true).
  { induction a as [|x a IH]; intros r b; simpl; [by intros [= <- <-]|].
    destruct (is_path_char x) eqn:Hx; [|by intros [= <- <-]].
    destruct (path_run a) as [r' b']. intros [= <- <-]. simpl.
    by rewrite Hx, (IH _ _ eq_refl). }
  split_and!; [|by eapply Hq|by eapply Hrun|by eapply Hq].
  apply strip_prefix_Some in E1. apply opt_quote_app in E2.
  apply path_run_app in E3. apply opt_quote_app in E4.
  by rewrite E1, E2, E3, E4.
Qed.

(** Whenever the pattern can be matched at the start of [s], by whatever
    choices, the greedy matcher finds a match there: backtracking never
    finds a match where the greedy choices fail. *)
Lemma cssPathRegex_at_complete (s q1 r q3 rest : string) :
  cssPathRegex_parse s q1 r q3 rest → is_Some (cssPathRegex_at s).
Proof.
  intros (-> & Hq1 & Hr & Hq3). unfold cssPathRegex_at.
  rewrite strip_prefix_app. simpl.
  assert (Htl : ")" +:+ rest = String ")" rest) by reflexivity.
  revert Htl. generalize (")" +:+ rest). intros tl ->.
  assert (Htail : ∀ q, optional_quote q →
            opt_quote (q +:+ String ")" rest) = (q, String ")" rest) ∧
            (q +:+ String ")" rest = EmptyString ∨
             ∃ c t', q +:+ String ")" rest = String c t' ∧ is_path_char c = false)).
  { intros q [->|(c & Hc & ->)]; app_simpl; simpl.
    - split; [done|]. right. by exists ")"%char, rest.
    - rewrite Hc. split; [done|]. right. exists c, (String ")" rest).
      split; [done|]. by apply is_quote_not_path_char. }
  destruct (Htail q3 Hq3) as [Hopt3 Hstop].
  destruct Hq1 as [->|(c1 & Hc1 & ->)]; app_simpl.
  - (* no opening quote in the given match *)
    destruct r as [|x r]; app_simpl.
    + (* no run either: the greedy opening quote may take the quote that
         the given match gives to the third group *)
      destruct Hq3 as [->|(c3 & Hc3 & ->)]; app_simpl; simpl.
      * by eexists.
      * rewrite Hc3. simpl. by eexists.
    + simpl in Hr. apply andb_prop in Hr as [Hx Hr].
      assert (Hnq : is_quote x = false).
      { unfold is_path_char in Hx. apply negb_true_iff, orb_false_iff in Hx. tauto. }
      cbn [opt_quote]. rewrite Hnq.
      rewrite <- string_app_cons.
      rewrite (path_run_spec (String x r) _); [|by simpl; rewrite Hx, Hr|done].
      rewrite Hopt3. simpl. by eexists.
  - cbn [opt_quote]. rewrite Hc1.
    rewrite (path_run_spec r _ Hr Hstop), Hopt3. simpl. by eexists.
Qed.

Lemma get_property_Some (o : gmap string string) (k v : string) :
  o !! k = Some v → get_property o k = Str v.
Proof. unfold get_property. by intros ->. Qed.

Lemma get_property_Str (o : gmap string string) (k v : string) :
  get_property o k = Str v ↔ o !! k = Some v.
Proof.
  unfold get_property. destruct (o !! k) as [v'|].
  - split; by intros [= ->].
  - by destruct (inherited k).
Qed.

Lemma get_property_Inherited (o : gmap string string) (k name : string) :
  get_property o k = Inherited name ↔ o !! k = None ∧ inherited k = true ∧ name = k.
Proof.
  unfold get_property. destruct (o !! k) as [v'|].
  - split; [done|]. by intros [? _].
  - destruct (inherited k); split; try done.
    + by intros [= ->].
    + by intros (_ & _ & ->).
    + by intros (_ & ? & _).
Qed.

Lemma get_property_Undefined (o : gmap string string) (k : string) :
  get_property o k = Undefined ↔ o !! k = None ∧ inherited k = false.
Proof.
  unfold get_property. destruct (o !! k) as [v'|].
  - split; [done|]. by intros [? _].
  - destruct (inherited k); split; try done. by intros [_ ?].
Qed.

Section rewriter.

Variable URL_pathname : string → string → option string.
Variable prototype_text : string → string.

Lemma replace_match_broken (dep : string) (packageFiles : gmap string string)
    (m : css_match) :
  broken_reference URL_pathname dep packageFiles m →
  replace_match URL_pathname prototype_text dep packageFiles m = matched m.
Proof.
  unfold broken_reference, replace_match.
  destruct (URL_pathname dep _) as [path|]; [|done]. by intros ->.
Qed.

Lemma replace_match_inherited (dep : string) (packageFiles : gmap string string)
    (m : css_match) (path : string) :
  URL_pathname dep (default "undefined" (p2 m)) = Some path →
  packageFiles !! path = None → inherited path = true →
  replace_match URL_pathname prototype_text dep packageFiles m
  = p1 m +:+ prototype_text path +:+ p3 m.
Proof.
  intros Hres Hnone Hin. unfold replace_match, get_property.
  by rewrite Hres, Hnone, Hin.
Qed.

(** C5: for the stylesheet text [background: url('img/a.png')], when the
    reference resolves to the path [img/a.png] and the resource map of
    the package maps that path to [handle:abc], [replacePaths] returns
    the text with [handle:abc] in place of [img/a.png] and the prefix
    [url(], the quotes and the closing parenthesis as they were. *)
Theorem replacePaths_substitutes (dep : string) (packageFiles : gmap string string) :
  packageFiles !! dep = Some "background: url('img/a.png')" →
  URL_pathname dep "img/a.png" = Some "img/a.png" →
  packageFiles !! "img/a.png" = Some "handle:abc" →
  replacePaths URL_pathname prototype_text dep packageFiles
  = Some "background: url('handle:abc')".
Proof.
  intros Hcss Hres Hmap. unfold replacePaths, replace_cssPathRegex.
  rewrite Hcss. unfold fmap at 1, option_fmap, option_map. f_equal.
  assert (Hp : pieces 0 "background: url('img/a.png')" =
    (Plain <$> String.list_ascii_of_string "background: ") ++
    [Url {| p1 := "url('"; p2 := Some "img/a.png"; p3 := "')" |}])
    by (vm_compute; reflexivity).
  rewrite Hp. simpl. unfold replace_match. simpl.
  by rewrite Hres, (get_property_Some _ _ _ Hmap).
Qed.

(** C6, on the code: a reference whose resolved path has no entry in the
    resource map is not left as it is when the path is the name of a
    member of [Object.prototype].  The read [packageFiles[path]] of the
    plain object then gives that member, which is truthy, and
    [replacePaths] puts its text in the place of the reference; the pieces
    before and after it are processed as usual.  The reference is rewritten
    although the map holds no URL for it. *)
Theorem replacePaths_rewrites_inherited_names (dep : string)
    (packageFiles : gmap string string) (css : string)
    (pre post : list piece) (m : css_match) (path : string) :
  packageFiles !! dep = Some css →
  pieces 0 css = pre ++ Url m :: post →
  URL_pathname dep (default "undefined" (p2 m)) = Some path →
  packageFiles !! path = None →
  inherited path = true →
  css = concat_strings (piece_text <$> pre) +:+ matched m
          +:+ concat_strings (piece_text <$> post) ∧
  replacePaths URL_pathname prototype_text dep packageFiles
  = Some (concat_strings
            (rewrite_piece (replace_match URL_pathname prototype_text dep packageFiles)
               <$> pre)
          +:+ (p1 m +:+ prototype_text path +:+ p3 m)
          +:+ concat_strings
                (rewrite_piece (replace_match URL_pathname prototype_text dep packageFiles)
                   <$> post)).
Proof.
  intros Hcss Hp Hres Hnone Hin. split.
  - rewrite <- (pieces_text 0 css) at 1. by rewrite Hp, fmap_app, concat_strings_app.
  - unfold replacePaths, replace_cssPathRegex. rewrite Hcss.
    unfold fmap at 1, option_fmap, option_map. f_equal.
    rewrite Hp, fmap_app, concat_strings_app. simpl.
    by rewrite (replace_match_inherited dep packageFiles m path).
Qed.

(** X26: [replacePaths] never fails on a stylesheet that is in the
    resource map.  Every reference for which the resolution throws, or for
    which the read of the resolved path from the resource map is
    [undefined] (the path has no entry and is not the name of a member of
    [Object.prototype]), stands in the output exactly as in the input,
    between the rewritten pieces that precede and follow it, which are
    still processed; when this holds of all the references the output is
    the input. *)
Theorem replacePaths_keeps_broken_references (dep : string)
    (packageFiles : gmap string string) (css : string) :
  packageFiles !! dep = Some css →
  ∃ out, replacePaths URL_pathname prototype_text dep packageFiles = Some out ∧
    (∀ pre m post,
       pieces 0 css = pre ++ Url m :: post →
       broken_reference URL_pathname dep packageFiles m →
       css = concat_strings (piece_text <$> pre) +:+ matched m
               +:+ concat_strings (piece_text <$> post) ∧
       out = concat_strings
               (rewrite_piece (replace_match URL_pathname prototype_text dep packageFiles)
                  <$> pre)
               +:+ matched m
               +:+ concat_strings
                     (rewrite_piece
                        (replace_match URL_pathname prototype_text dep packageFiles)
                        <$> post)) ∧
    ((∀ m, Url m ∈ pieces 0 css →
           broken_reference URL_pathname dep packageFiles m) → out = css).
Proof.
  intros Hcss. unfold replacePaths, replace_cssPathRegex. rewrite Hcss.
  unfold fmap at 1, option_fmap, option_map.
  eexists. split; [done|]. split.
  - intros pre m post Hp Hb. split.
    + rewrite <- (pieces_text 0 css) at 1. rewrite Hp, fmap_app, concat_strings_app.
      done.
    + rewrite Hp, fmap_app, concat_strings_app. simpl.
      by rewrite replace_match_broken.
  - intros Hall. rewrite <- (pieces_text 0 css) at 2.
    f_equal. apply list_fmap_ext. intros i p Hi.
    destruct p as [c|m]; [done|]. simpl. apply replace_match_broken, Hall.
    by eapply list_elem_of_lookup_2.
Qed.

End rewriter.

Lemma replacePaths_substitutes_witness :
  replacePaths example_pathname example_prototype_text "a.css"
    (<["a.css" := "background: url('img/a.png')"]> (<["img/a.png" := "handle:abc"]> ∅))
  = Some "background: url('handle:abc')".
Proof.
  apply (replacePaths_substitutes example_pathname example_prototype_text "a.css");
    reflexivity.
Defined.

Lemma replacePaths_rewrites_inherited_names_witness :
  (<["a.css" := "a { background: url(constructor) }"]> ∅ : gmap string string)
    !! "constructor" = None ∧
  replacePaths example_pathname example_prototype_text "a.css"
    (<["a.css" := "a { background: url(constructor) }"]> ∅)
  = Some "a { background: url(function Object() { [native code] }) }".
Proof.
  split; [reflexivity|].
  destruct (replacePaths_rewrites_inherited_names example_pathname example_prototype_text
              "a.css" (<["a.css" := "a { background: url(constructor) }"]> ∅)
              "a { background: url(constructor) }"
              (Plain <$> String.list_ascii_of_string "a { background: ")
              (Plain <$> String.list_ascii_of_string " }")
              {| p1 := "url("; p2 := Some "constructor"; p3 := ")" |} "constructor")
    as [_ E]; [reflexivity..|].
  rewrite E. reflexivity.
Defined.

Lemma replacePaths_keeps_broken_references_witness :
  ∃ out, replacePaths (λ _ ref, if decide (ref = "%") then None else Some ref)
           example_prototype_text "a.css"
    (<["a.css" := "a { b: url(x.png) } c { d: url('%') }"]> ∅) = Some out ∧
    out = "a { b: url(x.png) } c { d: url('%') }".
Proof.
  destruct (replacePaths_keeps_broken_references
    (λ _ ref, if decide (ref = "%") then None else Some ref) example_prototype_text "a.css"
    (<["a.css" := "a { b: url(x.png) } c { d: url('%') }"]> ∅)
    "a { b: url(x.png) } c { d: url('%') }") as (out & E & _ & Hall).
  - reflexivity.
  - exists out. split; [exact E|]. apply Hall. intros m Hm.
    vm_compute in Hm. repeat (apply elem_of_cons in Hm as [Hm|Hm]; try discriminate Hm).
    + injection Hm as ->. vm_compute. reflexivity.
    + injection Hm as ->. vm_compute. exact I.
    + by apply elem_of_nil in Hm.
Defined.

(** ** The resource map after the stylesheet rewriting *)

Lemma obj_get_set {V : Type} (o : obj V) (k : string) (v : V) :
  obj_get (obj_set o k v) k = Some v.
Proof.
  induction o as [|[k' v'] o IH]; simpl.
  - by rewrite decide_True.
  - destruct (decide (k' = k)) as [->|Hne]; simpl.
    + by rewrite decide_True.
    + by rewrite decide_False.
Qed.

(** Whatever the state, the body of the inner loop of
    [processCssDependencies] leaves the rewritten text of the stylesheet
    in the resource map of the package, and puts the fresh blob URL into
    the file map only. *)
Lemma processCssDependency_entry (URL_pathname : string → string → option string)
    (prototype_text : string → string)
    (dependency cssDep : string) (this this' : H5PRunner)
    (fileMap fileMap' : obj js_value) :
  processCssDependency URL_pathname prototype_text dependency cssDep (this, fileMap)
    = Resolved (this', fileMap') →
  ∃ files css,
    obj_get (packageFiles this) dependency = Some files ∧
    replacePaths URL_pathname prototype_text cssDep files = Some css ∧
    obj_get (packageFiles this') dependency = Some (set_property files cssDep css) ∧
    (cssDep ≠ "__proto__" →
     obj_get fileMap' cssDep = Some (Str ("blob:" +:+ pretty (length (blobs this))))).
Proof.
  unfold processCssDependency, set_packageFile.
  destruct (obj_get (packageFiles this) dependency) as [files|] eqn:Hfiles; [|done].
  simpl.
  destruct (replacePaths URL_pathname prototype_text cssDep files) as [css|] eqn:Hcss;
    [|done].
  simpl. rewrite Hfiles. simpl. intros [= <- <-]. exists files, css.
  split_and!; [done|done| |]; simpl; [apply obj_get_set|].
  intros Hne. unfold obj_assign. rewrite decide_False by done. apply obj_get_set.
Qed.

(** The value of a closed term, computed. *)
Ltac compute_eq t :=
  let v := eval vm_compute in t in
  let E := fresh "E" in
  assert (E : t = v) by (vm_compute; reflexivity); rewrite E; clear E.

(** C2, evaluated: after the whole of [init] on an archive whose package
    A declares the stylesheet [a.css], in whatever order the reads of the
    file pass complete, the entry of [a.css] in the resource map of A is
    the text of the stylesheet, not a blob URL; the blob URL made for it
    is only in the file map of the load plan. *)
Theorem stylesheet_entry_is_text (URL_pathname : string → string → option string)
    (prototype_text : string → string) (completion : list read → list read) :
  completion_order completion →
  ∃ this files,
    init URL_pathname prototype_text completion styled_archive = Resolved this ∧
    obj_get (packageFiles this) "A-1.0/" = Some files ∧
    files !! "a.css" = Some "body { color: red }" ∧
    isBlobUrl "body { color: red }" = false ∧
    ∃ url, cssPlan this = [{| dependency := "A-1.0/"; fileMap := [("a.css", Str url)] |}] ∧
           isBlobUrl url = true.
Proof.
  intros Hc.
  assert (Hext : ∀ order, completion styled_reads = order →
            init URL_pathname prototype_text completion styled_archive
            = init URL_pathname prototype_text (λ _, order) styled_archive).
  { intros order Ho. unfold init, processFiles.
    compute_eq (recurseDependencies (S (length styled_archive)) styled_archive "h5p.json"
                  true ∅ EmptyString new_runner).
    rewrite !bind_Resolved.
    match goal with |- context [setDependencies ?this] => compute_eq (setDependencies this) end.
    rewrite !bind_Resolved.
    match goal with |- context [startFiles ?zip ?this] => compute_eq (startFiles zip this) end.
    rewrite !bind_Resolved. unfold styled_reads in Ho. by rewrite Ho. }
  assert (Hstate : ∀ order, order = styled_reads ∨ order = reverse styled_reads →
            let this := styled_final_state URL_pathname prototype_text order in
            init URL_pathname prototype_text (λ _, order) styled_archive = Resolved this ∧
            obj_get (packageFiles this) "A-1.0/"
            = Some (default ∅ (obj_get (packageFiles this) "A-1.0/")) ∧
            default ∅ (obj_get (packageFiles this) "A-1.0/") !! "a.css"
            = Some "body { color: red }" ∧
            cssPlan this
            = [{| dependency := "A-1.0/"; fileMap := [("a.css", Str "blob:1")] |}]).
  { intros order [-> | ->]; split_and!; vm_compute; reflexivity. }
  destruct (Permutation_length_2_inv (Permutation_sym (Hc styled_reads))) as [E|E];
    rewrite (Hext _ E);
    (destruct (Hstate (completion styled_reads)) as (H1 & H2 & H3 & H4);
     [rewrite E; auto|]);
    rewrite E in H1, H2, H3, H4;
    eexists _, _; (split_and!; [exact H1|exact H2|exact H3|reflexivity|]);
    exists "blob:1"; (split; [exact H4|reflexivity]).
Qed.

Lemma stylesheet_entry_is_text_witness :
  ∃ this files,
    init example_pathname example_prototype_text reverse styled_archive = Resolved this ∧
    obj_get (packageFiles this) "A-1.0/" = Some files ∧
    files !! "a.css" = Some "body { color: red }" ∧
    isBlobUrl "body { color: red }" = false ∧
    ∃ url, cssPlan this = [{| dependency := "A-1.0/"; fileMap := [("a.css", Str url)] |}] ∧
           isBlobUrl url = true.
Proof.
  apply (stylesheet_entry_is_text example_pathname example_prototype_text reverse).
  intros reads. apply reverse_Permutation.
Defined.

(** ** The builder: termination and missing descriptors *)

Lemma obj_get_Some_keys {V : Type} (o : obj V) (k : string) (v : V) :
  obj_get o k = Some v → k ∈ obj_keys o.
Proof.
  induction o as [|[k' v'] o IH]; simpl; [done|].
  destruct (decide (k' = k)) as [->|]; [by left|]. intros H. right. by apply IH.
Qed.

Lemma string_length_app (a b : string) :
  String.length (a +:+ b) = String.length a + String.length b.
Proof. induction a as [|x a IH]; app_simpl; simpl; [done|by rewrite IH]. Qed.

Lemma string_app_inv_tail (a b t : string) : a +:+ t = b +:+ t → a = b.
Proof.
  revert b. induction a as [|x a IH]; intros [|y b] H; [done| | |].
  - exfalso. apply (f_equal String.length) in H.
    rewrite string_app_nil, string_app_cons in H. simpl in H.
    rewrite string_length_app in H. lia.
  - exfalso. apply (f_equal String.length) in H.
    rewrite string_app_nil, string_app_cons in H. simpl in H.
    rewrite string_length_app in H. lia.
  - rewrite !string_app_cons in H. injection H as -> H. f_equal. by apply IH.
Qed.

Lemma startDependencies_spec (zip : archive) (root : bool) (ml : option string)
    (deps : list Json.dependency) (V : gset string) (lib : option string) :
  match startDependencies zip root ml deps V lib with
  | OutOfFuel => False
  | Rejected e => e = TypeError
  | Resolved (V', _, ps) =>
      (V ⊆ V') ∧
      (∀ x, x ∈ V' → x ∈ V ∨ ∃ dep, dep ∈ deps ∧ x = packagePathOf dep) ∧
      (∀ dep, dep ∈ deps → packagePathOf dep ∈ V') ∧
      promise_path <$> ps = packagePathOf <$> deps ∧
      (∀ pp c, Reading pp c ∈ ps →
         (pp ∉ V) ∧ zip_file zip (pp +:+ "library.json") = Some c ∧
         ∃ dep, dep ∈ deps ∧ pp = packagePathOf dep) ∧
      (∀ pp, Settled pp ∈ ps → pp ∈ V ∨ ∃ c, Reading pp c ∈ ps)
  end.
Proof.
  revert V lib. induction deps as [|dep deps IH]; intros V lib; simpl.
  - split_and!; try done.
    + auto.
    + by intros dep ?%elem_of_nil.
    + by intros pp c ?%elem_of_nil.
    + by intros pp ?%elem_of_nil.
  - set (lib' := if root && bool_decide (lib = None)
                       && bool_decide (Some (Json.machineName dep) = ml)
                  then Some (libraryOf dep) else lib).
    destruct (decide (packagePathOf dep ∈ V)) as [Hin|Hout].
    + specialize (IH V lib').
      destruct (startDependencies zip root ml deps V lib') as [[[V' l'] ps]|e|];
        simpl; [|done..].
      destruct IH as (H1 & H2 & H3 & H4 & H5 & H6). split_and!.
      * done.
      * intros x Hx. destruct (H2 x Hx) as [?|(d & ? & ?)]; [by left|].
        right. exists d. split; [by right|done].
      * intros d [->|?]%elem_of_cons; [by apply H1|by apply H3].
      * f_equal. exact H4.
      * intros pp c [?|Hr]%elem_of_cons; [done|].
        destruct (H5 pp c Hr) as (? & ? & d & ? & ?). split_and!; [done..|].
        exists d. split; [by right|done].
      * intros pp [[= ->]|Hs]%elem_of_cons; [by left|].
        destruct (H6 pp Hs) as [?|[c ?]]; [by left|]. right. exists c. by right.
    + destruct (zip_file zip (packagePathOf dep +:+ "library.json")) as [c|] eqn:Ec;
        [|done].
      specialize (IH ({[packagePathOf dep]} ∪ V) lib').
      destruct (startDependencies zip root ml deps _ lib') as [[[V' l'] ps]|e|];
        simpl; [|done..].
      destruct IH as (H1 & H2 & H3 & H4 & H5 & H6). split_and!.
      * intros x ?. apply H1, elem_of_union. by right.
      * intros x Hx. destruct (H2 x Hx) as [[?%elem_of_singleton|?]%elem_of_union|(d & ? & ?)].
        -- right. exists dep. split; [by left|done].
        -- by left.
        -- right. exists d. split; [by right|done].
      * intros d [->|?]%elem_of_cons; [|by apply H3].
        apply H1, elem_of_union. left. by apply elem_of_singleton.
      * f_equal. exact H4.
      * intros pp c' [Heq|Hr]%elem_of_cons.
        -- injection Heq as -> ->. split_and!; [done..|].
           exists dep. split; [by left|done].
        -- destruct (H5 pp c' Hr) as (Hn & ? & d & ? & ?). split_and!; [|done|].
           { intros ?. apply Hn, elem_of_union. by right. }
           exists d. split; [by right|done].
      * intros pp [?|Hs]%elem_of_cons; [done|].
        destruct (H6 pp Hs) as [[?%elem_of_singleton|?]%elem_of_union|[c' ?]].
        -- subst pp. right. exists c. by left.
        -- by left.
        -- right. exists c'. by right.
Qed.

Lemma size_list_to_set_le (l : list string) :
  size (list_to_set l : gset string) ≤ length l.
Proof.
  induction l as [|x l IH].
  - rewrite list_to_set_nil, size_empty. simpl. lia.
  - rewrite list_to_set_cons, size_union_alt, size_singleton. simpl.
    assert (H : size (list_to_set l ∖ {[x]} : gset string) ≤ size (list_to_set l : gset string)).
    { apply subseteq_size, subseteq_difference_l. reflexivity. }
    lia.
Qed.

Lemma packagePathOf_nonempty (dep : Json.dependency) : packagePathOf dep ≠ EmptyString.
Proof.
  unfold packagePathOf. destruct (Json.machineName dep); app_simpl; discriminate.
Qed.

Lemma recorded_app_l (n1 n2 : list Package.t) (q : string) :
  recorded n1 q → recorded (n1 ++ n2) q.
Proof. intros (d & ? & ?). exists d. split; [|done]. apply elem_of_app. by left. Qed.

Lemma recorded_app_r (n1 n2 : list Package.t) (q : string) :
  recorded n2 q → recorded (n1 ++ n2) q.
Proof. intros (d & ? & ?). exists d. split; [|done]. apply elem_of_app. by right. Qed.

Lemma records_closed_nil (zip : archive) (V : gset string) : records_closed zip V [].
Proof. by intros d ?%elem_of_nil. Qed.

Lemma records_closed_app (zip : archive) (V : gset string) (n1 n2 : list Package.t) :
  records_closed zip V n1 → records_closed zip V n2 → records_closed zip V (n1 ++ n2).
Proof.
  intros H1 H2 d [Hd|Hd]%elem_of_app.
  - destruct (H1 d Hd) as (c & j & ? & ? & ? & Hq). exists c, j. split_and!; [done..|].
    intros q Hin. destruct (Hq q Hin); [by left|]. right. by apply recorded_app_l.
  - destruct (H2 d Hd) as (c & j & ? & ? & ? & Hq). exists c, j. split_and!; [done..|].
    intros q Hin. destruct (Hq q Hin); [by left|]. right. by apply recorded_app_r.
Qed.

Lemma records_closed_weaken (zip : archive) (V V' : gset string) (new : list Package.t) :
  records_closed zip V' new →
  (∀ q, q ∈ V' → q ∈ V ∨ recorded new q) →
  records_closed zip V new.
Proof.
  intros H HV d Hd. destruct (H d Hd) as (c & j & ? & ? & ? & Hq).
  exists c, j. split_and!; [done..|].
  intros q Hin. destruct (Hq q Hin); [by apply HV|by right].
Qed.

Lemma unvisited_shrinks (zip : archive) (V V' : gset string) (pp : string) (c : entry) :
  V ⊆ V' → pp ∉ V → pp ∈ V' →
  zip_file zip (pp +:+ "library.json") = Some c →
  size (unvisited zip V') < size (unvisited zip V).
Proof.
  intros Hsub Hout Hin Hfile. apply subset_size. unfold unvisited. split.
  - intros x [Hx Hn]%elem_of_difference. apply elem_of_difference. split; [done|].
    intros (p & -> & Hp)%elem_of_map. apply Hn, elem_of_map. exists p. split; [done|].
    by apply Hsub.
  - intros Hrev. assert (Hx : pp +:+ "library.json" ∈ unvisited zip V).
    { unfold unvisited. apply elem_of_difference. split.
      - apply elem_of_list_to_set. by eapply obj_get_Some_keys.
      - intros (p & Heq & Hp)%elem_of_map. apply string_app_inv_tail in Heq.
        by subst p. }
    unfold unvisited in Hx. apply Hrev, elem_of_difference in Hx as [_ Hn]. apply Hn, elem_of_map.
    by exists pp.
Qed.

Section builder.

Context (zip : archive).

Lemma rejected_absent_bind (r : result H5PRunner) (k : H5PRunner → result H5PRunner) :
  rejected_absent zip r → rejected_absent zip (r ≫= k).
Proof. intros (e & -> & He). by exists e. Qed.

Lemma await_all_spec (fuel : nat) (V : gset string) :
  (∀ content jsonFile pp this,
     size (unvisited zip V) < fuel →
     zip_file zip jsonFile = Some content → reachable zip jsonFile →
     (pp ≠ EmptyString → jsonFile = pp +:+ "library.json") →
     rejected_absent zip (recurseDependencies_then fuel zip content false V pp this) ∨
     ∃ this' new,
       recurseDependencies_then fuel zip content false V pp this = Resolved this' ∧
       dependencies this' = dependencies this ++ new ∧
       records_closed zip V new ∧
       (pp ≠ EmptyString → recorded new pp)) →
  ∀ ps this,
    (∀ pp c, Reading pp c ∈ ps →
       zip_file zip (pp +:+ "library.json") = Some c ∧
       reachable zip (pp +:+ "library.json") ∧
       pp ≠ EmptyString ∧ size (unvisited zip V) < fuel) →
    rejected_absent zip
      (each (await (λ content packagePath,
                      recurseDependencies_then fuel zip content false V packagePath))
         ps this) ∨
    ∃ this' new,
      each (await (λ content packagePath,
                     recurseDependencies_then fuel zip content false V packagePath))
        ps this = Resolved this' ∧
      dependencies this' = dependencies this ++ new ∧
      records_closed zip V new ∧
      ∀ pp c, Reading pp c ∈ ps → recorded new pp.
Proof.
  intros IH ps. induction ps as [|p ps IHps]; intros this Hps.
  - right. exists this, []. split_and!; [done|by rewrite app_nil_r| |].
    + apply records_closed_nil.
    + by intros pp c ?%elem_of_nil.
  - rewrite each_cons. destruct p as [pp|pp c]; simpl.
    + destruct (IHps this) as [E|(this' & new & E & Hd & Hc & Hr)].
      { intros pp' c' ?. apply Hps. by right. }
      * by left.
      * right. exists this', new. split_and!; [done..|].
        intros pp' c' [?|?]%elem_of_cons; [done|]. by eapply Hr.
    + destruct (Hps pp c) as (Hfile & Hreach & Hne & Hsize); [by left|].
      destruct (IH c _ pp this Hsize Hfile Hreach)
        as [E|(this1 & new1 & E & Hd1 & Hc1 & Hr1)]; [done| |].
      * left. by apply rejected_absent_bind.
      * rewrite E, bind_Resolved.
        destruct (IHps this1) as [E2|(this2 & new2 & E2 & Hd2 & Hc2 & Hr2)].
        { intros pp' c' ?. apply Hps. by right. }
        -- by left.
        -- right. exists this2, (new1 ++ new2). split_and!.
           ++ done.
           ++ by rewrite Hd2, Hd1, (assoc_L (++)).
           ++ by apply records_closed_app.
           ++ intros pp' c' [Heq|?]%elem_of_cons.
              ** injection Heq as -> ->. apply recorded_app_l. by apply Hr1.
              ** apply recorded_app_r. by eapply Hr2.
Qed.

(** The callback of [recurseDependencies] on a reachable descriptor, with
    fuel for the entries not yet visited: it rejects, or it resolves after
    having pushed records that are closed under the declared
    dependencies. *)
Lemma recurseDependencies_then_spec (fuel : nat) :
  ∀ content jsonFile root V pp this,
    size (unvisited zip V) < fuel →
    zip_file zip jsonFile = Some content → reachable zip jsonFile →
    (pp ≠ EmptyString → jsonFile = pp +:+ "library.json") →
    rejected_absent zip (recurseDependencies_then fuel zip content root V pp this) ∨
    ∃ this' new json,
      recurseDependencies_then fuel zip content root V pp this = Resolved this' ∧
      parsed content = Some json ∧
      dependencies this' = dependencies this ++ new ∧
      records_closed zip V new ∧
      (∀ dep, dep ∈ Json.preloadedDependencies json →
              packagePathOf dep ∈ V ∨ recorded new (packagePathOf dep)) ∧
      (pp ≠ EmptyString → recorded new pp).
Proof.
  induction fuel as [|fuel IH]; intros content jsonFile root V pp this
    Hsize Hfile Hreach Hpp; [lia|].
  simpl. destruct (parsed content) as [json|] eqn:Hjson.
  2: { left. exists SyntaxError. split; [done|]. intros Hparse.
       destruct (Hparse _ _ Hreach Hfile) as [j Hj]. congruence. }
  set (this0 := if root then set_rootConfig (Some json) this else this).
  assert (Hd0 : dependencies this0 = dependencies this) by by destruct root.
  pose proof (startDependencies_spec zip root (Json.mainLibrary json)
                (Json.preloadedDependencies json) V (library this0)) as Hs.
  destruct (startDependencies zip root _ _ V (library this0))
    as [[[V' lib'] ps]|e|]; [|left; subst e; by exists TypeError|done].
  destruct Hs as (H1 & H2 & H3 & H4 & H5 & H6). simpl.
  destruct (await_all_spec fuel V') with (ps := ps) (this := set_library lib' this0)
    as [E|(this1 & new1 & E & Hd1 & Hc1 & Hr1)].
  { intros c f p t ? ? ? ?.
    destruct (IH c f false V' p t) as [?|(t' & n & j & ? & ? & ? & ? & _ & ?)]; eauto 10. }
  { intros p c Hp. destruct (H5 p c Hp) as (Hout & Hf & dep & Hdep & ->).
    split_and!; [done| |apply packagePathOf_nonempty|].
    - by eapply reachable_dep.
    - pose proof (unvisited_shrinks zip V V' _ c H1 Hout (H3 dep Hdep) Hf). lia. }
  { left. by apply rejected_absent_bind. }
  rewrite E, bind_Resolved. simpl in Hd1. rewrite Hd0 in Hd1.
  assert (HV : ∀ q, q ∈ V' → q ∈ V ∨ recorded new1 q).
  { intros q Hq. destruct (H2 q Hq) as [?|(dep & Hdep & ->)]; [by left|].
    assert (Hp : packagePathOf dep ∈ promise_path <$> ps).
    { rewrite H4. by apply list_elem_of_fmap_2. }
    apply list_elem_of_fmap in Hp as ([p|p c] & Heq & Hp); simpl in Heq; subst p.
    - destruct (H6 _ Hp) as [?|[c Hc]]; [by left|]. right. by eapply Hr1.
    - right. by eapply Hr1. }
  destruct (decide (pp = EmptyString)) as [Hroot|Hnr].
  - right. exists this1, new1, json. split_and!; [done..| | |done].
    + by eapply records_closed_weaken.
    + intros dep Hdep. apply HV. by apply H3.
  - right. eexists. exists (new1 ++ [{| Package.packagePath := pp;
                              Package.dependencies := promise_path <$> ps;
                              Package.preloadedCss := Json.preloadedCss json;
                              Package.preloadedJs := Json.preloadedJs json |}]), json.
    split_and!; [done|done| | | |].
    + simpl. by rewrite Hd1, (assoc_L (++)).
    + eapply records_closed_weaken.
      * apply records_closed_app; [done|].
        intros d ->%list_elem_of_singleton. simpl.
        exists content, json. rewrite <- (Hpp Hnr). split_and!; [done..|].
        intros q Hq. left. rewrite H4 in Hq.
        apply list_elem_of_fmap in Hq as (dep & -> & Hdep). by apply H3.
      * intros q Hq. destruct (HV q Hq); [by left|]. right. by apply recorded_app_l.
    + intros dep Hdep. destruct (HV _ (H3 dep Hdep)); [by left|].
      right. by apply recorded_app_l.
    + intros _. apply recorded_app_r. eexists. split; [by apply list_elem_of_singleton|done].
Qed.

(** With the fuel of [init] the recursion from [h5p.json] never runs out
    of fuel: it rejects, or it resolves, and then every reachable
    descriptor is in the archive. *)
Lemma recurseDependencies_root_spec :
  rejected_absent zip
    (recurseDependencies (S (length zip)) zip "h5p.json" true ∅ EmptyString new_runner) ∨
  ∃ this,
    recurseDependencies (S (length zip)) zip "h5p.json" true ∅ EmptyString new_runner
      = Resolved this ∧
    ∀ jsonFile, reachable zip jsonFile → is_Some (zip_file zip jsonFile).
Proof.
  unfold recurseDependencies.
  destruct (zip_file zip "h5p.json") as [content|] eqn:Hfile;
    [|left; by exists TypeError].
  destruct (recurseDependencies_then_spec (S (length zip)) content "h5p.json" true ∅
              EmptyString new_runner)
    as [E|(this & new & json & E & Hjson & Hd & Hc & Hdeps & _)];
    [|done|apply reachable_root|done| |].
  { unfold unvisited. eapply Nat.le_lt_trans; [apply subseteq_size|].
    - apply subseteq_difference_l. reflexivity.
    - eapply Nat.le_lt_trans; [apply size_list_to_set_le|].
      unfold obj_keys. rewrite length_fmap. lia. }
  { by left. }
  right. exists this. split; [done|].
  assert (G : ∀ jsonFile, reachable zip jsonFile →
            jsonFile = "h5p.json" ∨
            ∃ q, recorded new q ∧ jsonFile = q +:+ "library.json").
  { intros f Hr. induction Hr as [|f c j dep Hr IHr Hf Hj Hdep]; [by left|]. right.
    destruct IHr as [->|(q & (d & Hd' & <-) & ->)].
    - rewrite Hfile in Hf. injection Hf as <-. rewrite Hjson in Hj. injection Hj as <-.
      destruct (Hdeps dep Hdep) as [?%not_elem_of_empty|?]; [done|]. eauto.
    - destruct (Hc d Hd') as (c' & j' & Hf' & Hj' & Hdd & Hq).
      rewrite Hf' in Hf. injection Hf as <-. rewrite Hj' in Hj. injection Hj as <-.
      destruct (Hq (packagePathOf dep)) as [?%not_elem_of_empty|?]; [|done|eauto].
      rewrite Hdd. by apply list_elem_of_fmap_2. }
  intros f Hr. destruct (G f Hr) as [->|(q & (d & Hd' & <-) & ->)].
  - by rewrite Hfile.
  - destruct (Hc d Hd') as (c' & j' & Hf' & _). by rewrite Hf'.
Qed.

(** When a reachable descriptor declares a dependency whose
    [library.json] is absent, the recursion from [h5p.json] rejects. *)
Lemma recurseDependencies_missing :
  missing_dependency zip →
  rejected_absent zip
    (recurseDependencies (S (length zip)) zip "h5p.json" true ∅ EmptyString new_runner).
Proof.
  intros (f & c & j & dep & Hr & Hf & Hj & Hdep & Hnone).
  destruct recurseDependencies_root_spec as [E|(this & E & Hall)]; [done|].
  destruct (Hall (packagePathOf dep +:+ "library.json")) as [c' Hc'].
  { by eapply reachable_dep. }
  congruence.
Qed.

End builder.

(** ** A missing descriptor aborts the load *)

Lemma each_Rejected {A S : Type} (f : A → S → result S) (items : list A) (e : error) :
  ∀ st, each f items st = Rejected e → ∃ x st', x ∈ items ∧ f x st' = Rejected e.
Proof.
  induction items as [|x items IH]; intros st; [done|].
  rewrite each_cons. destruct (f x st) as [st1|e1|] eqn:E1; [| |done].
  - rewrite bind_Resolved. intros (y & st' & Hy & E)%IH.
    exists y, st'. split; [by right|done].
  - intros [= ->]. exists x, st. split; [by left|done].
Qed.

(** The walk is rejected by an absent entry or by a text that is not
    JSON, and by nothing else. *)
Lemma recurseDependencies_then_errors (zip : archive) (fuel : nat) :
  ∀ content root V pp this e,
    recurseDependencies_then fuel zip content root V pp this = Rejected e →
    e = TypeError ∨ e = SyntaxError.
Proof.
  induction fuel as [|fuel IH]; intros content root V pp this e; [done|].
  simpl. destruct (parsed content) as [json|]; [|intros [= <-]; by right].
  pose proof (startDependencies_spec zip root (Json.mainLibrary json)
                (Json.preloadedDependencies json) V
                (library (if root then set_rootConfig (Some json) this else this))) as Hs.
  destruct (startDependencies zip root (Json.mainLibrary json)
              (Json.preloadedDependencies json) V _) as [[[V' lib'] ps]|e'|];
    [|intros [= <-]; by left|done].
  rewrite bind_Resolved. cbv beta iota.
  match goal with
  | |- context [each ?f ps ?st] => destruct (each f ps st) as [st'|e'|] eqn:E
  end.
  - rewrite bind_Resolved. by case_decide.
  - intros [= <-]. apply each_Rejected in E as (p & st' & _ & E).
    destruct p as [|pp' c]; [done|]. simpl in E. by eapply IH.
  - done.
Qed.

(** C8 (as amended): when a reachable descriptor declares a dependency
    whose [library.json] is absent from the archive, the load rejects and
    this is its only behaviour: nothing is ever injected, no style or
    script tier runs and [loadDependencies] is not reached.  The rejection
    is the [TypeError] of [zip.file(...).async] on the absent entry when
    the reachable descriptors are well-formed; it can only be that or the
    [SyntaxError] of a descriptor that is not JSON. *)
Theorem missing_descriptor_aborts (URL_pathname : string → string → option string)
    (prototype_text : string → string) (completion : list read → list read)
    (zip : archive) :
  missing_dependency zip →
  ∃ e,
    init URL_pathname prototype_text completion zip = Rejected e ∧
    (e = TypeError ∨ e = SyntaxError) ∧
    (descriptors_parse zip → e = TypeError) ∧
    H5P_load URL_pathname prototype_text completion zip [] (Aborted e) ∧
    ∀ tr o, H5P_load URL_pathname prototype_text completion zip tr o →
            tr = [] ∧ o = Aborted e.
Proof.
  intros Hmissing.
  destruct (recurseDependencies_missing zip Hmissing) as (e & Hrec & He).
  assert (E : init URL_pathname prototype_text completion zip = Rejected e).
  { unfold init. by rewrite Hrec. }
  exists e. split_and!; [done| |done|by constructor|].
  - unfold recurseDependencies in Hrec.
    destruct (zip_file zip "h5p.json") as [content|]; [|injection Hrec as <-; by left].
    by eapply recurseDependencies_then_errors.
  - intros tr o Hload. destruct Hload as [e' He'|this tr o He' _]; rewrite E in He'.
    + by injection He' as <-.
    + done.
Qed.

Lemma missing_dependency_incomplete_archive : missing_dependency incomplete_archive.
Proof.
  exists "A-1.0/library.json", (library_json ["B"] "a.js"). eexists. exists (dep_1_0 "B").
  split_and!.
  - change "A-1.0/library.json" with (packagePathOf (dep_1_0 "A") +:+ "library.json").
    eapply (reachable_dep incomplete_archive "h5p.json" (h5p_json "A"));
      [constructor|reflexivity|reflexivity|by left].
  - reflexivity.
  - reflexivity.
  - by left.
  - reflexivity.
Qed.

Lemma missing_descriptor_aborts_witness :
  init example_pathname example_prototype_text reverse incomplete_archive
    = Rejected TypeError ∧
  ∀ tr o, H5P_load example_pathname example_prototype_text reverse incomplete_archive tr o →
          tr = [] ∧ o = Aborted TypeError.
Proof.
  destruct (missing_descriptor_aborts example_pathname example_prototype_text reverse
              incomplete_archive missing_dependency_incomplete_archive)
    as (e & E & _ & _ & _ & Hall).
  assert (E' : init example_pathname example_prototype_text reverse incomplete_archive
               = Rejected TypeError) by (vm_compute; reflexivity).
  rewrite E' in E. injection E as <-. split; [exact E'|exact Hall].
Defined.

(** C8, counterexample: in [unparsable_archive] the package B declares the
    dependency C, for which there is no [library.json], and the descriptor
    of the package A, whose read is started before that of B, is not JSON.
    When the reads complete in the order in which they were started, the
    callback of A throws first, and the load rejects with the
    [SyntaxError] of [JSON.parse] and not with the error of the absent
    entry. *)
Lemma missing_descriptor_aborts_counterexample :
  missing_dependency unparsable_archive ∧
  init example_pathname example_prototype_text reverse unparsable_archive
    = Rejected SyntaxError ∧
  init example_pathname example_prototype_text reverse unparsable_archive
    ≠ Rejected TypeError.
Proof.
  assert (E : init example_pathname example_prototype_text reverse unparsable_archive
              = Rejected SyntaxError) by (vm_compute; reflexivity).
  split_and!; [|exact E|by rewrite E].
  exists "B-1.0/library.json", (library_json ["C"] "b.js"). eexists. exists (dep_1_0 "C").
  split_and!.
  - change "B-1.0/library.json" with (packagePathOf (dep_1_0 "B") +:+ "library.json").
    eapply (reachable_dep unparsable_archive "h5p.json");
      [constructor|reflexivity|reflexivity|].
    right. by left.
  - reflexivity.
  - reflexivity.
  - by left.
  - reflexivity.
Qed.

(** ** The user data shim *)

Section userData.

Context {value exn store : Type}.
Variable JSON_stringify : value → exn + option string.
Variable lodash_set : store → string → string → option string → store.

(** C10: when [JSON.stringify] throws on the data, [setUserData] calls the
    error callback with the error if it is a function and makes no other
    call, leaves [self.data] as it is and does not signal a state update;
    and whenever a call of [setUserData] signals a state update, the
    serialization has succeeded and the store is the result of writing the
    serialized text; and the store differs from what it was only when the
    serialization has succeeded. *)
Theorem setUserData_serialization_failure (contentId dataId : string) (d : value)
    (o : UserData.options) (s : @UserData.self exn store) :
  let s' := UserData.setUserData JSON_stringify lodash_set contentId dataId d o s in
  (∀ err, JSON_stringify d = inl err →
     UserData.data s' = UserData.data s ∧
     UserData.calls s' =
       UserData.calls s ++
         match UserData.errorCallback o with
         | Some f => [UserData.ErrorCallback f err]
         | None => []
         end ∧
     UserData.StateUpdated ∉ drop (length (UserData.calls s)) (UserData.calls s')) ∧
  (UserData.StateUpdated ∈ drop (length (UserData.calls s)) (UserData.calls s') →
     ∃ text, JSON_stringify d = inr text ∧
       UserData.data s' =
         lodash_set (UserData.data s) (UserData.subContentId o) dataId text ∧
       UserData.calls s' = UserData.calls s ++ [UserData.StateUpdated]) ∧
  (UserData.data s' ≠ UserData.data s → ∃ text, JSON_stringify d = inr text).
Proof.
  intros s'. subst s'. unfold UserData.setUserData. split_and!.
  - intros err ->. destruct (UserData.errorCallback o) as [f|]; simpl.
    + split_and!; [done..|]. rewrite drop_app_length.
      by intros [?|?%elem_of_nil]%elem_of_cons.
    + split_and!; [done|by rewrite app_nil_r|].
      rewrite drop_all. by intros ?%elem_of_nil.
  - destruct (JSON_stringify d) as [err|text].
    + destruct (UserData.errorCallback o) as [f|]; simpl.
      * rewrite drop_app_length. by intros [?|?%elem_of_nil]%elem_of_cons.
      * rewrite drop_all. by intros ?%elem_of_nil.
    + intros _. by exists text.
  - destruct (JSON_stringify d) as [err|text]; [|by eauto].
    by destruct (UserData.errorCallback o).
Qed.

End userData.

(** ** The ordered loader *)

Lemma inject_scripts_lookup (tier : nat) (urls : list js_value) (n : nat) (e : event) :
  inject_scripts tier urls !! n = Some e →
  ∃ url, urls !! n = Some url ∧ e = Inject false tier n url.
Proof.
  unfold inject_scripts. rewrite list_lookup_imap.
  destruct (urls !! n) as [url|]; simpl; [|done]. intros [= <-]. eauto.
Qed.

Lemma inject_styles_elem_of (tier : nat) (urls : list js_value) (e : event) :
  e ∈ inject_styles tier urls ↔
  ∃ file url, urls !! file = Some url ∧
              (e = Loaded true tier file ∨ e = Inject true tier file url).
Proof.
  unfold inject_styles. rewrite list_elem_of_join. split.
  - intros (l & He & Hl). apply list_elem_of_lookup in Hl as [file Hl].
    rewrite list_lookup_imap in Hl. destruct (urls !! file) as [url|] eqn:E; [|done].
    simpl in Hl. injection Hl as <-. exists file, url. split; [done|].
    apply elem_of_cons in He as [->|He]; [by left|].
    apply list_elem_of_singleton in He as ->. by right.
  - intros (file & url & Hu & He).
    exists [Loaded true tier file; Inject true tier file url]. split.
    + destruct He as [->| ->]; [by left|right; by left].
    + apply list_elem_of_lookup. exists file. rewrite list_lookup_imap, Hu. done.
Qed.

Lemma late_events_tier (tier n : nat) (settled : list nat) (tr : list event) :
  late_events tier n settled tr →
  ∀ e, e ∈ tr → script_settled tier e.
Proof.
  induction 1 as [|settled file tr ? ? ? IH|settled file tr ? ? ? IH]; intros e He.
  - by apply elem_of_nil in He.
  - apply elem_of_cons in He as [->|He]; [|by apply IH]. exists file. by left.
  - apply elem_of_cons in He as [->|He]; [|by apply IH]. exists file. by right.
Qed.

Lemma script_events_tier (tier n : nat) (loaded : list nat) (tr : list event) (o : outcome) :
  script_events tier n loaded tr o →
  ∀ e, e ∈ tr → script_settled tier e.
Proof.
  induction 1 as [| |loaded file tr o ? ? ? IH|loaded file tr ? ? Hlate]; intros e He.
  - by apply elem_of_nil in He.
  - by apply elem_of_nil in He.
  - apply elem_of_cons in He as [->|He]; [|by apply IH]. exists file. by left.
  - apply elem_of_cons in He as [->|He]; [exists file; by right|].
    by eapply late_events_tier.
Qed.

Lemma script_events_completed (tier n : nat) (loaded : list nat) (tr : list event) :
  script_events tier n loaded tr Completed →
  ∀ file, file < n → file ∈ loaded ∨ Loaded false tier file ∈ tr.
Proof.
  intros H. remember Completed as o eqn:Ho.
  induction H as [loaded Hall| |loaded file tr o ? ? ? IH|]; intros f Hf; try done.
  - left. by apply Hall.
  - destruct (IH Ho f Hf) as [[->|?]%elem_of_cons|?].
    + right. by left.
    + by left.
    + right. by right.
Qed.

(** Scripts that load one after the other, from [file] on. *)
Lemma script_events_exist (tier n : nat) (k : nat) :
  ∀ file loaded, file + k = n →
    (∀ f, f < file → f ∈ loaded) → (∀ f, f ∈ loaded → f < file) →
    ∃ tr, script_events tier n loaded tr Completed.
Proof.
  induction k as [|k IH]; intros file loaded Hn Hlow Hup.
  - exists []. constructor. intros f Hf. apply Hlow. lia.
  - destruct (IH (S file) (file :: loaded)) as [tr Htr].
    + lia.
    + intros f Hf. destruct (decide (f = file)) as [->|]; [by left|].
      right. apply Hlow. lia.
    + intros f [->|Hf]%elem_of_cons; [lia|]. apply Hup in Hf. lia.
    + exists (Loaded false tier file :: tr). constructor; [lia| |done].
      intros Hf%Hup. lia.
Qed.

Lemma tier_run_tier (tier : nat) (urls : list js_value) (css : bool)
    (tr : list event) (o : outcome) :
  tier_run tier urls css tr o → ∀ e, e ∈ tr → event_of_tier css tier e.
Proof.
  intros [|tr' o' Hs] e He.
  - apply inject_styles_elem_of in He as (f & url & _ & [->| ->]); by simpl.
  - apply elem_of_app in He as [He|He].
    + apply list_elem_of_lookup in He as [n He].
      apply inject_scripts_lookup in He as (url & _ & ->). by simpl.
    + destruct (script_events_tier _ _ _ _ _ Hs e He) as [f [->| ->]]; by simpl.
Qed.

Lemma tier_run_completed (tier : nat) (urls : list js_value) (css : bool)
    (tr : list event) :
  tier_run tier urls css tr Completed →
  ∀ file, file < length urls → Loaded css tier file ∈ tr.
Proof.
  intros H. remember Completed as o eqn:Ho. destruct H as [|tr' o' Hs]; intros f Hf.
  - apply lookup_lt_is_Some_2 in Hf as [url Hu].
    apply inject_styles_elem_of. exists f, url. split; [done|by left].
  - subst o'. apply elem_of_app. right.
    destruct (script_events_completed _ _ _ _ Hs f Hf) as [?%elem_of_nil|?]; done.
Qed.

Lemma tier_run_exists (tier : nat) (urls : list js_value) (css : bool) :
  ∃ tr, tier_run tier urls css tr Completed.
Proof.
  destruct css.
  - eexists. constructor.
  - destruct (script_events_exist tier (length urls) (length urls) 0 []) as [tr Htr];
      [lia|intros f ?; lia|by intros f ?%elem_of_nil|].
    eexists. by constructor.
Qed.

(** In a tier of scripts every injection comes before every load or error
    event of the tier. *)
Lemma tier_run_scripts_started (tier : nat) (urls : list js_value)
    (tr : list event) (o : outcome) (n m : nat) (e : event) (f : nat) (url : js_value) :
  tier_run tier urls false tr o →
  tr !! n = Some (Inject false tier f url) → m < n → tr !! m = Some e →
  ¬ script_settled tier e.
Proof.
  intros H. inversion H as [|tr' o' Hs]; subst. intros Hn Hm He.
  apply lookup_app_Some in Hn as [Hn|[Hlen Hn]].
  - apply lookup_lt_Some in Hn as Hlt. rewrite lookup_app_l in He by lia.
    apply inject_scripts_lookup in He as (u & _ & ->). by intros [f' [?|?]].
  - apply list_elem_of_lookup_2 in Hn.
    by destruct (script_events_tier _ _ _ _ _ Hs _ Hn) as [f' [?|?]].
Qed.

Lemma loadDependencies_run_from (css : bool) (tier : nat) (plan : list depMap)
    (tr : list event) (o : outcome) :
  loadDependencies_run css tier plan tr o →
  ∀ e, e ∈ tr → event_from_tier css tier e.
Proof.
  induction 1 as [|tier d rest tr1 tr2 o H1 _ IH|tier d rest tr1 o H1 _]; intros e He.
  - by apply elem_of_nil in He.
  - apply elem_of_app in He as [He|He].
    + exists tier. split; [done|]. by eapply tier_run_tier.
    + destruct (IH e He) as (t & ? & ?). exists t. split; [lia|done].
  - exists tier. split; [done|]. by eapply tier_run_tier.
Qed.

Lemma loadDependencies_run_completed (css : bool) (tier : nat) (plan : list depMap)
    (tr : list event) :
  loadDependencies_run css tier plan tr Completed →
  ∀ i d file, plan !! i = Some d → file < length (Object_values (fileMap d)) →
    Loaded css (tier + i) file ∈ tr.
Proof.
  intros H. remember Completed as o eqn:Ho.
  induction H as [|tier d rest tr1 tr2 o H1 _ IH|tier d rest tr1 o H1 Hne];
    intros i d' f Hi Hf; [done| |done].
  destruct i as [|i]; simpl in Hi.
  - injection Hi as <-. apply elem_of_app. left. rewrite Nat.add_0_r.
    by eapply tier_run_completed.
  - apply elem_of_app. right. replace (tier + S i) with (S tier + i) by lia.
    by eapply IH.
Qed.

Lemma loadDependencies_run_exists (css : bool) (tier : nat) (plan : list depMap) :
  ∃ tr, loadDependencies_run css tier plan tr Completed.
Proof.
  revert tier. induction plan as [|d rest IH]; intros tier.
  - exists []. constructor.
  - destruct (tier_run_exists tier (Object_values (fileMap d)) css) as [tr1 H1].
    destruct (IH (S tier)) as [tr2 H2]. exists (tr1 ++ tr2). by econstructor.
Qed.

(** The tiers of one chain run strictly in order. *)
Lemma loadDependencies_run_ordered (css : bool) (tier : nat) (plan : list depMap)
    (tr : list event) (o : outcome) :
  loadDependencies_run css tier plan tr o →
  ∀ n j f url, tr !! n = Some (Inject css j f url) →
    ∀ i d file, tier ≤ i → i < j → plan !! (i - tier) = Some d →
      file < length (Object_values (fileMap d)) →
      Loaded css i file ∈ take n tr.
Proof.
  induction 1 as [|tier d rest tr1 tr2 o H1 _ IH|tier d rest tr1 o H1 _];
    intros n j f url Hn i d' file Hi Hj Hd Hf.
  - done.
  - apply lookup_app_Some in Hn as [Hn|[Hlen Hn]].
    + apply list_elem_of_lookup_2 in Hn.
      destruct (tier_run_tier _ _ _ _ _ H1 _ Hn) as [_ ->]. lia.
    + rewrite take_app_ge by done. apply elem_of_app.
      destruct (decide (i = tier)) as [->|Hne].
      * left. rewrite Nat.sub_diag in Hd. injection Hd as <-.
        by eapply tier_run_completed.
      * right. eapply IH; [done|lia|done| |done].
        replace (i - tier) with (S (i - S tier)) in Hd by lia. done.
  - apply list_elem_of_lookup_2 in Hn.
    destruct (tier_run_tier _ _ _ _ _ H1 _ Hn) as [_ ->]. lia.
Qed.

(** Within one tier of scripts all files are started before any of them
    completes. *)
Lemma loadDependencies_run_concurrent (tier : nat) (plan : list depMap)
    (tr : list event) (o : outcome) :
  loadDependencies_run false tier plan tr o →
  ∀ n m j f url e, tr !! n = Some (Inject false j f url) → m < n →
    tr !! m = Some e → ¬ script_settled j e.
Proof.
  induction 1 as [|tier d rest tr1 tr2 o H1 H2 IH|tier d rest tr1 o H1 _];
    intros n m j f url e Hn Hm He.
  - done.
  - apply lookup_app_Some in Hn as [Hn|[Hlen Hn]].
    + apply lookup_lt_Some in Hn as Hlt. rewrite lookup_app_l in He by lia.
      pose proof (list_elem_of_lookup_2 _ _ _ Hn) as Hin.
      destruct (tier_run_tier _ _ _ _ _ H1 _ Hin) as [_ ->].
      by eapply tier_run_scripts_started.
    + apply lookup_app_Some in He as [He|[Hlen' He]].
      * apply list_elem_of_lookup_2 in He, Hn.
        pose proof (tier_run_tier _ _ _ _ _ H1 _ He) as Ht.
        destruct (loadDependencies_run_from _ _ _ _ _ H2 _ Hn) as (t & Hle & _ & <-).
        intros [f' [->| ->]]; simpl in Ht; lia.
      * eapply IH; [done| |done]. lia.
  - pose proof (list_elem_of_lookup_2 _ _ _ Hn) as Hin.
    destruct (tier_run_tier _ _ _ _ _ H1 _ Hin) as [_ ->].
    by eapply tier_run_scripts_started.
Qed.

(** C7: [loadDependencies] runs the tiers strictly in order: when a file of
    tier [j] is injected, every file of every earlier tier of the chain has
    completed; within a tier of scripts all files are injected before any
    of them completes, that is they load concurrently; and in [initH5P]
    every file of every style tier has completed before the first script
    is injected.  A run that completes exists for every plan. *)
Theorem loading_is_ordered (this : H5PRunner) :
  (∀ css plan tr o, loadDependencies_run css 0 plan tr o →
     ∀ n j f url, tr !! n = Some (Inject css j f url) →
       (∀ i d file, i < j → plan !! i = Some d →
          file < length (Object_values (fileMap d)) → Loaded css i file ∈ take n tr) ∧
       (css = false → ∀ m e, m < n → tr !! m = Some e → ¬ script_settled j e)) ∧
  (∀ tr o, initH5P_run this tr o →
     ∀ n j f url, tr !! n = Some (Inject false j f url) →
       ∀ i d file, cssPlan this !! i = Some d →
         file < length (Object_values (fileMap d)) → Loaded true i file ∈ take n tr) ∧
  (∃ tr, initH5P_run this tr Completed).
Proof.
  split_and!.
  - intros css plan tr o Hrun n j f url Hn. split.
    + intros i d file Hj Hd Hf.
      eapply loadDependencies_run_ordered; [done..|lia|done| |done].
      by rewrite Nat.sub_0_r.
    + intros -> m e Hm He. by eapply loadDependencies_run_concurrent.
  - assert (Hcss : ∀ trc o n j f url, loadDependencies_run true 0 (cssPlan this) trc o →
                     trc !! n = Some (Inject false j f url) → False).
    { intros trc o n j f url Hc Hn. apply list_elem_of_lookup_2 in Hn.
      by destruct (loadDependencies_run_from _ _ _ _ _ Hc _ Hn) as (t & _ & ? & _). }
    assert (Hall : ∀ trc rest n j f url, loadDependencies_run true 0 (cssPlan this) trc Completed →
                     (trc ++ rest) !! n = Some (Inject false j f url) →
                     ∀ i d file, cssPlan this !! i = Some d →
                       file < length (Object_values (fileMap d)) →
                       Loaded true i file ∈ take n (trc ++ rest)).
    { intros trc rest n j f url Hc Hn i d file Hd Hf.
      apply lookup_app_Some in Hn as [Hn|[Hlen _]]; [by destruct (Hcss _ _ _ _ _ _ Hc Hn)|].
      rewrite take_app_ge by done. apply elem_of_app. left.
      by apply (loadDependencies_run_completed _ _ _ _ Hc i d file). }
    intros tr o [trc o' Hc Hne|trc trj o' Hc Hj Hne|trc trj Hc Hj] n j f url Hn.
    + by destruct (Hcss _ _ _ _ _ _ Hc Hn).
    + by eapply Hall.
    + by eapply Hall.
  - destruct (loadDependencies_run_exists true 0 (cssPlan this)) as [trc Hc].
    destruct (loadDependencies_run_exists false 0 (jsPlan this)) as [trj Hj].
    exists (trc ++ trj ++ [H5P_init]). by constructor.
Qed.

(** ** The debounced xAPI verbs *)

Section debounced_verbs.

Local Open Scope Z_scope.

Variable XAPIVerbMap : string → option string.

Local Abbreviation W := (XAPI.debounceDelay * 1000).
Local Abbreviation M := (XAPI.maxDelay * 1000).

Lemma debouncedHandlers_lookup (name : string) :
  name ∈ XAPI.debounceVerbs →
  XAPI.debouncedHandlers XAPIVerbMap !! XAPI.verb_key XAPIVerbMap name
    = Some XAPI.debounce_new.
Proof.
  unfold XAPI.debounceVerbs, XAPI.debouncedHandlers. simpl.
  intros [->|[->|?%elem_of_nil]%elem_of_cons]%elem_of_cons; [|by rewrite lookup_insert_eq|done].
  rewrite lookup_insert. case_decide; [done|]. by rewrite lookup_insert_eq.
Qed.




Section window.

Variables (key : string) (t1 : Z).
Hypothesis Hlog : XAPI.denied XAPIVerbMap key = false.



End window.



End debounced_verbs.



Lemma setUserData_serialization_failure_witness :
  let s := {| UserData.data := []; UserData.calls := [] |} in
  let s' := UserData.setUserData example_stringify example_set "1234567890" "state" None
              {| UserData.subContentId := "0"; UserData.errorCallback := Some "onError" |} s in
  UserData.data s' = [] ∧
  UserData.calls s' = [UserData.ErrorCallback "onError" "TypeError: cyclic object value"].
Proof.
  intros s s'.
  destruct (setUserData_serialization_failure example_stringify example_set
              "1234567890" "state" None
              {| UserData.subContentId := "0"; UserData.errorCallback := Some "onError" |} s)
    as (Hfail & _ & _).
  destruct (Hfail "TypeError: cyclic object value" eq_refl) as (Hdata & Hcalls & _).
  split; [exact Hdata|exact Hcalls].
Defined.

(** The example load is a run of [initH5P]; in it the stylesheet and both
    scripts of the first tier have completed when the script of the second
    tier is injected. *)
Lemma loading_is_ordered_witness :
  initH5P_run example_plans example_trace Completed ∧
  Loaded true 0 0 ∈ take 6 example_trace ∧
  Loaded false 0 0 ∈ take 4 (take 6 (drop 2 example_trace)) ∧
  Loaded false 0 1 ∈ take 4 (take 6 (drop 2 example_trace)).
Proof.
  assert (Hcss : loadDependencies_run true 0 (cssPlan example_plans)
                   (take 2 example_trace) Completed).
  { apply (loadDependencies_next true 0 _ [] (take 2 example_trace) [] Completed).
    - apply tier_styles.
    - constructor. }
  assert (Hjs : loadDependencies_run false 0 (jsPlan example_plans)
                  (take 6 (drop 2 example_trace)) Completed).
  { apply (loadDependencies_next false 0 _ _ (take 4 (drop 2 example_trace))
             (take 2 (drop 6 example_trace)) Completed).
    - apply (tier_scripts 0 [Str "blob:1"; Str "blob:2"]
               [Loaded false 0 1; Loaded false 0 0]).
      apply script_events_load; [simpl; lia|by intros ?%elem_of_nil|].
      apply script_events_load; [simpl; lia| |].
      + intros [?|?%elem_of_nil]%elem_of_cons; done.
      + apply script_events_all. intros file Hfile. simpl in Hfile.
        destruct file as [|[|file]]; [by left|right; by left|lia].
    - apply (loadDependencies_next false 1 _ [] (take 2 (drop 6 example_trace)) [] Completed).
      + apply (tier_scripts 1 [Str "blob:3"] [Loaded false 1 0]).
        apply script_events_load; [simpl; lia|by intros ?%elem_of_nil|].
        apply script_events_all. intros file Hfile. simpl in Hfile.
        destruct file as [|file]; [by left|lia].
      + constructor. }
  assert (Hrun : initH5P_run example_plans example_trace Completed).
  { apply (initH5P_started example_plans _ _ Hcss Hjs). }
  destruct (loading_is_ordered example_plans) as (Hchain & Hinit & _).
  split_and!.
  - exact Hrun.
  - apply (Hinit example_trace Completed Hrun 6 1 0 (Str "blob:3") eq_refl 0
             {| dependency := "A-1.0/"; fileMap := [("a.css", Str "blob:0")] |} 0 eq_refl).
    simpl. lia.
  - apply (proj1 (Hchain false (jsPlan example_plans) _ Completed Hjs 4 1 0
                    (Str "blob:3") eq_refl) 0
             {| dependency := "B-1.0/";
                fileMap := [("b1.js", Str "blob:1"); ("b2.js", Str "blob:2")] |} 0).
    + lia.
    + reflexivity.
    + simpl. lia.
  - apply (proj1 (Hchain false (jsPlan example_plans) _ Completed Hjs 4 1 0
                    (Str "blob:3") eq_refl) 0
             {| dependency := "B-1.0/";
                fileMap := [("b1.js", Str "blob:1"); ("b2.js", Str "blob:2")] |} 1).
    + lia.
    + reflexivity.
    + simpl. lia.
Defined.

(** The order of [setDependencies] on the records of the diamond pushed in
    another order, both records of D first. *)
Lemma diamond_recorded_twice_sorted_once_witness :
  ∃ this',
    setDependencies
      (set_dependencies
         [record "D-1.0/" [] "d.js"; record "D-1.0/" [] "d.js";
          record "B-1.0/" ["D-1.0/"] "b.js"; record "C-1.0/" ["D-1.0/"] "c.js";
          record "A-1.0/" ["B-1.0/"; "C-1.0/"] "a.js"] new_runner) = Resolved this' ∧
    length (filter (λ p, p = "D-1.0/") (sortedDependencies this')) = 1 ∧
    precedes (sortedDependencies this') "D-1.0/" "B-1.0/" ∧
    precedes (sortedDependencies this') "D-1.0/" "C-1.0/".
Proof.
  destruct (diamond_recorded_twice_sorted_once 0) as (this & _ & _ & _ & Hall).
  apply Hall. simpl. unfold diamond_records.
  apply perm_skip. apply perm_swap.
Defined.

(** ** The walk: fuel, records and the root descriptor *)

Lemma each_ext {A S : Type} (f g : A → S → result S) (items : list A) (st : S) :
  (∀ x st, x ∈ items → f x st ≠ OutOfFuel → g x st = f x st) →
  each f items st ≠ OutOfFuel → each g items st = each f items st.
Proof.
  revert st. induction items as [|x items IH]; intros st Hfg Hne; [done|].
  rewrite !each_cons in *.
  assert (Hx : f x st ≠ OutOfFuel).
  { intros E. by rewrite E in Hne. }
  rewrite (Hfg x st); [|by left|done].
  destruct (f x st) as [st1| |]; [|done..].
  rewrite !bind_Resolved in *. apply IH; [|done].
  intros y st' Hy. apply Hfg. by right.
Qed.

(** More fuel does not change a result that was reached. *)
Lemma recurseDependencies_then_fuel (zip : archive) (fuel : nat) :
  ∀ content root V pp this k,
    recurseDependencies_then fuel zip content root V pp this ≠ OutOfFuel →
    recurseDependencies_then (fuel + k) zip content root V pp this
    = recurseDependencies_then fuel zip content root V pp this.
Proof.
  induction fuel as [|fuel IH]; intros content root V pp this k Hne; [done|].
  simpl in *. destruct (parsed content) as [json|]; [|done].
  destruct (startDependencies zip root (Json.mainLibrary json)
              (Json.preloadedDependencies json) V
              (library (if root then set_rootConfig (Some json) this else this)))
    as [[[V' lib] ps]| |]; [|done..].
  rewrite !bind_Resolved in *.
  set (f := await (λ content packagePath,
               recurseDependencies_then fuel zip content false V' packagePath)) in *.
  set (g := await (λ content packagePath,
               recurseDependencies_then (fuel + k) zip content false V' packagePath)).
  set (st := set_library lib _) in *.
  assert (Hf : each f ps st ≠ OutOfFuel).
  { intros E. by rewrite E in Hne. }
  rewrite (each_ext f g); [done| |done].
  intros [p|p c] st' _ Hp; [done|]. simpl in *. by apply IH.
Qed.

(** The library that the synchronous pass leaves: for the root, the first
    dependency that names the main library, unless a library is set. *)
Lemma startDependencies_library (zip : archive) (root : bool) (ml : option string)
    (deps : list Json.dependency) :
  ∀ V lib V' lib' ps,
    startDependencies zip root ml deps V lib = Resolved (V', lib', ps) →
    lib' = if root then
             match lib with
             | Some l => Some l
             | None => libraryOf <$> head (filter (λ dep, Some (Json.machineName dep) = ml) deps)
             end
           else lib.
Proof.
  induction deps as [|dep deps IH]; intros V lib V' lib' ps; simpl.
  - intros [= <- <- <-]. by destruct root, lib.
  - set (lib1 := if root && bool_decide (lib = None)
                       && bool_decide (Some (Json.machineName dep) = ml)
                  then Some (libraryOf dep) else lib).
    assert (Hlib1 : (if root then
                       match lib1 with
                       | Some l => Some l
                       | None => libraryOf <$> head (filter (λ dep, Some (Json.machineName dep) = ml) deps)
                       end
                     else lib1)
                    = if root then
                        match lib with
                        | Some l => Some l
                        | None => libraryOf <$> head (filter (λ dep, Some (Json.machineName dep) = ml) (dep :: deps))
                        end
                      else lib).
    { subst lib1. destruct root; simpl; [|done].
      rewrite filter_cons. destruct lib as [l|]; simpl; [done|].
      case_bool_decide; simpl.
      - by rewrite decide_True.
      - by rewrite decide_False. }
    rewrite <- Hlib1. clear Hlib1.
    destruct (decide (packagePathOf dep ∈ V)).
    + destruct (startDependencies zip root ml deps V lib1) as [[[V1 l1] ps1]| |] eqn:E;
        [|done..].
      rewrite bind_Resolved. intros [= <- <- <-]. by eapply IH.
    + destruct (zip_file zip _); [|done].
      destruct (startDependencies zip root ml deps _ lib1) as [[[V1 l1] ps1]| |] eqn:E;
        [|done..].
      rewrite bind_Resolved. intros [= <- <- <-]. by eapply IH.
Qed.

Lemma walk_frame_refl (this : H5PRunner) : walk_frame this this.
Proof. by unfold walk_frame. Qed.

Lemma walk_frame_trans (this1 this2 this3 : H5PRunner) :
  walk_frame this1 this2 → walk_frame this2 this3 → walk_frame this1 this3.
Proof. unfold walk_frame. intros H1 H2. destruct_and!. split_and!; congruence. Qed.

(** What a resolved call of the walk has done to [this]: it has pushed
    records of reachable descriptors, and assigned the root configuration
    and the library if it is the call of the root. *)
Lemma recurseDependencies_then_records (zip : archive) (fuel : nat) :
  ∀ content jsonFile root V pp this this',
    recurseDependencies_then fuel zip content root V pp this = Resolved this' →
    zip_file zip jsonFile = Some content → reachable zip jsonFile →
    (pp ≠ EmptyString → jsonFile = pp +:+ "library.json") →
    ∃ new json,
      parsed content = Some json ∧
      dependencies this' = dependencies this ++ new ∧
      Forall (record_of_descriptor zip) new ∧
      rootConfig this' = (if root then Some json else rootConfig this) ∧
      library this' = (if root then
                         match library this with
                         | Some l => Some l
                         | None => main_library json
                         end
                       else library this) ∧
      walk_frame this this'.
Proof.
  induction fuel as [|fuel IH]; intros content jsonFile root V pp this this' E Hfile Hreach Hpp;
    [done|].
  simpl in E. destruct (parsed content) as [json|] eqn:Hjson; [|done].
  set (this0 := if root then set_rootConfig (Some json) this else this) in E.
  pose proof (startDependencies_spec zip root (Json.mainLibrary json)
                (Json.preloadedDependencies json) V (library this0)) as Hstart.
  pose proof (startDependencies_library zip root (Json.mainLibrary json)
                (Json.preloadedDependencies json) V (library this0)) as Hlib.
  destruct (startDependencies zip root (Json.mainLibrary json)
              (Json.preloadedDependencies json) V (library this0))
    as [[[V' lib] ps]| |]; [|done..].
  rewrite bind_Resolved in E. specialize (Hlib _ _ _ eq_refl).
  destruct Hstart as (_ & _ & _ & Hpaths & Hreading & _).
  set (this1 := set_library lib this0) in E.
  assert (G : ∀ ps' st st',
    (∀ p c, Reading p c ∈ ps' → Reading p c ∈ ps) →
    each (await (λ content packagePath,
                   recurseDependencies_then fuel zip content false V' packagePath)) ps' st
      = Resolved st' →
    ∃ new, dependencies st' = dependencies st ++ new ∧
           Forall (record_of_descriptor zip) new ∧
           rootConfig st' = rootConfig st ∧ library st' = library st ∧
           walk_frame st st').
  { induction ps' as [|p ps' IHps]; intros st st' Hsub Ee.
    - injection Ee as <-. exists []. rewrite app_nil_r.
      split_and!; [done|constructor|done|done|apply walk_frame_refl].
    - rewrite each_cons in Ee.
      destruct (await _ p st) as [st1| |] eqn:E1; [|done..].
      rewrite bind_Resolved in Ee.
      destruct (IHps st1 st') as (new2 & Hd2 & Hr2 & Hc2 & Hl2 & Hf2); [|done|].
      { intros q c ?. apply Hsub. by right. }
      destruct p as [p|p c]; simpl in E1.
      + injection E1 as <-. by exists new2.
      + destruct (Hreading p c) as (_ & Hc & dep & Hdep & ->).
        { apply Hsub. by left. }
        destruct (IH c (packagePathOf dep +:+ "library.json") false V'
                    (packagePathOf dep) st st1 E1 Hc)
          as (new1 & j1 & _ & Hd1 & Hr1 & Hc1 & Hl1 & Hf1); [|done|].
        { by eapply reachable_dep. }
        exists (new1 ++ new2). split_and!.
        * by rewrite Hd2, Hd1, <- (assoc_L (++)).
        * by apply Forall_app.
        * congruence.
        * congruence.
        * by eapply walk_frame_trans. }
  destruct (each _ ps this1) as [this2| |] eqn:E2; [|done..].
  rewrite bind_Resolved in E.
  destruct (G ps this1 this2) as (new & Hd & Hr & Hc & Hl & Hf); [done|done|].
  assert (Hroot : rootConfig this2 = if root then Some json else rootConfig this).
  { rewrite Hc. subst this1 this0. by destruct root. }
  assert (Hlibrary : library this2 = if root then
                         match library this with
                         | Some l => Some l
                         | None => main_library json
                         end
                       else library this).
  { rewrite Hl. subst this1. simpl. rewrite Hlib. subst this0. by destruct root. }
  assert (Hd' : dependencies this2 = dependencies this ++ new).
  { rewrite Hd. subst this1 this0. by destruct root. }
  assert (Hframe : walk_frame this this2).
  { eapply walk_frame_trans; [|done]. subst this1 this0. by destruct root. }
  destruct (decide (pp = EmptyString)) as [->|Hne].
  - injection E as <-.
    exists new, json. by split_and!.
  - injection E as <-. simpl.
    eexists (new ++ [_]), json. split_and!; [done| |  |done|done|done].
    + by rewrite Hd', <- (assoc_L (++)).
    + apply Forall_app. split; [done|]. constructor; [|constructor].
      split; simpl.
      * by rewrite <- (Hpp Hne).
      * exists content, json. rewrite <- (Hpp Hne). by rewrite Hpaths.
Qed.

(** A resolved walk from [h5p.json] has read and parsed the root
    descriptor, and its records are closed under the declared
    dependencies. *)
Lemma recurseDependencies_root_closed (zip : archive) (this : H5PRunner) :
  recurseDependencies (S (length zip)) zip "h5p.json" true ∅ EmptyString new_runner
    = Resolved this →
  ∃ content json,
    zip_file zip "h5p.json" = Some content ∧ parsed content = Some json ∧
    records_closed zip ∅ (dependencies this) ∧
    ∀ dep, dep ∈ Json.preloadedDependencies json →
           recorded (dependencies this) (packagePathOf dep).
Proof.
  unfold recurseDependencies.
  destruct (zip_file zip "h5p.json") as [content|] eqn:Hfile; [|done].
  intros E.
  destruct (recurseDependencies_then_spec zip (S (length zip)) content "h5p.json" true ∅
              EmptyString new_runner)
    as [(e & E' & _)|(this' & new & json & E' & Hjson & Hd & Hc & Hdeps & _)];
    [|done|apply reachable_root|done|congruence|].
  { unfold unvisited. eapply Nat.le_lt_trans; [apply subseteq_size|].
    - apply subseteq_difference_l. reflexivity.
    - eapply Nat.le_lt_trans; [apply size_list_to_set_le|].
      unfold obj_keys. rewrite length_fmap. lia. }
  rewrite E in E'. injection E' as <-. simpl in Hd. subst new.
  exists content, json. split_and!; [done..|].
  intros dep Hdep. by destruct (Hdeps dep Hdep) as [?%not_elem_of_empty|?].
Qed.

(** X1: the walk over the dependencies terminates on every archive,
    whatever cycles its descriptors declare.  With the fuel that [init]
    gives it, one more than the number of entries of the archive, the
    recursion from [h5p.json] resolves or rejects; it does not run out of
    fuel, and any larger fuel gives the same result. *)
Theorem recurseDependencies_terminates (zip : archive) (k : nat) :
  recurseDependencies (S (length zip)) zip "h5p.json" true ∅ EmptyString new_runner
    ≠ OutOfFuel ∧
  recurseDependencies (S (length zip) + k) zip "h5p.json" true ∅ EmptyString new_runner
  = recurseDependencies (S (length zip)) zip "h5p.json" true ∅ EmptyString new_runner.
Proof.
  assert (Hne : recurseDependencies (S (length zip)) zip "h5p.json" true ∅ EmptyString
                  new_runner ≠ OutOfFuel).
  { destruct (recurseDependencies_root_spec zip) as [(e & E & _)|(this & E & _)];
      rewrite E; discriminate. }
  split; [exact Hne|].
  unfold recurseDependencies in *.
  destruct (zip_file zip "h5p.json") as [content|]; [|done].
  by apply recurseDependencies_then_fuel.
Qed.

(** X2: when the walk from [h5p.json] resolves, the records it has pushed
    are exactly the packages the declared dependencies lead to.  Every
    record summarizes the [library.json] of a reachable package (its
    dependency paths, scripts and styles are those of the descriptor), and
    every reachable descriptor other than [h5p.json] has a record. *)
Theorem walk_records_the_reachable_packages (zip : archive) (this : H5PRunner) :
  recurseDependencies (S (length zip)) zip "h5p.json" true ∅ EmptyString new_runner
    = Resolved this →
  Forall (record_of_descriptor zip) (dependencies this) ∧
  ∀ jsonFile, reachable zip jsonFile →
    jsonFile = "h5p.json" ∨
    ∃ d, d ∈ dependencies this ∧ jsonFile = Package.packagePath d +:+ "library.json".
Proof.
  intros E. split.
  - unfold recurseDependencies in E.
    destruct (zip_file zip "h5p.json") as [content|] eqn:Hfile; [|done].
    destruct (recurseDependencies_then_records zip _ _ "h5p.json" _ _ _ _ _ E Hfile)
      as (new & json & _ & Hd & Hrec & _); [apply reachable_root|done|].
    simpl in Hd. by subst new.
  - destruct (recurseDependencies_root_closed zip this E)
      as (content & json & Hfile & Hjson & Hclosed & Hroot).
    intros f Hr. induction Hr as [|f c j dep Hr IHr Hf Hj Hdep]; [by left|]. right.
    assert (Hq : recorded (dependencies this) (packagePathOf dep)).
    { destruct IHr as [->|(d & Hd & ->)].
      - rewrite Hfile in Hf. injection Hf as <-. rewrite Hjson in Hj. injection Hj as <-.
        by apply Hroot.
      - destruct (Hclosed d Hd) as (c' & j' & Hf' & Hj' & Hdd & Hq).
        rewrite Hf' in Hf. injection Hf as <-. rewrite Hj' in Hj. injection Hj as <-.
        destruct (Hq (packagePathOf dep)) as [?%not_elem_of_empty|?]; [|done..].
        rewrite Hdd. by apply list_elem_of_fmap_2. }
    destruct Hq as (d & Hd & <-). eauto.
Qed.

(** X3: a resolved walk from [h5p.json] stores the parsed root descriptor
    as [rootConfig], and as [library] the name and version of the first
    dependency of the root whose machine name is its [mainLibrary];
    [library] stays [null] when no dependency of the root has that name.
    The descriptors of the packages do not take part in either. *)
Theorem walk_sets_root_configuration (zip : archive) (fuel : nat) (this : H5PRunner) :
  recurseDependencies fuel zip "h5p.json" true ∅ EmptyString new_runner = Resolved this →
  ∃ content json,
    zip_file zip "h5p.json" = Some content ∧ parsed content = Some json ∧
    rootConfig this = Some json ∧
    library this = main_library json ∧
    ((∀ dep, dep ∈ Json.preloadedDependencies json →
             Some (Json.machineName dep) ≠ Json.mainLibrary json) →
     library this = None).
Proof.
  unfold recurseDependencies.
  destruct (zip_file zip "h5p.json") as [content|] eqn:Hfile; [|done].
  intros E.
  destruct (recurseDependencies_then_records zip _ _ "h5p.json" _ _ _ _ _ E Hfile)
    as (new & json & Hjson & _ & _ & Hroot & Hlib & _); [apply reachable_root|done|].
  simpl in Hlib. exists content, json. split_and!; [done..|].
  intros Hnone. rewrite Hlib. unfold main_library.
  replace (filter _ _) with (@nil Json.dependency); [done|].
  symmetry. induction (Json.preloadedDependencies json) as [|dep deps IH]; [done|].
  rewrite filter_cons, decide_False.
  - apply IH. intros d ?. apply Hnone. by right.
  - apply Hnone. by left.
Qed.

Lemma walk_records_the_reachable_packages_witness :
  ∃ this,
    recurseDependencies 6 diamond_archive "h5p.json" true ∅ EmptyString new_runner
      = Resolved this ∧
    Forall (record_of_descriptor diamond_archive) (dependencies this) ∧
    length (dependencies this) = 5.
Proof.
  eexists.
  eassert (E : recurseDependencies 6 diamond_archive "h5p.json" true ∅ EmptyString
                 new_runner = Resolved _) by (vm_compute; reflexivity).
  split_and!; [exact E| |reflexivity].
  exact (proj1 (walk_records_the_reachable_packages diamond_archive _ E)).
Defined.

Lemma walk_sets_root_configuration_witness :
  ∃ this,
    recurseDependencies 6 diamond_archive "h5p.json" true ∅ EmptyString new_runner
      = Resolved this ∧
    library this = Some "A 1.0".
Proof.
  eexists.
  eassert (E : recurseDependencies 6 diamond_archive "h5p.json" true ∅ EmptyString
                 new_runner = Resolved _) by (vm_compute; reflexivity).
  split; [exact E|].
  destruct (walk_sets_root_configuration diamond_archive 6 _ E)
    as (content & json & Hfile & Hjson & _ & Hlib & _).
  injection Hfile as <-. injection Hjson as <-. rewrite Hlib. reflexivity.
Defined.

(** ** Ordered objects *)

Lemma obj_get_set_ne {V : Type} (o : obj V) (k k' : string) (v : V) :
  k ≠ k' → obj_get (obj_set o k v) k' = obj_get o k'.
Proof.
  intros Hne. induction o as [|[k0 v0] o IH]; simpl.
  - by rewrite decide_False.
  - destruct (decide (k0 = k)) as [->|Hk]; simpl.
    + by rewrite !decide_False.
    + destruct (decide (k0 = k')); [done|apply IH].
Qed.

Lemma obj_get_None_keys {V : Type} (o : obj V) (k : string) :
  obj_get o k = None ↔ k ∉ obj_keys o.
Proof.
  induction o as [|[k' v'] o IH]; simpl.
  - split; [intros _ ?%elem_of_nil; done|done].
  - destruct (decide (k' = k)) as [->|Hne].
    + split; [done|]. intros H. destruct H. by left.
    + rewrite IH, not_elem_of_cons. split; [by split|by intros [_ ?]].
Qed.

Lemma obj_get_is_Some_keys {V : Type} (o : obj V) (k : string) :
  is_Some (obj_get o k) ↔ k ∈ obj_keys o.
Proof.
  split.
  - intros [v Hv]. by eapply obj_get_Some_keys.
  - intros Hk. destruct (obj_get o k) eqn:E; [by eexists|].
    by apply obj_get_None_keys in E.
Qed.

(** An assignment to a key of the object keeps the keys and their order;
    an assignment to a new key puts it last. *)
Lemma obj_keys_set {V : Type} (o : obj V) (k : string) (v : V) :
  obj_keys (obj_set o k v) =
  if decide (k ∈ obj_keys o) then obj_keys o else obj_keys o ++ [k].
Proof.
  induction o as [|[k' v'] o IH].
  - destruct (decide (k ∈ obj_keys [])) as [?%elem_of_nil|]; done.
  - cbn [obj_set]. destruct (decide (k' = k)) as [->|Hne].
    + destruct (decide (k ∈ obj_keys ((k, v') :: o))) as [|Hout]; [done|].
      destruct Hout. by left.
    + change (obj_keys ((k', v') :: obj_set o k v)) with (k' :: obj_keys (obj_set o k v)).
      rewrite IH. change (obj_keys ((k', v') :: o)) with (k' :: obj_keys o).
      destruct (decide (k ∈ obj_keys o)) as [Hin|Hout].
      * destruct (decide (k ∈ k' :: obj_keys o)) as [|Hout]; [done|].
        destruct Hout. by right.
      * destruct (decide (k ∈ k' :: obj_keys o)) as [[?|?]%elem_of_cons|]; [by subst|done..].
Qed.

Lemma obj_keys_set_elem_of {V : Type} (o : obj V) (k : string) (v : V) :
  k ∈ obj_keys o → obj_keys (obj_set o k v) = obj_keys o.
Proof. intros H. by rewrite obj_keys_set, decide_True. Qed.

Lemma obj_keys_set_NoDup {V : Type} (o : obj V) (k : string) (v : V) :
  NoDup (obj_keys o) → NoDup (obj_keys (obj_set o k v)).
Proof.
  intros Hnd. rewrite obj_keys_set. case_decide; [done|].
  apply NoDup_app. split_and!; [done| |apply NoDup_singleton].
  intros x Hx ?%list_elem_of_singleton. by subst.
Qed.

(** *** The enumeration of a plain object *)

Lemma insert_index_Permutation {V : Type} (i : N) (e : string * V)
    (l : list (N * (string * V))) :
  insert_index i e l ≡ₚ (i, e) :: l.
Proof.
  induction l as [|[j e'] l IH]; simpl; [done|].
  destruct (i <? j)%N; [done|]. rewrite IH. apply perm_swap.
Qed.

Lemma index_entries_Permutation {V : Type} (o : obj V) :
  (index_entries o).*2 ≡ₚ filter (λ e, array_index e.1 ≠ None) (o : list (string * V)).
Proof.
  induction o as [|e o IH]; [done|]. cbn [index_entries]. rewrite filter_cons.
  destruct (array_index e.1) as [i|] eqn:Hi.
  - rewrite decide_True by done. rewrite insert_index_Permutation.
    rewrite !fmap_cons. cbn [snd]. by rewrite IH.
  - rewrite decide_False by (by intros []). done.
Qed.

(** [Object.entries] lists every own property once. *)
Lemma Object_entries_Permutation {V : Type} (o : obj V) : Object_entries o ≡ₚ o.
Proof.
  unfold Object_entries. rewrite index_entries_Permutation.
  induction o as [|e o IH]; [done|]. rewrite !filter_cons.
  destruct (decide (array_index e.1 = None)) as [Hn|Hn].
  - rewrite decide_False by (by intros []). rewrite <- Permutation_middle. by rewrite IH.
  - rewrite decide_True by done. simpl. by rewrite IH.
Qed.

Lemma Object_keys_Permutation {V : Type} (o : obj V) : Object_keys o ≡ₚ obj_keys o.
Proof. unfold Object_keys, obj_keys. by rewrite Object_entries_Permutation. Qed.

Lemma Object_values_Permutation {V : Type} (o : obj V) : Object_values o ≡ₚ obj_values o.
Proof. unfold Object_values, obj_values. by rewrite Object_entries_Permutation. Qed.

Lemma index_entries_no_index {V : Type} (o : obj V) :
  (∀ k, k ∈ obj_keys o → array_index k = None) → index_entries o = [].
Proof.
  induction o as [|e o IH]; intros Hno; [done|]. simpl.
  rewrite (Hno e.1) by by left. apply IH. intros k Hk. apply Hno. by right.
Qed.

(** Without array indices among the keys the enumeration is in the order
    of creation. *)
Lemma Object_entries_no_index {V : Type} (o : obj V) :
  (∀ k, k ∈ obj_keys o → array_index k = None) → Object_entries o = o.
Proof.
  intros Hno. unfold Object_entries. rewrite index_entries_no_index by done. simpl.
  induction o as [|e o IH]; [done|]. rewrite filter_cons.
  rewrite decide_True by (apply Hno; by left). f_equal. apply IH.
  intros k Hk. apply Hno. by right.
Qed.

Lemma insert_index_fmap {V W : Type} (g : V → W) (i : N) (k : string) (v : V)
    (l : list (N * (string * V))) :
  insert_index i (k, g v) ((λ x, (x.1, (x.2.1, g x.2.2))) <$> l)
  = (λ x, (x.1, (x.2.1, g x.2.2))) <$> insert_index i (k, v) l.
Proof.
  induction l as [|[j [k' v']] l IH]; [done|].
  rewrite fmap_cons. cbn [insert_index fst snd].
  destruct (i <? j)%N; [done|]. rewrite fmap_cons. cbn [fst snd]. by rewrite IH.
Qed.

Lemma index_entries_fmap {V W : Type} (g : V → W) (o : obj V) :
  index_entries ((λ e, (e.1, g e.2)) <$> o)
  = (λ x, (x.1, (x.2.1, g x.2.2))) <$> index_entries o.
Proof.
  induction o as [|[k v] o IH]; [done|]. rewrite fmap_cons.
  cbn [index_entries fst snd]. rewrite IH.
  destruct (array_index k) as [i|]; [|done]. apply (insert_index_fmap g i k v).
Qed.

Lemma Object_entries_fmap {V W : Type} (g : V → W) (o : obj V) :
  Object_entries ((λ e, (e.1, g e.2)) <$> o) = (λ e, (e.1, g e.2)) <$> Object_entries o.
Proof.
  unfold Object_entries. rewrite index_entries_fmap, fmap_app. f_equal.
  - rewrite <- !list_fmap_compose. apply list_fmap_ext. by intros i [j [k v]] _.
  - induction o as [|[k v] o IH]; [done|]. rewrite fmap_cons, !filter_cons. cbn [fst snd].
    destruct (decide (array_index k = None)); [|done]. by rewrite fmap_cons, IH.
Qed.

(** The order of the enumeration depends on the keys alone. *)
Lemma Object_keys_key_order {V : Type} (o : obj V) :
  Object_keys o = key_order (obj_keys o).
Proof.
  unfold key_order, Object_keys, obj_keys.
  rewrite <- list_fmap_compose.
  rewrite (list_fmap_ext _ (λ e : string * V, (e.1, (λ _, ()) e.2)) o) by done.
  rewrite (Object_entries_fmap (λ _, ())), <- list_fmap_compose. apply list_fmap_ext.
  by intros i [k v] _.
Qed.

Lemma key_order_no_index (ks : list string) :
  (∀ k, k ∈ ks → array_index k = None) → key_order ks = ks.
Proof.
  intros Hno. unfold key_order, Object_keys. rewrite Object_entries_no_index.
  - rewrite <- list_fmap_compose. apply list_fmap_id.
  - intros k. unfold obj_keys. rewrite <- list_fmap_compose. rewrite list_fmap_id. apply Hno.
Qed.

Lemma obj_get_elem_of {V : Type} (o : obj V) (k : string) (v : V) :
  NoDup (obj_keys o) → (k, v) ∈ o ↔ obj_get o k = Some v.
Proof.
  induction o as [|[k' v'] o IH]; intros Hnd; simpl.
  - split; [by intros ?%elem_of_nil|done].
  - apply NoDup_cons in Hnd as [Hk' Hnd]. destruct (decide (k' = k)) as [->|Hne].
    + split.
      * intros [[= ->]|Hin]%elem_of_cons; [done|]. destruct Hk'.
        apply list_elem_of_fmap. by exists (k, v).
      * intros [= ->]. by left.
    + rewrite <- (IH Hnd). split.
      * intros [[= -> ->]|Hin]%elem_of_cons; done.
      * intros Hin. by right.
Qed.

(** [Object.values] lists the values of the keys in the order of
    [Object.keys]. *)
Lemma Object_values_lookup {V : Type} (o : obj V) :
  NoDup (obj_keys o) →
  Forall2 (λ k v, obj_get o k = Some v) (Object_keys o) (Object_values o).
Proof.
  intros Hnd. unfold Object_keys, Object_values.
  assert (Hall : Forall (λ e, obj_get o e.1 = Some e.2) (Object_entries o)).
  { apply Forall_forall. intros [k v] Hin. apply obj_get_elem_of; [done|].
    by rewrite <- (Object_entries_Permutation o). }
  induction Hall as [|e l He Hl IH]; [constructor|].
  rewrite !fmap_cons. by constructor.
Qed.

(** A file named by an array index is listed before the files created
    before it. *)
Lemma Object_keys_index_first :
  Object_keys (obj_assign (obj_assign [] "b.css" (Str "blob:0")) "1" (Str "blob:1"))
  = ["1"; "b.css"] ∧
  Object_values (obj_assign (obj_assign [] "b.css" (Str "blob:0")) "1" (Str "blob:1"))
  = [Str "blob:1"; Str "blob:0"].
Proof. split; reflexivity. Qed.

(** ** setDependencies: the registration of the packages *)

Lemma recorded_cons (d : Package.t) (deps : list Package.t) (p : string) :
  recorded (d :: deps) p ↔ Package.packagePath d = p ∨ recorded deps p.
Proof.
  unfold recorded. split.
  - intros (d' & [->|Hd]%elem_of_cons & Hp); [by left|right; eauto].
  - intros [Hp|(d' & Hd & Hp)].
    + exists d. split; [by left|done].
    + exists d'. split; [by right|done].
Qed.

Lemma recorded_elem_of (deps : list Package.t) (p : string) :
  recorded deps p ↔ p ∈ Package.packagePath <$> deps.
Proof.
  unfold recorded. rewrite list_elem_of_fmap. split.
  - intros (d & ? & ?). by exists d.
  - intros (d & ? & ?). by exists d.
Qed.

Lemma recorded_dec (deps : list Package.t) (p : string) :
  recorded deps p ∨ ¬ recorded deps p.
Proof.
  rewrite recorded_elem_of. destruct (decide (p ∈ Package.packagePath <$> deps)); auto.
Qed.

Lemma setDependencies_loop_spec (deps : list Package.t) :
  ∀ sorter this,
    let this' := (setDependencies_loop deps sorter this).2 in
    sort_frame this this' ∧
    sortedDependencies this' = sortedDependencies this ∧
    (NoDup (obj_keys (packageFiles this)) → NoDup (obj_keys (packageFiles this'))) ∧
    (∀ p, p ∈ obj_keys (packageFiles this') ↔
          p ∈ obj_keys (packageFiles this) ∨ recorded deps p) ∧
    (∀ p, ¬ recorded deps p →
          obj_get (packageFiles this') p = obj_get (packageFiles this) p ∧
          jsDependencies this' !! p = jsDependencies this !! p ∧
          cssDependencies this' !! p = cssDependencies this !! p) ∧
    (∀ p, recorded deps p →
          obj_get (packageFiles this') p = Some ∅ ∧
          ∃ d, d ∈ deps ∧ Package.packagePath d = p ∧
               jsDependencies this' !! p = Some (Package.preloadedJs d) ∧
               cssDependencies this' !! p = Some (Package.preloadedCss d)).
Proof.
  induction deps as [|d deps IH]; intros sorter this; simpl.
  - split_and!; try done.
    + intros p. split; [by left|]. by intros [?|(? & ?%elem_of_nil & _)].
    + by intros p (? & ?%elem_of_nil & _).
  - set (this1 := register_package _ _ _ this).
    destruct (IH (Toposort.add (Package.packagePath d) (Package.dependencies d) sorter) this1)
      as (Hframe & Hsorted & Hnd & Hkeys & Hother & Hrec).
    split_and!.
    + unfold sort_frame in *. by destruct_and!.
    + done.
    + intros H. apply Hnd. simpl. by apply obj_keys_set_NoDup.
    + intros p. rewrite Hkeys, recorded_cons. simpl. rewrite obj_keys_set.
      case_decide as Hin.
      * split; [tauto|]. intros [?|[<-|?]]; auto.
      * rewrite elem_of_app, list_elem_of_singleton. split.
        -- intros [[?|Hp]|?]; auto.
        -- intros [?|[<-|?]]; auto.
    + intros p Hp. rewrite recorded_cons in Hp.
      destruct (Hother p) as (H1 & H2 & H3); [tauto|].
      rewrite H1, H2, H3. simpl.
      assert (Package.packagePath d ≠ p) by tauto.
      by rewrite obj_get_set_ne, !lookup_insert_ne.
    + intros p Hp.
      destruct (recorded_dec deps p) as [Hin|Hout].
      * destruct (Hrec p Hin) as (H1 & d' & Hd' & H2). split; [done|].
        exists d'. split; [by right|done].
      * apply recorded_cons in Hp. destruct Hp as [Hp|?]; [|done].
        destruct (Hother p Hout) as (H1 & H2 & H3). rewrite H1, H2, H3. simpl.
        subst p. rewrite obj_get_set, !lookup_insert_eq. split; [done|].
        exists d. split; [by left|done].
Qed.

(** What [setDependencies] returns: the state after its loop, with the
    reversed order of the sorter. *)
Lemma setDependencies_inv (this this' : H5PRunner) :
  setDependencies this = Resolved this' →
  ∃ sorted,
    Toposort.sort (setDependencies_loop (dependencies this) Toposort.empty this).1
      = Resolved sorted ∧
    this' = set_sortedDependencies (reverse sorted)
              (setDependencies_loop (dependencies this) Toposort.empty this).2.
Proof.
  unfold setDependencies.
  destruct (setDependencies_loop (dependencies this) Toposort.empty this) as [sorter this1].
  simpl. destruct (Toposort.sort sorter) as [sorted| |]; [|done..].
  rewrite bind_Resolved. intros [= <-]. by exists sorted.
Qed.

(** X4: [setDependencies] gives every recorded package an empty resource
    map and its lists of declared scripts and styles.  The keys of
    [packageFiles] afterwards are the keys it had and the recorded package
    paths, each once, also when a package was recorded several times; the
    resource map of a recorded package is reset to the empty object
    whatever it held, and its script and style lists are those of one of
    its records. *)
Theorem setDependencies_registers (this this' : H5PRunner) :
  setDependencies this = Resolved this' →
  NoDup (obj_keys (packageFiles this)) →
  NoDup (obj_keys (packageFiles this')) ∧
  (∀ p, p ∈ obj_keys (packageFiles this') ↔
        p ∈ obj_keys (packageFiles this) ∨ recorded (dependencies this) p) ∧
  (∀ p, recorded (dependencies this) p →
        obj_get (packageFiles this') p = Some ∅ ∧
        ∃ d, d ∈ dependencies this ∧ Package.packagePath d = p ∧
             jsDependencies this' !! p = Some (Package.preloadedJs d) ∧
             cssDependencies this' !! p = Some (Package.preloadedCss d)).
Proof.
  intros (sorted & _ & ->)%setDependencies_inv Hnd.
  destruct (setDependencies_loop_spec (dependencies this) Toposort.empty this)
    as (_ & _ & Hnd' & Hkeys & _ & Hrec).
  split_and!.
  - by apply Hnd'.
  - exact Hkeys.
  - exact Hrec.
Qed.

Lemma setDependencies_registers_witness :
  obj_get (packageFiles diamond_sorted_state) "D-1.0/" = Some ∅.
Proof.
  assert (E : setDependencies (set_dependencies diamond_records new_runner)
              = Resolved diamond_sorted_state) by (vm_compute; reflexivity).
  destruct (setDependencies_registers _ _ E) as (_ & _ & Hrec); [constructor|].
  apply (Hrec "D-1.0/"). exists (record "D-1.0/" [] "d.js"). split; [by left|done].
Defined.

(** ** The file pass *)

(** A loop whose every step resolves and keeps an invariant resolves, and
    each of its items was handled at some point of the run. *)
Lemma each_resolves {A S : Type} (f : A → S → result S)
    (I : S → Prop) (R : S → S → Prop) (items : list A) :
  (∀ st, R st st) → (∀ st1 st2 st3, R st1 st2 → R st2 st3 → R st1 st3) →
  (∀ x st, x ∈ items → I st → ∃ st', f x st = Resolved st' ∧ I st' ∧ R st st') →
  ∀ st, I st →
    ∃ st', each f items st = Resolved st' ∧ I st' ∧ R st st' ∧
      ∀ x, x ∈ items →
        ∃ st1 st2, I st1 ∧ R st st1 ∧ f x st1 = Resolved st2 ∧ I st2 ∧ R st2 st'.
Proof.
  intros Hrefl Htrans. induction items as [|x items IH]; intros Hf st HI.
  - exists st. split_and!; [done..|]. by intros x ?%elem_of_nil.
  - destruct (Hf x st) as (st1 & E1 & HI1 & HR1); [by left|done|].
    destruct (IH (λ y st Hy, Hf y st (list_elem_of_further _ _ _ Hy)) st1 HI1)
      as (st' & E & HI' & HR' & Hall).
    exists st'. rewrite each_cons, E1, bind_Resolved. split_and!; [done..|eauto|].
    intros y [->|Hy]%elem_of_cons.
    + exists st, st1. by split_and!.
    + destruct (Hall y Hy) as (st2 & st3 & ? & ? & ? & ? & ?).
      exists st2, st3. split_and!; eauto.
Qed.

Lemma createObjectURL_eq (content : string) (this : H5PRunner) :
  createObjectURL content this
  = (blob_url (length (blobs this)), set_blobs (blobs this ++ [content]) this).
Proof. reflexivity. Qed.

Lemma blob_of_prefix (this this' : H5PRunner) (url content : string) :
  blobs this `prefix_of` blobs this' → blob_of this url content → blob_of this' url content.
Proof.
  intros Hp (n & -> & Hn). exists n. split; [done|]. by eapply prefix_lookup_Some.
Qed.

Lemma blob_of_new (this this' : H5PRunner) (content : string) :
  blobs this' = blobs this ++ [content] →
  blob_of this' (blob_url (length (blobs this))) content.
Proof.
  intros E. exists (length (blobs this)). split; [done|].
  rewrite E. by apply list_lookup_middle.
Qed.

Lemma files_frame_refl (this : H5PRunner) : files_frame this this.
Proof. by unfold files_frame. Qed.

Lemma files_frame_trans (this1 this2 this3 : H5PRunner) :
  files_frame this1 this2 → files_frame this2 this3 → files_frame this1 this3.
Proof. unfold files_frame. intros H1 H2. destruct_and!. split_and!; congruence. Qed.

Lemma store_step_refl (this : H5PRunner) : store_step this this.
Proof.
  unfold store_step. split_and!; [apply files_frame_refl|done|done| |done|done|done].
  intros P files k ? ?. by exists files.
Qed.

Lemma store_step_trans (this1 this2 this3 : H5PRunner) :
  store_step this1 this2 → store_step this2 this3 → store_step this1 this3.
Proof.
  intros (F1 & K1 & B1 & P1 & C1 & J1 & S1) (F2 & K2 & B2 & P2 & C2 & J2 & S2).
  unfold store_step. split_and!.
  - by eapply files_frame_trans.
  - congruence.
  - by etrans.
  - intros P files k H1 H2. destruct (P1 P files k H1 H2) as (files' & H3 & H4). eauto.
  - auto.
  - by etrans.
  - by etrans.
Qed.

Lemma stylesheet_of_frame (this this' : H5PRunner) (P k : string) :
  files_frame this this' → stylesheet_of this' P k ↔ stylesheet_of this P k.
Proof.
  intros (_ & Hjs & Hcss & _). unfold stylesheet_of. by rewrite Hjs, Hcss.
Qed.

Lemma stylesheet_of_dec (this : H5PRunner) (P k : string) :
  stylesheet_of this P k ∨ ¬ stylesheet_of this P k.
Proof.
  unfold stylesheet_of.
  destruct (jsDependencies this !! P) as [js|] eqn:Hjs; [|right; by intros (? & ? & ? & _)].
  destruct (cssDependencies this !! P) as [css|] eqn:Hcss;
    [|right; by intros (? & ? & ? & ? & _)].
  destruct (decide (k ∈ js)); [right; intros (? & ? & [= <-] & [= <-] & ? & ?); done|].
  destruct (decide (k ∈ css)); [|right; intros (? & ? & [= <-] & [= <-] & ? & ?); done].
  left. by exists js, css.
Qed.

Lemma set_property_eq (o : gmap string string) (k v : string) :
  k ≠ "__proto__" → set_property o k v !! k = Some v.
Proof.
  intros Hk. unfold set_property. rewrite decide_False by done. apply lookup_insert_eq.
Qed.

Lemma set_property_ne (o : gmap string string) (k k' v : string) :
  k ≠ k' → set_property o k v !! k' = o !! k'.
Proof.
  intros Hne. unfold set_property. case_decide; [done|]. by rewrite lookup_insert_ne.
Qed.

Lemma set_property_Some (o : gmap string string) (k k' v v' : string) :
  set_property o k v !! k' = Some v' →
  (k' = k ∧ v' = v ∧ k ≠ "__proto__") ∨ o !! k' = Some v'.
Proof.
  unfold set_property. case_decide as Hk; [by right|].
  intros [[<- <-]|[? ?]]%lookup_insert_Some; [by left|by right].
Qed.

Lemma set_property_is_Some (o : gmap string string) (k k' v : string) :
  is_Some (o !! k') → is_Some (set_property o k v !! k').
Proof.
  intros Hs. destruct (decide (k = k')) as [<-|Hne]; [|by rewrite set_property_ne].
  unfold set_property. case_decide; [done|]. rewrite lookup_insert_eq. by eexists.
Qed.

(** A step that leaves the resource maps and [contentPaths] alone, and
    adds to [loadedJs] and [loadedCss] only names of entries with a
    declared script or stylesheet, keeps the stores valid. *)
Lemma store_valid_loaded (zip : archive) (this this' : H5PRunner) :
  store_valid zip this →
  files_frame this this' →
  packageFiles this' = packageFiles this →
  contentPaths this' = contentPaths this →
  blobs this `prefix_of` blobs this' →
  (∀ n, n ∈ loadedJs this' →
        n ∈ loadedJs this ∨
        ∃ P js file, P ∈ obj_keys (packageFiles this) ∧ (n, file) ∈ zip ∧
                     includes P n = true ∧ jsDependencies this !! P = Some js ∧
                     remove_first P n ∈ js) →
  (∀ n, n ∈ loadedCss this' →
        n ∈ loadedCss this ∨
        ∃ P file, P ∈ obj_keys (packageFiles this) ∧ (n, file) ∈ zip ∧
                  includes P n = true ∧ stylesheet_of this P (remove_first P n)) →
  store_valid zip this'.
Proof.
  intros (Hreg & Hcont & Hpack & Hjs & Hcss) Hframe Hpf Hcp Hpre Hlj Hlc.
  pose proof Hframe as (_ & Ejs & Ecss & _).
  unfold store_valid, registered. rewrite Hpf, Hcp, Ejs, Ecss.
  split_and!; [done| | | |].
  - intros k v Hk. destruct (Hcont k v Hk) as (? & ? & f & ? & ?).
    split_and!; [done..|]. exists f. split; [done|]. by eapply blob_of_prefix.
  - intros P files k v HP Hk. destruct (Hpack P files k v HP Hk) as (? & f & ? & Hs & Hb).
    split; [done|]. exists f. split_and!; [done| |].
    + intros ?%(stylesheet_of_frame this); auto.
    + intros Hn. eapply blob_of_prefix; [done|]. apply Hb.
      intros ?. apply Hn. by apply (stylesheet_of_frame this).
  - intros n Hn. destruct (Hlj n Hn) as [Hold|Hnew]; [by apply Hjs|done].
  - intros n Hn. destruct (Hlc n Hn) as [Hold|(P & file & ? & ? & ? & ?)].
    + destruct (Hcss n Hold) as (P & file & ? & ? & ? & ?).
      exists P, file. split_and!; [done..|]. by apply (stylesheet_of_frame this).
    + exists P, file. split_and!; [done..|]. by apply (stylesheet_of_frame this).
Qed.

Lemma store_valid_blobs (zip : archive) (this this' : H5PRunner) :
  store_valid zip this →
  files_frame this this' →
  packageFiles this' = packageFiles this →
  contentPaths this' = contentPaths this →
  loadedJs this' = loadedJs this →
  loadedCss this' = loadedCss this →
  blobs this `prefix_of` blobs this' →
  store_valid zip this'.
Proof.
  intros Hvalid Hframe Hpf Hcp Hlj Hlc Hpre.
  apply (store_valid_loaded zip this); [done..| |].
  - intros n. rewrite Hlj. by left.
  - intros n. rewrite Hlc. by left.
Qed.

Lemma store_step_loaded (this this' : H5PRunner) :
  files_frame this this' →
  packageFiles this' = packageFiles this →
  contentPaths this' = contentPaths this →
  loadedJs this ⊆ loadedJs this' →
  loadedCss this ⊆ loadedCss this' →
  blobs this `prefix_of` blobs this' →
  store_step this this'.
Proof.
  intros Hframe Hpf Hcp Hlj Hlc Hpre. unfold store_step.
  rewrite Hpf, Hcp. split_and!; [done..| |done|done|done].
  intros P files k ? ?. by exists files.
Qed.

Lemma store_step_same (this this' : H5PRunner) :
  files_frame this this' →
  packageFiles this' = packageFiles this →
  contentPaths this' = contentPaths this →
  loadedJs this' = loadedJs this →
  loadedCss this' = loadedCss this →
  blobs this `prefix_of` blobs this' →
  store_step this this'.
Proof.
  intros Hframe Hpf Hcp Hlj Hlc Hpre.
  apply store_step_loaded; [done..|by rewrite Hlj|by rewrite Hlc|done].
Qed.

Lemma complete_step_refl (this : H5PRunner) : complete_step this this.
Proof. split_and!; [apply store_step_refl|done..]. Qed.

Lemma complete_step_trans (this1 this2 this3 : H5PRunner) :
  complete_step this1 this2 → complete_step this2 this3 → complete_step this1 this3.
Proof.
  intros (S1 & J1 & C1) (S2 & J2 & C2). split_and!; [|congruence..].
  by eapply store_step_trans.
Qed.

Lemma read_valid_frame (zip : archive) (this this' : H5PRunner) (r : read) :
  files_frame this this' →
  obj_keys (packageFiles this') = obj_keys (packageFiles this) →
  read_valid zip this' r ↔ read_valid zip this r.
Proof.
  intros Hframe Hkeys. destruct r as [c|k c|P k c|P k c]; simpl; [done..| |].
  - by rewrite Hkeys, (stylesheet_of_frame this this').
  - by rewrite Hkeys, (stylesheet_of_frame this this').
Qed.

Lemma stored_step (this this' : H5PRunner) (r : read) :
  store_step this this' → stored this r → stored this' r.
Proof.
  intros (_ & _ & _ & HP & HC & _). destruct r as [c|k c|P k c|P k c]; simpl.
  - done.
  - intros H Hk. by apply HC, H.
  - intros H Hk. destruct (H Hk) as (files & Hf & Hs). by apply (HP P files).
  - intros H Hk. destruct (H Hk) as (files & Hf & Hs). by apply (HP P files).
Qed.

(** An assignment [this.packageFiles[P][k] = v] for an entry of the
    archive keeps the stores valid. *)
Lemma store_put (zip : archive) (f : string * entry) (P k : string)
    (this this' : H5PRunner) (files : gmap string string) (v : string) :
  package_entry zip P k f →
  store_valid zip this →
  obj_get (packageFiles this) P = Some files →
  files_frame this this' →
  packageFiles this' = obj_set (packageFiles this) P (set_property files k v) →
  contentPaths this' = contentPaths this →
  loadedJs this' = loadedJs this →
  loadedCss this' = loadedCss this →
  blobs this `prefix_of` blobs this' →
  (stylesheet_of this P k → v = text f.2) →
  (¬ stylesheet_of this P k → blob_of this' v (text f.2)) →
  store_valid zip this' ∧ complete_step this this' ∧
  (k ≠ "__proto__" →
   ∃ files', obj_get (packageFiles this') P = Some files' ∧ is_Some (files' !! k)).
Proof.
  intros Hentry (Hreg & Hcont & Hpack & Hjs & Hcss) Hfiles Hframe Hpf Hcp Hlj Hlc Hpre
    Hstyle Hblob.
  pose proof Hframe as (_ & Ejs & Ecss & _).
  assert (HP : P ∈ obj_keys (packageFiles this)) by by eapply obj_get_Some_keys.
  assert (Hkeys : obj_keys (packageFiles this') = obj_keys (packageFiles this)).
  { rewrite Hpf. by apply obj_keys_set_elem_of. }
  split_and!.
  - unfold store_valid, registered. rewrite Hkeys, Hcp, Hlj, Hlc, Ejs, Ecss. split_and!.
    + done.
    + intros k' v' Hk. destruct (Hcont k' v' Hk) as (? & ? & f' & ? & ?).
      split_and!; [done..|]. exists f'. split; [done|]. by eapply blob_of_prefix.
    + intros P' files' k' v'. rewrite Hpf.
      destruct (decide (P = P')) as [<-|Hne].
      * rewrite obj_get_set. intros [= <-].
        intros [(-> & -> & Hk)|Hold]%set_property_Some.
        -- split; [done|]. exists f. split_and!; [done| |].
           ++ intros ?%(stylesheet_of_frame this); auto.
           ++ intros Hn. apply Hblob. intros ?. apply Hn.
              by apply (stylesheet_of_frame this).
        -- destruct (Hpack P files k' v' Hfiles Hold) as (? & f' & ? & Hs & Hb).
           split; [done|]. exists f'. split_and!; [done| |].
           ++ intros ?%(stylesheet_of_frame this); auto.
           ++ intros Hn. eapply blob_of_prefix; [done|]. apply Hb.
              intros ?. apply Hn. by apply (stylesheet_of_frame this).
      * rewrite obj_get_set_ne by done. intros HP' Hk.
        destruct (Hpack P' files' k' v' HP' Hk) as (? & f' & ? & Hs & Hb).
        split; [done|]. exists f'. split_and!; [done| |].
        -- intros ?%(stylesheet_of_frame this); auto.
        -- intros Hn. eapply blob_of_prefix; [done|]. apply Hb.
           intros ?. apply Hn. by apply (stylesheet_of_frame this).
    + done.
    + intros n Hn. destruct (Hcss n Hn) as (P' & file' & ? & ? & ? & ?).
      exists P', file'. split_and!; [done..|]. by apply (stylesheet_of_frame this).
  - split_and!; [|done..]. unfold store_step. rewrite Hcp, Hlj, Hlc.
    split_and!; [done..| |done|done|done].
    intros P' files' k' HP' Hk. rewrite Hpf.
    destruct (decide (P = P')) as [<-|Hne].
    + rewrite obj_get_set. eexists. split; [done|].
      rewrite Hfiles in HP'. injection HP' as <-. by apply set_property_is_Some.
    + rewrite obj_get_set_ne by done. by exists files'.
  - intros Hk. rewrite Hpf, obj_get_set. eexists. split; [done|].
    rewrite set_property_eq by done. by eexists.
Qed.

(** The callback of one read. *)
Lemma complete_spec (zip : archive) (r : read) (this : H5PRunner) :
  store_valid zip this → read_valid zip this r →
  ∃ this',
    complete r this = Resolved this' ∧
    store_valid zip this' ∧ complete_step this this' ∧ stored this' r.
Proof.
  intros Hvalid Hr. destruct r as [c|k c|P k c|P k c]; simpl in Hr; cbn [complete].
  - eexists. split; [done|]. split_and!; [| |done].
    + eapply store_valid_blobs; [done|by unfold files_frame|done..].
    + split_and!; [|done..]. apply store_step_same; [by unfold files_frame|done..].
  - destruct Hr as (Hne & f & Hf & ->).
    unfold createBlobUrl. rewrite createObjectURL_eq.
    set (this1 := set_blobs (blobs this ++ [text f.2]) this).
    assert (Hv1 : store_valid zip this1).
    { eapply store_valid_blobs; [done|by unfold files_frame|done..|].
      by apply prefix_app_r. }
    destruct Hv1 as (Hreg & Hcont & Hpack & Hjs & Hcss).
    eexists. split; [done|]. split_and!.
    + unfold store_valid. split_and!; [done| |done..].
      intros k' v. simpl. intros [(-> & -> & Hk)|Hold]%set_property_Some.
      * split_and!; [done..|]. exists f. split; [done|]. by apply (blob_of_new this).
      * by apply Hcont.
    + split_and!; [|done..]. unfold store_step. simpl.
      split_and!; [by unfold files_frame|done| | | |done|done].
      * by apply prefix_app_r.
      * intros P files k' ? ?. by exists files.
      * intros k' Hk. by apply set_property_is_Some.
    + simpl. intros Hk. rewrite set_property_eq by done. by eexists.
  - destruct Hr as (HP & Hs & f & Hf & ->). unfold set_packageFile.
    destruct (proj2 (obj_get_is_Some_keys (packageFiles this) P) HP) as [files Hfiles].
    rewrite Hfiles. simpl. eexists. split; [done|].
    edestruct (store_put zip f P k this) as (Hv & Hstep & Hd);
      [done|done|exact Hfiles| | | | | | | | |split_and!; [exact Hv|exact Hstep|exact Hd]];
      simpl; try done.
  - destruct Hr as (HP & Hs & f & Hf & ->). unfold set_packageFile.
    destruct (proj2 (obj_get_is_Some_keys (packageFiles this) P) HP) as [files Hfiles].
    unfold createBlobUrl. rewrite createObjectURL_eq. simpl. rewrite Hfiles. simpl.
    eexists. split; [done|].
    edestruct (store_put zip f P k this) as (Hv & Hstep & Hd);
      [done|done|exact Hfiles| | | | | | | | |split_and!; [exact Hv|exact Hstep|exact Hd]];
      simpl; try done.
    + by apply prefix_app_r.
    + intros _. by apply (blob_of_new this).
Qed.

(** The callbacks of a list of reads, in any order. *)
Lemma complete_all_spec (zip : archive) (reads : list read) (this : H5PRunner) :
  store_valid zip this → Forall (read_valid zip this) reads →
  ∃ this',
    each complete reads this = Resolved this' ∧
    store_valid zip this' ∧ complete_step this this' ∧ Forall (stored this') reads.
Proof.
  intros Hvalid Hreads. rewrite Forall_forall in Hreads.
  destruct (each_resolves complete
              (λ st, store_valid zip st ∧ files_frame this st ∧
                     obj_keys (packageFiles st) = obj_keys (packageFiles this))
              complete_step reads complete_step_refl complete_step_trans) with (st := this)
    as (this' & E & (Hvalid' & _) & Hstep & Hall).
  { intros r st Hr (Hv & Hf & Hk).
    destruct (complete_spec zip r st) as (st' & E & Hv' & Hs' & _);
      [done|by apply (read_valid_frame zip this), Hreads|].
    exists st'. split_and!; [done..| | |done].
    - eapply files_frame_trans; [done|]. by destruct Hs' as ((? & _) & _).
    - destruct Hs' as ((_ & -> & _) & _). done. }
  { split_and!; [done|apply files_frame_refl|done]. }
  exists this'. split_and!; [done..|].
  apply Forall_forall. intros r Hr.
  destruct (Hall r Hr) as (st1 & st2 & (Hv1 & Hf1 & Hk1) & _ & E1 & _ & (S2 & _)).
  destruct (complete_spec zip r st1) as (st2' & E2 & _ & _ & Hst);
    [done|by apply (read_valid_frame zip this), Hreads|].
  rewrite E1 in E2. injection E2 as <-. by eapply stored_step.
Qed.

Lemma elem_of_zip_files_matching (zip : archive) (needle : string) (f : string * entry) :
  f ∈ zip_files_matching zip needle ↔ includes needle f.1 = true ∧ f ∈ zip.
Proof. unfold zip_files_matching. by rewrite list_elem_of_filter. Qed.

Lemma json_contents_app (l1 l2 : list read) :
  json_contents (l1 ++ l2) = json_contents l1 ++ json_contents l2.
Proof. unfold json_contents. apply bind_app. Qed.

Lemma json_contents_cons (r : read) (l : list read) :
  json_contents (r :: l)
  = match r with ContentJson content => [content] | _ => [] end ++ json_contents l.
Proof. reflexivity. Qed.

Lemma json_contents_processContent (fs : list (string * entry)) :
  json_contents ((λ f, processContent f.1 f.2) <$> fs)
  = (λ f, text f.2) <$> filter (λ f, remove_first "content/" f.1 = "content.json") fs.
Proof.
  induction fs as [|[name file] fs IH]; [done|].
  rewrite fmap_cons, json_contents_cons, IH, filter_cons. cbn [fst snd].
  unfold processContent.
  destruct (decide (remove_first "content/" name = "content.json")); done.
Qed.

Lemma start_step_refl (st : H5PRunner * list read) : start_step st st.
Proof. split_and!; [apply store_step_refl|done..]. Qed.

Lemma start_step_trans (st1 st2 st3 : H5PRunner * list read) :
  start_step st1 st2 → start_step st2 st3 → start_step st1 st3.
Proof.
  intros (S1 & P1 & C1 & J1 & B1 & R1 & N1) (S2 & P2 & C2 & J2 & B2 & R2 & N2).
  split_and!; [by eapply store_step_trans|congruence..|auto|congruence].
Qed.

(** The call of [processPackageFile] for one file of a package. *)
Lemma processPackageFile_step (zip : archive) (name : string) (file : entry)
    (P : string) (this : H5PRunner) (reads : list read) :
  (name, file) ∈ zip → includes P name = true →
  P ∈ obj_keys (packageFiles this) →
  store_valid zip this →
  ∃ this' r,
    processPackageFile name file P this = Resolved (this', r) ∧
    store_valid zip this' ∧ start_step (this, reads) (this', reads ++ [r]) ∧
    read_valid zip this r ∧
    package_read P (remove_first P name) (text file) r ∧
    (∀ js, jsDependencies this !! P = Some js → remove_first P name ∈ js →
           name ∈ loadedJs this') ∧
    (stylesheet_of this P (remove_first P name) → name ∈ loadedCss this').
Proof.
  intros Hin Hinc HP Hvalid.
  pose proof Hvalid as (Hreg & _).
  destruct (Hreg P HP) as [[js Hjs] [css Hcss]].
  assert (Hentry : package_entry zip P (remove_first P name) (name, file))
    by by unfold package_entry.
  assert (Hstart : ∀ this' r,
            files_frame this this' → packageFiles this' = packageFiles this →
            contentPaths this' = contentPaths this → contentJson this' = contentJson this →
            blobs this' = blobs this →
            loadedJs this ⊆ loadedJs this' → loadedCss this ⊆ loadedCss this' →
            package_read P (remove_first P name) (text file) r →
            start_step (this, reads) (this', reads ++ [r])).
  { intros this' r Hf Hp Hc Hj Hb Hlj Hlc Hr. split_and!; simpl; [|done..| |].
    - apply store_step_loaded; [done..|by rewrite Hb].
    - intros r' ?. apply elem_of_app. by left.
    - rewrite json_contents_app. destruct Hr as [-> | ->]; apply app_nil_r. }
  unfold processPackageFile. rewrite Hjs, Hcss. simpl.
  case_bool_decide as Hj; [|case_bool_decide as Hc].
  - assert (Hstyle : ¬ stylesheet_of this P (remove_first P name)).
    { intros (js' & css' & Hjs' & _ & Hn & _). congruence. }
    eexists _, _. split; [done|]. split_and!.
    + apply (store_valid_loaded zip this); [done|by unfold files_frame|done..| |].
      * simpl. intros n [->%elem_of_singleton|?]%elem_of_union; [|by left].
        right. by exists P, js, file.
      * intros n. by left.
    + apply Hstart; simpl; [by unfold files_frame|done..|apply union_subseteq_r|done|].
      by right.
    + simpl. split_and!; [done..|]. by exists (name, file).
    + by right.
    + intros js' _ _. simpl. apply elem_of_union. left. by apply elem_of_singleton.
    + done.
  - assert (Hstyle : stylesheet_of this P (remove_first P name)) by by exists js, css.
    eexists _, _. split; [done|]. split_and!.
    + apply (store_valid_loaded zip this); [done|by unfold files_frame|done..| |].
      * intros n. by left.
      * simpl. intros n [->%elem_of_singleton|?]%elem_of_union; [|by left].
        right. by exists P, file.
    + apply Hstart; simpl; [by unfold files_frame|done..|apply union_subseteq_r|].
      by left.
    + simpl. split_and!; [done..|]. by exists (name, file).
    + by left.
    + by intros js' [= <-] ?.
    + intros _. simpl. apply elem_of_union. left. by apply elem_of_singleton.
  - assert (Hstyle : ¬ stylesheet_of this P (remove_first P name)).
    { intros (js' & css' & Hjs' & Hcss' & _ & Hn). congruence. }
    eexists _, _. split; [done|]. split_and!.
    + done.
    + apply Hstart; simpl; [by unfold files_frame|done..|].
      by right.
    + simpl. split_and!; [done..|]. by exists (name, file).
    + by right.
    + by intros js' [= <-] ?.
    + done.
Qed.

Lemma start_file_spec (zip : archive) (this : H5PRunner) (P : string)
    (f : string * entry) (st : H5PRunner * list read) :
  P ∈ obj_keys (packageFiles this) → f ∈ zip → includes P f.1 = true →
  start_inv zip this st →
  ∃ st',
    (let '(this, reads) := st in
     '(this, r) ← processPackageFile f.1 f.2 P this; Resolved (this, reads ++ [r]))
      = Resolved st' ∧
    start_inv zip this st' ∧ start_step st st' ∧
    (∃ r, r ∈ st'.2 ∧ package_read P (remove_first P f.1) (text f.2) r) ∧
    (∀ js, jsDependencies this !! P = Some js → remove_first P f.1 ∈ js →
           f.1 ∈ loadedJs st'.1) ∧
    (stylesheet_of this P (remove_first P f.1) → f.1 ∈ loadedCss st'.1).
Proof.
  intros HP Hin Hinc (Hv & Hf & Hk & Hr). destruct st as [this1 reads], f as [name file].
  simpl in *.
  destruct (processPackageFile_step zip name file P this1 reads)
    as (this' & r & E & Hv' & Hs' & Hrv & Hpr & Hjs & Hcss); [done|done|by rewrite Hk|done|].
  exists (this', reads ++ [r]). rewrite E, bind_Resolved.
  pose proof Hs' as ((F' & K' & _) & _). simpl in F', K'.
  split_and!; [done| |done| | |].
  - unfold start_inv. simpl. split_and!; [done| |congruence|].
    + by eapply files_frame_trans.
    + apply Forall_app. split; [done|]. constructor; [|done].
      by apply (read_valid_frame zip this this1).
  - exists r. split; [|done]. apply elem_of_app. right. by left.
  - intros js Hjs' Hkin. apply (Hjs js); [|done]. destruct Hf as (_ & -> & _). done.
  - intros Hs. apply Hcss. by apply (stylesheet_of_frame this).
Qed.

(** The calls of [processFiles] for the files of one package. *)
Lemma start_package_spec (zip : archive) (this : H5PRunner) (P : string)
    (st : H5PRunner * list read) :
  P ∈ obj_keys (packageFiles this) → start_inv zip this st →
  ∃ st',
    each (λ f '(this, reads),
            '(this, r) ← processPackageFile f.1 f.2 P this;
            Resolved (this, reads ++ [r]))
      (zip_files_matching zip P) st = Resolved st' ∧
    start_inv zip this st' ∧ start_step st st' ∧
    ∀ f, f ∈ zip → includes P f.1 = true →
      (∃ r, r ∈ st'.2 ∧ package_read P (remove_first P f.1) (text f.2) r) ∧
      (∀ js, jsDependencies this !! P = Some js → remove_first P f.1 ∈ js →
             f.1 ∈ loadedJs st'.1) ∧
      (stylesheet_of this P (remove_first P f.1) → f.1 ∈ loadedCss st'.1).
Proof.
  intros HP Hinv.
  destruct (each_resolves
              (λ f '(this, reads),
                 '(this, r) ← processPackageFile f.1 f.2 P this;
                 Resolved (this, reads ++ [r]))
              (start_inv zip this) start_step (zip_files_matching zip P)
              start_step_refl start_step_trans) with (st := st)
    as (st' & E & Hinv' & Hstep & Hall).
  { intros f st0 [Hinc Hin]%elem_of_zip_files_matching Hinv0.
    destruct (start_file_spec zip this P f st0) as (st1 & E1 & Hinv1 & Hstep1 & _);
      [done..|].
    exists st1. destruct st0. by split_and!. }
  { done. }
  exists st'. split_and!; [done..|].
  intros f Hin Hinc.
  destruct (Hall f) as (st1 & st2 & Hinv1 & _ & E1 & _ & S2).
  { by apply elem_of_zip_files_matching. }
  destruct (start_file_spec zip this P f st1)
    as (st2' & E2 & _ & _ & (r & Hr & Hpr) & Hjs & Hcss); [done..|].
  destruct st1 as [this1 reads1]. rewrite E1 in E2. injection E2 as <-.
  destruct S2 as ((_ & _ & _ & _ & _ & Hlj & Hlc) & _ & _ & _ & _ & Hmem & _).
  split_and!.
  - exists r. split; [by apply Hmem|done].
  - intros js Hjs' Hk. by apply Hlj, (Hjs js).
  - intros Hs. by apply Hlc, Hcss.
Qed.

(** The calls of [processFiles], from valid stores: they leave the stores
    of the files as they are, and start a read for every file of the
    content folder and for every file of every package. *)
Lemma startFiles_spec (zip : archive) (this : H5PRunner) :
  store_valid zip this →
  ∃ this' reads,
    startFiles zip this = Resolved (this', reads) ∧
    store_valid zip this' ∧ store_step this this' ∧
    packageFiles this' = packageFiles this ∧
    contentPaths this' = contentPaths this ∧
    contentJson this' = contentJson this ∧
    blobs this' = blobs this ∧
    Forall (read_valid zip this') reads ∧
    json_contents reads = content_json_texts zip ∧
    (∀ f, f ∈ zip → includes "content/" f.1 = true → processContent f.1 f.2 ∈ reads) ∧
    (∀ P f, P ∈ obj_keys (packageFiles this) → f ∈ zip → includes P f.1 = true →
       (∃ r, r ∈ reads ∧ package_read P (remove_first P f.1) (text f.2) r) ∧
       (∀ js, jsDependencies this !! P = Some js → remove_first P f.1 ∈ js →
              f.1 ∈ loadedJs this') ∧
       (stylesheet_of this P (remove_first P f.1) → f.1 ∈ loadedCss this')).
Proof.
  intros Hvalid. unfold startFiles.
  set (creads := (λ f, processContent f.1 f.2) <$> zip_files_matching zip "content/").
  assert (Hcreads : Forall (read_valid zip this) creads).
  { apply Forall_forall.
    intros r (f & -> & [Hinc Hin]%elem_of_zip_files_matching)%list_elem_of_fmap.
    unfold processContent. case_decide as Hk; simpl.
    - exists f. split; [by unfold content_entry, package_entry|done].
    - split; [done|]. exists f. split; [by unfold content_entry, package_entry|done]. }
  destruct (each_resolves
              (λ P st,
                 each (λ f '(this, reads),
                         '(this, r) ← processPackageFile f.1 f.2 P this;
                         Resolved (this, reads ++ [r]))
                   (zip_files_matching zip P) st)
              (start_inv zip this) start_step
              (obj_keys (packageFiles this)) start_step_refl start_step_trans)
    with (st := (this, creads)) as ([this' reads] & E & Hinv' & Hstep & Hall).
  { intros P st HP Hinv.
    destruct (start_package_spec zip this P st HP Hinv) as (st' & E & Hinv' & Hstep & _).
    exists st'. by split_and!. }
  { unfold start_inv. simpl. split_and!; [done|apply files_frame_refl|done|done]. }
  exists this', reads. split; [exact E|].
  destruct Hinv' as (Hv' & Hf' & Hk' & Hr'). simpl in *.
  pose proof Hstep as (S' & P' & C' & J' & B' & Hmem & Hjson). simpl in *.
  split_and!; [done..| | | |].
  - eapply Forall_impl; [exact Hr'|]. intros r Hr.
    by apply (read_valid_frame zip this this').
  - rewrite Hjson. unfold creads, content_json_texts.
    apply json_contents_processContent.
  - intros f Hin Hinc. apply Hmem. unfold creads. apply list_elem_of_fmap.
    exists f. split; [done|]. by apply elem_of_zip_files_matching.
  - intros P f HP Hin Hinc.
    destruct (Hall P HP) as (st1 & st2 & Hinv1 & _ & E1 & _ & S2).
    destruct (start_package_spec zip this P st1 HP Hinv1) as (st2' & E2 & _ & _ & Hfacts).
    rewrite E1 in E2. injection E2 as <-.
    destruct (Hfacts f Hin Hinc) as ((r & Hr & Hpr) & Hjs & Hcss).
    destruct S2 as ((_ & _ & _ & _ & _ & Hlj & Hlc) & _ & _ & _ & _ & Hmem2 & _).
    simpl in *. split_and!.
    + exists r. split; [by apply Hmem2|done].
    + intros js Hjs' Hk. by apply Hlj, (Hjs js).
    + intros Hs. by apply Hlc, Hcss.
Qed.

(** A callback other than that of [content.json] leaves [contentJson] as
    it is. *)
Lemma complete_contentJson (r : read) (this this' : H5PRunner) :
  complete r this = Resolved this' →
  contentJson this' = match r with
                      | ContentJson content => content
                      | _ => contentJson this
                      end.
Proof.
  destruct r as [c|k c|P k c|P k c]; cbn [complete]; unfold set_packageFile.
  - by intros [= <-].
  - by intros [= <-].
  - destruct (obj_get (packageFiles this) P); [|done]. by intros [= <-].
  - unfold createBlobUrl. rewrite createObjectURL_eq. simpl.
    destruct (obj_get (packageFiles this) P); [|done]. by intros [= <-].
Qed.

(** After the callbacks, [contentJson] is the content of the last read of
    [content.json] that completed. *)
Lemma complete_all_contentJson (reads : list read) :
  ∀ this this', each complete reads this = Resolved this' →
    contentJson this' = default (contentJson this) (last (json_contents reads)).
Proof.
  induction reads as [|r reads IH]; intros this this' E.
  - by injection E as <-.
  - rewrite each_cons in E. destruct (complete r this) as [this1| |] eqn:E1; [|done..].
    rewrite bind_Resolved in E. rewrite (IH _ _ E), (complete_contentJson _ _ _ E1).
    rewrite json_contents_cons. destruct r as [c|k c|P k c|P k c]; try done.
    simpl. rewrite last_cons. by destruct (last (json_contents reads)).
Qed.

(** The whole file pass, from valid stores, in whatever order the reads
    complete. *)
Lemma processFiles_spec (completion : list read → list read) (zip : archive)
    (this : H5PRunner) :
  completion_order completion →
  store_valid zip this →
  ∃ this',
    processFiles completion zip this = Resolved this' ∧
    store_valid zip this' ∧ store_step this this' ∧
    (∀ f, f ∈ zip → includes "content/" f.1 = true →
          remove_first "content/" f.1 ≠ "content.json" →
          remove_first "content/" f.1 ≠ "__proto__" →
          is_Some (contentPaths this' !! remove_first "content/" f.1)) ∧
    (∀ P f, P ∈ obj_keys (packageFiles this) → f ∈ zip → includes P f.1 = true →
       (remove_first P f.1 ≠ "__proto__" →
        ∃ files', obj_get (packageFiles this') P = Some files' ∧
                  is_Some (files' !! remove_first P f.1)) ∧
       (∀ js, jsDependencies this !! P = Some js → remove_first P f.1 ∈ js →
              f.1 ∈ loadedJs this') ∧
       (stylesheet_of this P (remove_first P f.1) → f.1 ∈ loadedCss this')) ∧
    ∃ reads,
      json_contents reads = content_json_texts zip ∧
      contentJson this'
      = default (contentJson this) (last (json_contents (completion reads))).
Proof.
  intros Hc Hvalid. unfold processFiles.
  destruct (startFiles_spec zip this Hvalid)
    as (this1 & reads & E1 & Hv1 & S1 & P1 & C1 & J1 & B1 & Hr1 & Hjson & Hcont & Hpack).
  rewrite E1, bind_Resolved.
  assert (Hr1' : Forall (read_valid zip this1) (completion reads)).
  { apply Forall_forall. intros r Hr. rewrite Forall_forall in Hr1. apply Hr1.
    by rewrite <- (Hc reads). }
  destruct (complete_all_spec zip (completion reads) this1 Hv1 Hr1')
    as (this' & E & Hv' & (S' & LJ & LC) & Hst).
  exists this'. split; [exact E|].
  assert (Hstored : ∀ r, r ∈ reads → stored this' r).
  { intros r Hr. rewrite Forall_forall in Hst. apply Hst. by rewrite (Hc reads). }
  split_and!.
  - done.
  - by eapply store_step_trans.
  - intros f Hin Hinc Hne Hproto.
    pose proof (Hstored _ (Hcont f Hin Hinc)) as Hs. unfold processContent in Hs.
    rewrite decide_False in Hs by done. by apply Hs.
  - intros P f HP Hin Hinc. destruct (Hpack P f HP Hin Hinc) as ((r & Hr & Hpr) & Hjs & Hcss).
    split_and!.
    + intros Hproto. pose proof (Hstored r Hr) as Hs.
      destruct Hpr as [-> | ->]; by apply Hs.
    + intros js Hjs' Hk. rewrite LJ. by apply (Hjs js).
    + intros Hs. rewrite LC. by apply Hcss.
  - exists reads. split; [done|]. rewrite <- J1. by apply complete_all_contentJson.
Qed.

(** ** Keys of the file maps *)

Lemma own_names_cons (k : string) (ks : list string) :
  own_names (k :: ks) = if decide (k = "__proto__") then own_names ks else k :: own_names ks.
Proof.
  unfold own_names. rewrite filter_cons.
  destruct (decide (k = "__proto__")) as [->|Hk].
  - by rewrite decide_False by (by intros []).
  - by rewrite decide_True.
Qed.

Lemma elem_of_own_names (k : string) (ks : list string) :
  k ∈ own_names ks ↔ k ≠ "__proto__" ∧ k ∈ ks.
Proof. unfold own_names. by rewrite list_elem_of_filter. Qed.

Lemma own_names_id (ks : list string) : "__proto__" ∉ ks → own_names ks = ks.
Proof.
  induction ks as [|k ks IH]; intros Hno; [done|].
  apply not_elem_of_cons in Hno as [Hk Hno].
  rewrite own_names_cons, decide_False by done. by rewrite IH.
Qed.

Lemma NoDup_own_names (ks : list string) : NoDup ks → NoDup (own_names ks).
Proof. apply NoDup_filter. Qed.

Lemma obj_get_assign (o : obj js_value) (k : string) (v : js_value) :
  k ≠ "__proto__" → obj_get (obj_assign o k v) k = Some v.
Proof. intros Hk. unfold obj_assign. rewrite decide_False by done. apply obj_get_set. Qed.

Lemma obj_get_assign_ne (o : obj js_value) (k k' : string) (v : js_value) :
  k ≠ k' → obj_get (obj_assign o k v) k' = obj_get o k'.
Proof.
  intros Hne. unfold obj_assign. case_decide; [done|]. by apply obj_get_set_ne.
Qed.

Lemma assigned_keys (ks : list string) :
  ∀ fileMap fileMap' : obj js_value,
    assigned ks fileMap fileMap' →
    (NoDup (obj_keys fileMap) → NoDup (obj_keys fileMap')) ∧
    (∀ k, k ∈ obj_keys fileMap' ↔ k ∈ obj_keys fileMap ∨ k ∈ own_names ks) ∧
    (NoDup (obj_keys fileMap ++ own_names ks) →
     obj_keys fileMap' = obj_keys fileMap ++ own_names ks).
Proof.
  induction ks as [|k ks IH]; intros fm fm'; simpl.
  - intros ->. split_and!; [done| |by rewrite app_nil_r].
    intros k. split; [by left|]. by intros [?|?%elem_of_nil].
  - intros (v & Ha). destruct (IH _ _ Ha) as (Hnd & Hin & Heq).
    rewrite own_names_cons. unfold obj_assign in *.
    destruct (decide (k = "__proto__")) as [Hk|Hk]; [by split_and!|]. split_and!.
    + intros H. by apply Hnd, obj_keys_set_NoDup.
    + intros k'. rewrite Hin, obj_keys_set, elem_of_cons.
      case_decide as Hk'.
      * split; [tauto|]. intros [?|[->|?]]; auto.
      * rewrite elem_of_app, list_elem_of_singleton. tauto.
    + intros Hnd'.
      assert (Hout : k ∉ obj_keys fm).
      { apply NoDup_app in Hnd' as (_ & Hd & _). intros ?. eapply Hd; [done|by left]. }
      assert (E : obj_keys (obj_set fm k v) = obj_keys fm ++ [k]).
      { by rewrite obj_keys_set, decide_False. }
      rewrite E, <- (assoc_L (++)) in Heq. by apply Heq.
Qed.

(** From the empty object, the keys are the assigned names other than
    [__proto__]: each once, created in the order of the list when the list
    has no repetition, and enumerated with the array indices first. *)
Lemma assigned_keys_nil (ks : list string) (fileMap : obj js_value) :
  assigned ks [] fileMap →
  NoDup (obj_keys fileMap) ∧
  (∀ k, k ∈ obj_keys fileMap ↔ k ∈ own_names ks) ∧
  (NoDup ks → obj_keys fileMap = own_names ks).
Proof.
  intros (Hnd & Hin & Heq)%assigned_keys. split_and!.
  - apply Hnd. constructor.
  - intros k. rewrite Hin. split; [|by right]. by intros [?%elem_of_nil|?].
  - intros Hks. apply Heq. by apply NoDup_own_names.
Qed.

(** The enumeration of a file map that was filled from the empty
    object. *)
Lemma assigned_enumeration (ks : list string) (fileMap : obj js_value) :
  assigned ks [] fileMap →
  NoDup (Object_keys fileMap) ∧
  (∀ k, k ∈ Object_keys fileMap ↔ k ≠ "__proto__" ∧ k ∈ ks) ∧
  (NoDup ks → Object_keys fileMap = key_order (own_names ks)) ∧
  ((∀ k, k ∈ ks → array_index k = None) → NoDup ks →
   Object_keys fileMap = own_names ks) ∧
  Forall2 (λ k v, obj_get fileMap k = Some v) (Object_keys fileMap) (Object_values fileMap).
Proof.
  intros (Hnd & Hin & Heq)%assigned_keys_nil. split_and!.
  - by rewrite Object_keys_Permutation.
  - intros k. by rewrite Object_keys_Permutation, Hin, elem_of_own_names.
  - intros Hks. by rewrite Object_keys_key_order, Heq.
  - intros Hno Hks. rewrite Object_keys_key_order, Heq by done.
    apply key_order_no_index. intros k [_ Hk]%elem_of_own_names. by apply Hno.
  - by apply Object_values_lookup.
Qed.

Lemma assigned_app (ks1 ks2 : list string) (fm1 fm2 fm3 : obj js_value) :
  assigned ks1 fm1 fm2 → assigned ks2 fm2 fm3 → assigned (ks1 ++ ks2) fm1 fm3.
Proof.
  revert fm1. induction ks1 as [|k ks1 IH]; intros fm1; simpl.
  - by intros ->.
  - intros (v & Ha) H2. exists v. by apply IH.
Qed.

(** ** processJsDependencies *)

(** The inner loop of [processJsDependencies] for one package. *)
Lemma js_fileMap_spec (this : H5PRunner) (dependency : string) (jsDeps : list string) :
  ∀ fileMap fileMap',
    each (λ jsDep fileMap,
            files ← defined (obj_get (packageFiles this) dependency);
            Resolved (obj_assign fileMap jsDep (get_property files jsDep))) jsDeps fileMap
      = Resolved fileMap' →
    assigned jsDeps fileMap fileMap' ∧
    ∀ files, obj_get (packageFiles this) dependency = Some files →
      ∀ k, k ∈ own_names jsDeps ∨ obj_get fileMap k = Some (get_property files k) →
           obj_get fileMap' k = Some (get_property files k).
Proof.
  induction jsDeps as [|jsDep jsDeps IH]; intros fm fm' E.
  - injection E as <-. split; [done|]. by intros files _ k [?%elem_of_nil|?].
  - rewrite each_cons in E.
    destruct (obj_get (packageFiles this) dependency) as [files|] eqn:Hfiles; [|done].
    simpl in E. destruct (IH _ _ E) as (Ha & Hv). split.
    + by exists (get_property files jsDep).
    + intros files' [= <-] k Hk. apply Hv; [done|].
      rewrite own_names_cons in Hk.
      destruct (decide (jsDep = k)) as [->|Hne].
      * destruct (decide (k = "__proto__")) as [Hp|Hp].
        -- destruct Hk as [Hk|Hk]; [by left|]. right. unfold obj_assign.
           by rewrite decide_True.
        -- right. by apply obj_get_assign.
      * destruct Hk as [Hk|Hk].
        -- left. destruct (decide (jsDep = "__proto__")); [done|].
           apply elem_of_cons in Hk as [?|?]; [by subst|done].
        -- right. by rewrite obj_get_assign_ne.
Qed.

(** The outer loop of [processJsDependencies]. *)
Lemma js_plan_spec (this : H5PRunner) (sorted : list string) :
  ∀ plan plan',
    each (λ dependency plan,
            jsDeps ← defined (jsDependencies this !! dependency);
            fileMap ←
              each (λ jsDep fileMap,
                      files ← defined (obj_get (packageFiles this) dependency);
                      Resolved (obj_assign fileMap jsDep (get_property files jsDep)))
                jsDeps [];
            Resolved (plan ++ [{| dependency := dependency; fileMap := fileMap |}]))
      sorted plan = Resolved plan' →
    ∃ tiers, plan' = plan ++ tiers ∧ dependency <$> tiers = sorted ∧
             Forall (js_tier this) tiers.
Proof.
  induction sorted as [|dep sorted IH]; intros plan plan' E.
  - injection E as <-. exists []. by rewrite app_nil_r.
  - rewrite each_cons in E.
    destruct (jsDependencies this !! dep) as [js|] eqn:Hjs; [|done].
    simpl in E.
    match type of E with context [each ?f js []] =>
      destruct (each f js []) as [fm| |] eqn:Efm end; [|done..].
    simpl in E. destruct (IH _ _ E) as (tiers & -> & Hdeps & Htiers).
    destruct (js_fileMap_spec this dep js _ _ Efm) as (Ha & Hv).
    exists ({| dependency := dep; fileMap := fm |} :: tiers). split_and!.
    + by rewrite <- (assoc_L (++)).
    + rewrite fmap_cons. simpl. by rewrite Hdeps.
    + constructor; [|done]. exists js. simpl. split_and!; [done..|].
      intros k Hk. destruct js as [|j js']; [by apply elem_of_nil in Hk|].
      rewrite each_cons in Efm.
      destruct (obj_get (packageFiles this) dep) as [files|] eqn:Hfiles; [|done].
      exists files. split; [done|]. apply Hv; auto.
Qed.

Lemma processJsDependencies_inv (this this' : H5PRunner) :
  processJsDependencies this = Resolved this' →
  ∃ plan, this' = set_jsPlan plan this ∧
          dependency <$> plan = sortedDependencies this ∧
          Forall (js_tier this) plan.
Proof.
  unfold processJsDependencies. intros E.
  destruct (each _ (sortedDependencies this) []) as [plan| |] eqn:Ep; [|done..].
  simpl in E. injection E as <-.
  destruct (js_plan_spec this _ _ _ Ep) as (tiers & -> & ? & ?). by exists tiers.
Qed.

(** ** processCssDependencies *)

Lemma css_step_refl (this : H5PRunner) : css_step this this.
Proof.
  unfold css_step. split_and!; [apply files_frame_refl|done..|].
  intros P files ?. by exists files.
Qed.

Lemma css_step_trans (this1 this2 this3 : H5PRunner) :
  css_step this1 this2 → css_step this2 this3 → css_step this1 this3.
Proof.
  intros (F1 & C1 & J1 & LJ1 & LC1 & K1 & B1 & P1) (F2 & C2 & J2 & LJ2 & LC2 & K2 & B2 & P2).
  unfold css_step. split_and!; [by eapply files_frame_trans|congruence..|by etrans|].
  intros P files HP. destruct (P1 P files HP) as (files2 & HP2 & D2 & V2).
  destruct (P2 P files2 HP2) as (files3 & HP3 & D3 & V3).
  exists files3. split_and!; [done| |].
  - intros k. by rewrite D3, D2.
  - intros k Hk. rewrite V3, V2; [done..|].
    destruct F1 as (_ & _ & -> & _). done.
Qed.

(** One stylesheet of one package. *)
Lemma processCssDependency_step (URL_pathname : string → string → option string)
    (prototype_text : string → string)
    (dep cssDep : string) (this : H5PRunner) (fm : obj js_value)
    (css : list string) :
  cssDependencies this !! dep = Some css → cssDep ∈ css →
  match processCssDependency URL_pathname prototype_text dep cssDep (this, fm) with
  | OutOfFuel => False
  | Rejected e => e = TypeError
  | Resolved (this', fm') =>
      css_step this this' ∧
      (∀ P, P ≠ dep → obj_get (packageFiles this') P = obj_get (packageFiles this) P) ∧
      ∃ files text out,
        obj_get (packageFiles this) dep = Some files ∧
        files !! cssDep = Some text ∧
        replacePaths URL_pathname prototype_text cssDep files = Some out ∧
        obj_get (packageFiles this') dep = Some (set_property files cssDep out) ∧
        blobs this' = blobs this ++ [out] ∧
        fm' = obj_assign fm cssDep (Str (blob_url (length (blobs this))))
  end.
Proof.
  intros Hcss Hin. unfold processCssDependency, set_packageFile.
  destruct (obj_get (packageFiles this) dep) as [files|] eqn:Hfiles; [|done].
  simpl. unfold replacePaths.
  destruct (files !! cssDep) as [text|] eqn:Htext; [|done].
  simpl. rewrite Hfiles. simpl.
  assert (HP : dep ∈ obj_keys (packageFiles this)) by by eapply obj_get_Some_keys.
  split_and!.
  - unfold css_step. simpl. split_and!; [done..| | |].
    + by apply obj_keys_set_elem_of.
    + by apply prefix_app_r.
    + intros P files' HP'. destruct (decide (dep = P)) as [<-|Hne].
      * rewrite obj_get_set. eexists. split; [done|].
        rewrite Hfiles in HP'. injection HP' as <-. split.
        -- intros k. destruct (decide (cssDep = k)) as [<-|?].
           ++ rewrite Htext. split; [by eexists|]. intros _.
              apply set_property_is_Some. by rewrite Htext.
           ++ by rewrite set_property_ne.
        -- intros k Hk. rewrite set_property_ne; [done|].
           intros <-. by apply (Hk css).
      * rewrite obj_get_set_ne by done. by exists files'.
  - intros P Hne. simpl. by rewrite obj_get_set_ne.
  - exists files, text. eexists. split_and!; try done.
    + by rewrite Htext.
    + simpl. apply obj_get_set.
Qed.


(** The inner loop of [processCssDependencies] for one package. *)
Lemma css_fileMap_spec (URL_pathname : string → string → option string)
    (prototype_text : string → string)
    (dep : string) (css : list string) (cssDeps : list string) :
  ∀ this fm,
    (∀ c, c ∈ cssDeps → c ∈ css) →
    cssDependencies this !! dep = Some css →
    match each (processCssDependency URL_pathname prototype_text dep) cssDeps (this, fm) with
    | OutOfFuel => False
    | Rejected e => e = TypeError
    | Resolved (this', fm') =>
        css_step this this' ∧
        (∀ P, P ≠ dep → obj_get (packageFiles this') P = obj_get (packageFiles this) P) ∧
        assigned cssDeps fm fm' ∧
        (∀ c, c ∈ cssDeps →
              ∃ files, obj_get (packageFiles this) dep = Some files ∧ is_Some (files !! c)) ∧
        (css_fileMap_valid this dep fm → css_fileMap_valid this' dep fm')
    end.
Proof.
  induction cssDeps as [|c cssDeps IH]; intros this fm Hsub Hcss.
  - simpl. split_and!; [apply css_step_refl|done|done| |done].
    by intros c ?%elem_of_nil.
  - rewrite each_cons.
    pose proof (processCssDependency_step URL_pathname prototype_text dep c this fm css Hcss)
      as Hstep.
    destruct (processCssDependency URL_pathname prototype_text dep c (this, fm))
      as [[this1 fm1]|e|];
      [|by apply Hstep, Hsub; left..].
    destruct Hstep as (S1 & O1 & files & text & out & Hfiles & Htext & _ & Hfiles1 & Hblobs & ->);
      [apply Hsub; by left|].
    rewrite bind_Resolved.
    assert (Hcss1 : cssDependencies this1 !! dep = Some css).
    { destruct S1 as ((_ & _ & -> & _) & _). done. }
    specialize (IH this1 (obj_assign fm c (Str (blob_url (length (blobs this)))))
                  (λ c' Hc', Hsub c' (list_elem_of_further _ _ _ Hc')) Hcss1).
    destruct (each _ cssDeps _) as [[this' fm']|e|]; [|done..].
    destruct IH as (S2 & O2 & Ha & Hpres & Hval). split_and!.
    + by eapply css_step_trans.
    + intros P HP. by rewrite O2, O1.
    + by eexists.
    + intros c' [->|Hc']%elem_of_cons; [exists files; split; [done|by eexists]|].
      destruct (Hpres c' Hc') as (files1 & Hf1 & Hs1). exists files. split; [done|].
      rewrite Hfiles1 in Hf1. injection Hf1 as <-.
      destruct (decide (c = c')) as [<-|Hne]; [by eexists|].
      by rewrite set_property_ne in Hs1.
    + intros Hv. apply Hval. intros k u.
      assert (Hold : obj_get fm k = Some u → c ≠ k ∨ c = "__proto__" →
                ∃ url text files,
                  u = Str url ∧ blob_of this1 url text ∧
                  obj_get (packageFiles this1) dep = Some files ∧ files !! k = Some text).
      { intros Hk Hc. destruct (Hv k u Hk) as (url & text' & files' & -> & Hb & Hf' & Ht').
        rewrite Hfiles in Hf'. injection Hf' as <-.
        exists url, text'. eexists. split_and!; [done| |done|].
        - eapply blob_of_prefix; [|done]. by destruct S1 as (_ & _ & _ & _ & _ & _ & ? & _).
        - unfold set_property. destruct (decide (c = "__proto__")); [done|].
          destruct Hc as [Hc|Hc]; [|done]. by rewrite lookup_insert_ne. }
      unfold obj_assign. destruct (decide (c = "__proto__")) as [Hp|Hp].
      * intros Hk. apply Hold; [done|by right].
      * destruct (decide (c = k)) as [<-|Hne].
        -- rewrite obj_get_set. intros [= <-]. eexists _, out, _.
           split_and!; [done|by apply (blob_of_new this)|done|by rewrite set_property_eq].
        -- rewrite obj_get_set_ne by done. intros Hk. apply Hold; [done|by left].
Qed.

Lemma css_fileMap_result (URL_pathname : string → string → option string)
    (prototype_text : string → string)
    (dep : string) (css : list string) (cssDeps : list string)
    (this : H5PRunner) (fm : obj js_value)
    (r : result (H5PRunner * obj js_value)) :
  (∀ c, c ∈ cssDeps → c ∈ css) →
  cssDependencies this !! dep = Some css →
  each (processCssDependency URL_pathname prototype_text dep) cssDeps (this, fm) = r →
  match r with
  | OutOfFuel => False
  | Rejected e => e = TypeError
  | Resolved (this', fm') =>
      css_step this this' ∧
      (∀ P, P ≠ dep → obj_get (packageFiles this') P = obj_get (packageFiles this) P) ∧
      assigned cssDeps fm fm' ∧
      (∀ c, c ∈ cssDeps →
            ∃ files, obj_get (packageFiles this) dep = Some files ∧ is_Some (files !! c)) ∧
      (css_fileMap_valid this dep fm → css_fileMap_valid this' dep fm')
  end.
Proof. intros Hsub Hcss <-. by apply (css_fileMap_spec _ _ _ css). Qed.

Lemma css_tier_step (this this' : H5PRunner) (d : depMap) :
  css_step this this' →
  obj_get (packageFiles this') (dependency d) = obj_get (packageFiles this) (dependency d) →
  css_tier this d → css_tier this' d.
Proof.
  intros ((_ & _ & Ecss & _) & _ & _ & _ & _ & _ & Hpre & _) Hsame (css & Hcss & Ha & Hv).
  exists css. rewrite Ecss, Hsame. split_and!; [done..|].
  intros k u Hk. destruct (Hv k u Hk) as (url & text & files & ? & ? & ? & ?).
  exists url, text, files. split_and!; [done| |done..]. by eapply blob_of_prefix.
Qed.

(** The outer loop of [processCssDependencies]. *)
Lemma css_plan_spec (URL_pathname : string → string → option string)
    (prototype_text : string → string) (sorted : list string) :
  ∀ this plan,
    match
      each (λ dependency '(this, plan),
              cssDeps ← defined (cssDependencies this !! dependency);
              '(this, fileMap) ←
                each (processCssDependency URL_pathname prototype_text dependency) cssDeps
                  (this, []);
              Resolved (this, plan ++ [{| dependency := dependency;
                                          fileMap := fileMap |}]))
        sorted (this, plan)
    with
    | OutOfFuel => False
    | Rejected e => e = TypeError
    | Resolved (this', plan') =>
        css_step this this' ∧
        (∀ P, P ∉ sorted → obj_get (packageFiles this') P = obj_get (packageFiles this) P) ∧
        (∀ dep, dep ∈ sorted →
           ∃ css, cssDependencies this !! dep = Some css ∧
             ∀ c, c ∈ css →
               ∃ files, obj_get (packageFiles this) dep = Some files ∧
                        is_Some (files !! c)) ∧
        ∃ tiers, plan' = plan ++ tiers ∧ dependency <$> tiers = sorted ∧
                 (NoDup sorted → Forall (css_tier this') tiers)
    end.
Proof.
  induction sorted as [|dep sorted IH]; intros this plan.
  - simpl. split_and!; [apply css_step_refl|done| |].
    + by intros dep ?%elem_of_nil.
    + exists []. by rewrite app_nil_r.
  - rewrite each_cons.
    destruct (cssDependencies this !! dep) as [css|] eqn:Hcss; [|done].
    simpl.
    destruct (each (processCssDependency URL_pathname prototype_text dep) css (this, []))
      as [[this1 fm]|e|] eqn:Hin;
      eapply (css_fileMap_result URL_pathname prototype_text dep css css this [] _
                (λ c H, H) Hcss) in Hin;
      [|done..].
    destruct Hin as (S1 & O1 & Ha & Hpres & Hval). simpl.
    specialize (IH this1 (plan ++ [{| dependency := dep; fileMap := fm |}])).
    match goal with |- match ?r with _ => _ end => destruct r as [[this' plan']|e|] end;
      [|done..].
    destruct IH as (S2 & O2 & Hpres2 & tiers & -> & Hdeps & Htiers).
    pose proof S1 as ((_ & _ & Ecss1 & _) & _ & _ & _ & _ & K1 & _ & D1).
    split_and!.
    + by eapply css_step_trans.
    + intros P [? ?]%not_elem_of_cons. rewrite O2, O1; done.
    + intros dep' [->|Hdep']%elem_of_cons; [by exists css|].
      destruct (Hpres2 dep' Hdep') as (css' & Hcss' & Hc'). exists css'.
      rewrite Ecss1 in Hcss'. split; [done|]. intros c Hc.
      destruct (Hc' c Hc) as (files1 & Hf1 & Hs1).
      assert (is_Some (obj_get (packageFiles this) dep')) as [files Hf].
      { apply obj_get_is_Some_keys. rewrite <- K1. by eapply obj_get_Some_keys. }
      exists files. split; [done|].
      destruct (D1 dep' files Hf) as (files1' & Hf1' & Hdom & _).
      rewrite Hf1 in Hf1'. injection Hf1' as <-. by apply Hdom.
    + exists ({| dependency := dep; fileMap := fm |} :: tiers). split_and!.
      * by rewrite <- (assoc_L (++)).
      * rewrite fmap_cons. simpl. by rewrite Hdeps.
      * intros [Hnotin Hnd]%NoDup_cons. constructor; [|by apply Htiers].
        apply (css_tier_step this1); [done|simpl; by apply O2|].
        exists css. simpl. rewrite Ecss1. split_and!; [done|done|]. apply Hval.
        by intros k u [=].
Qed.

Lemma processCssDependencies_result (URL_pathname : string → string → option string)
    (prototype_text : string → string) (this : H5PRunner) (r : result H5PRunner) :
  processCssDependencies URL_pathname prototype_text this = r →
  match r with
  | OutOfFuel => False
  | Rejected e => e = TypeError
  | Resolved this' =>
      ∃ this1 plan,
        this' = set_cssPlan plan this1 ∧
        css_step this this1 ∧
        (∀ P, P ∉ sortedDependencies this →
              obj_get (packageFiles this1) P = obj_get (packageFiles this) P) ∧
        (∀ dep, dep ∈ sortedDependencies this →
           ∃ css, cssDependencies this !! dep = Some css ∧
             ∀ c, c ∈ css →
               ∃ files, obj_get (packageFiles this) dep = Some files ∧
                        is_Some (files !! c)) ∧
        dependency <$> plan = sortedDependencies this ∧
        (NoDup (sortedDependencies this) → Forall (css_tier this1) plan)
  end.
Proof.
  unfold processCssDependencies. intros <-.
  pose proof (css_plan_spec URL_pathname prototype_text (sortedDependencies this) this [])
    as H.
  match type of H with match ?r with _ => _ end =>
    destruct r as [[this1 plan]|e|] end; [|done..].
  simpl. destruct H as (S1 & O1 & Hpres & tiers & -> & Hdeps & Htiers).
  exists this1, tiers. by split_and!.
Qed.

Lemma isBlobUrl_blob_url (n : nat) : isBlobUrl (blob_url n) = true.
Proof. unfold isBlobUrl, blob_url. by rewrite strip_prefix_app. Qed.

Lemma css_tier_plan (this : H5PRunner) (plan : list depMap) (d : depMap) :
  css_tier this d → css_tier (set_cssPlan plan this) d.
Proof. intros (css & ? & ? & Hv). exists css. by split_and!. Qed.

(** X5: [processCssDependencies] rejects, with a [TypeError], when a
    package of the sorted order declares a stylesheet for which its
    resource map has no entry: [replacePaths] reads the missing text and
    calls [replace] on [undefined].  No other failure can end it. *)
Theorem missing_stylesheet_rejects (URL_pathname : string → string → option string)
    (prototype_text : string → string)
    (this : H5PRunner) (dep cssDep : string) (css : list string) :
  dep ∈ sortedDependencies this →
  cssDependencies this !! dep = Some css →
  cssDep ∈ css →
  (∀ files, obj_get (packageFiles this) dep = Some files → files !! cssDep = None) →
  processCssDependencies URL_pathname prototype_text this = Rejected TypeError ∧
  ∀ this', type_error_only (processCssDependencies URL_pathname prototype_text this').
Proof.
  intros Hdep Hcss Hin Hmissing. split.
  - pose proof (processCssDependencies_result URL_pathname prototype_text this _ eq_refl)
      as H.
    destruct (processCssDependencies URL_pathname prototype_text this) as [this'|e|];
      [|by subst|done].
    destruct H as (this1 & plan & _ & _ & _ & Hpres & _).
    destruct (Hpres dep Hdep) as (css' & Hcss' & Hc).
    rewrite Hcss in Hcss'. injection Hcss' as <-.
    destruct (Hc cssDep Hin) as (files & Hfiles & [text Htext]).
    by rewrite (Hmissing files Hfiles) in Htext.
  - intros this'.
    pose proof (processCssDependencies_result URL_pathname prototype_text this' _ eq_refl)
      as H.
    by destruct (processCssDependencies URL_pathname prototype_text this').
Qed.

(** X6: the stylesheet plan that [processCssDependencies] stores has one
    tier per package of the sorted order, in that order.  The keys of the
    file map of a tier are the declared stylesheets of the package other
    than [__proto__], each once.  [Object.keys] lists those that are array
    indices first, in ascending order, and the others in the order of the
    declaration when it has no repetition; [Object.values], from which
    the loader takes the URLs, lists the values in the order of the keys.
    The value of a stylesheet is a blob URL, and the blob holds the very
    text that the resource map of the package holds for the stylesheet
    afterwards: the resource map keeps the rewritten text and not the
    URL. *)
Theorem stylesheet_plan (URL_pathname : string → string → option string)
    (prototype_text : string → string) (this this' : H5PRunner) :
  processCssDependencies URL_pathname prototype_text this = Resolved this' →
  NoDup (sortedDependencies this) →
  dependency <$> cssPlan this' = sortedDependencies this ∧
  ∀ d, d ∈ cssPlan this' →
    ∃ css,
      cssDependencies this !! dependency d = Some css ∧
      NoDup (Object_keys (fileMap d)) ∧
      (∀ k, k ∈ Object_keys (fileMap d) ↔ k ≠ "__proto__" ∧ k ∈ css) ∧
      (NoDup css → Object_keys (fileMap d) = key_order (own_names css)) ∧
      ((∀ k, k ∈ css → array_index k = None) → NoDup css →
       Object_keys (fileMap d) = own_names css) ∧
      Forall2 (λ k v, obj_get (fileMap d) k = Some v)
        (Object_keys (fileMap d)) (Object_values (fileMap d)) ∧
      ∀ k, k ∈ css → k ≠ "__proto__" →
        ∃ url text files,
          obj_get (fileMap d) k = Some (Str url) ∧
          isBlobUrl url = true ∧ blob_of this' url text ∧
          obj_get (packageFiles this') (dependency d) = Some files ∧
          files !! k = Some text.
Proof.
  intros E Hnd.
  pose proof (processCssDependencies_result URL_pathname prototype_text this _ E)
    as (this1 & plan & -> & S1 & _ & _ & Hdeps & Htiers).
  split; [done|]. intros d Hd. simpl in Hd.
  specialize (Htiers Hnd). rewrite Forall_forall in Htiers.
  destruct (Htiers d Hd) as (css & Hcss & Ha & Hv).
  destruct (assigned_enumeration css (fileMap d) Ha) as (Hnd' & Hkeys & Heq & Heq' & Hvals).
  exists css. split_and!; [|done..|].
  - destruct S1 as ((_ & _ & <- & _) & _). done.
  - intros k Hk Hp.
    destruct (proj2 (obj_get_is_Some_keys (fileMap d) k)) as [u Hu].
    { rewrite <- Object_keys_Permutation. by apply Hkeys. }
    destruct (Hv k u Hu) as (url & text & files & -> & Hb & Hf & Ht).
    exists url, text, files. split_and!; [done| |done..].
    destruct Hb as (n & -> & _). apply isBlobUrl_blob_url.
Qed.


Lemma missing_stylesheet_rejects_witness :
  processCssDependencies example_pathname example_prototype_text unstyled_state
  = Rejected TypeError.
Proof.
  assert (Hsorted : sortedDependencies unstyled_state = ["A-1.0/"])
    by (vm_compute; reflexivity).
  assert (Hcss : cssDependencies unstyled_state !! "A-1.0/" = Some ["a.css"])
    by (vm_compute; reflexivity).
  assert (Hfiles : ∃ files, obj_get (packageFiles unstyled_state) "A-1.0/" = Some files ∧
                            files !! "a.css" = None)
    by (eexists; split; vm_compute; reflexivity).
  apply (missing_stylesheet_rejects example_pathname example_prototype_text unstyled_state
           "A-1.0/" "a.css" ["a.css"]).
  - rewrite Hsorted. by left.
  - exact Hcss.
  - by left.
  - intros files Hget. destruct Hfiles as (files' & Hget' & Hnone).
    rewrite Hget' in Hget. by injection Hget as <-.
Defined.

Lemma stylesheet_plan_witness :
  dependency <$> cssPlan styled_sheet_state = sortedDependencies styled_state.
Proof.
  assert (E : processCssDependencies example_pathname example_prototype_text styled_state
              = Resolved styled_sheet_state) by (vm_compute; reflexivity).
  assert (Hsorted : sortedDependencies styled_state = ["A-1.0/"])
    by (vm_compute; reflexivity).
  apply (stylesheet_plan _ _ _ _ E). rewrite Hsorted. apply NoDup_singleton.
Defined.


(** ** The stages of [init] *)

Lemma init_stages (URL_pathname : string → string → option string)
    (prototype_text : string → string) (completion : list read → list read)
    (zip : archive) (this : H5PRunner) :
  init URL_pathname prototype_text completion zip = Resolved this →
  ∃ this0 this1 this2 this3,
    recurseDependencies (S (length zip)) zip "h5p.json" true ∅ EmptyString new_runner
      = Resolved this0 ∧
    setDependencies this0 = Resolved this1 ∧
    processFiles completion zip this1 = Resolved this2 ∧
    processCssDependencies URL_pathname prototype_text this2 = Resolved this3 ∧
    processJsDependencies this3 = Resolved this.
Proof.
  unfold init. intros E.
  destruct (recurseDependencies _ _ _ _ _ _ _) as [this0| |] eqn:E0; [|done..].
  rewrite bind_Resolved in E.
  destruct (setDependencies this0) as [this1| |] eqn:E1; [|done..].
  rewrite bind_Resolved in E.
  destruct (processFiles completion zip this1) as [this2| |] eqn:E2; [|done..].
  rewrite bind_Resolved in E.
  destruct (processCssDependencies URL_pathname prototype_text this2)
    as [this3| |] eqn:E3; [|done..].
  rewrite bind_Resolved in E.
  by exists this0, this1, this2, this3.
Qed.

Lemma recurseDependencies_root_frame (zip : archive) (fuel : nat) (this0 : H5PRunner) :
  recurseDependencies fuel zip "h5p.json" true ∅ EmptyString new_runner = Resolved this0 →
  walk_frame new_runner this0.
Proof.
  unfold recurseDependencies.
  destruct (zip_file zip "h5p.json") as [content|] eqn:Hfile; [|done].
  intros E.
  destruct (recurseDependencies_then_records zip _ _ "h5p.json" _ _ _ _ _ E Hfile)
    as (new & json & _ & _ & _ & _ & _ & Hframe); [apply reachable_root|done|done].
Qed.

(** The state in which [init] calls [processFiles]: the stores are empty
    and the recorded packages are registered. *)
Lemma sorted_state_valid (zip : archive) (fuel : nat) (this0 this1 : H5PRunner) :
  recurseDependencies fuel zip "h5p.json" true ∅ EmptyString new_runner = Resolved this0 →
  setDependencies this0 = Resolved this1 →
  store_valid zip this1 ∧
  dependencies this1 = dependencies this0 ∧
  (∀ P, P ∈ obj_keys (packageFiles this1) ↔ recorded (dependencies this0) P) ∧
  (∀ P, is_Some (jsDependencies this1 !! P) ↔ recorded (dependencies this0) P) ∧
  (∀ P, is_Some (cssDependencies this1 !! P) ↔ recorded (dependencies this0) P) ∧
  (∀ P files, obj_get (packageFiles this1) P = Some files → files = ∅) ∧
  contentPaths this1 = ∅ ∧ contentJson this1 = EmptyString ∧
  loadedJs this1 = ∅ ∧ loadedCss this1 = ∅ ∧
  NoDup (sortedDependencies this1).
Proof.
  intros (Hjs & Hcss & Hpf & Hcp & Hcj & Hlj & Hlc & _ & _ & _ & Hb)%recurseDependencies_root_frame
    (sorted & Hsort & ->)%setDependencies_inv.
  simpl in *.
  destruct (setDependencies_loop_spec (dependencies this0) Toposort.empty this0)
    as (Hframe & _ & _ & Hkeys & Hother & Hrec).
  destruct Hframe as (Hd & Hcp' & Hcj' & _ & _ & Hlj' & Hlc' & _ & _ & Hb').
  set (this1 := (setDependencies_loop (dependencies this0) Toposort.empty this0).2) in *.
  assert (Hkeys' : ∀ P, P ∈ obj_keys (packageFiles this1) ↔ recorded (dependencies this0) P).
  { intros P. rewrite Hkeys, Hpf. split; [|by right]. by intros [?%elem_of_nil|?]. }
  assert (Hempty : ∀ P files, obj_get (packageFiles this1) P = Some files → files = ∅).
  { intros P files HP.
    assert (recorded (dependencies this0) P) as Hr.
    { apply Hkeys'. by eapply obj_get_Some_keys. }
    destruct (Hrec P Hr) as (HP' & _). congruence. }
  assert (Hjs' : ∀ P, is_Some (jsDependencies this1 !! P) ↔ recorded (dependencies this0) P).
  { intros P. destruct (recorded_dec (dependencies this0) P) as [Hr|Hn].
    - destruct (Hrec P Hr) as (_ & d & _ & _ & -> & _). split; [done|by eexists].
    - destruct (Hother P Hn) as (_ & -> & _). rewrite Hjs. simpl.
      rewrite lookup_empty. split; [by intros [? ?]|done]. }
  assert (Hcss' : ∀ P, is_Some (cssDependencies this1 !! P) ↔ recorded (dependencies this0) P).
  { intros P. destruct (recorded_dec (dependencies this0) P) as [Hr|Hn].
    - destruct (Hrec P Hr) as (_ & d & _ & _ & _ & ->). split; [done|by eexists].
    - destruct (Hother P Hn) as (_ & _ & ->). rewrite Hcss. simpl.
      rewrite lookup_empty. split; [by intros [? ?]|done]. }
  split_and!; simpl; try done.
  - unfold store_valid, registered. simpl. fold this1. split_and!.
    + intros P HP. rewrite Hjs', Hcss'. split; by apply Hkeys'.
    + intros k v. rewrite Hcp', Hcp. simpl. by rewrite lookup_empty.
    + intros P files k v HP Hk. rewrite (Hempty P files HP) in Hk.
      by rewrite lookup_empty in Hk.
    + intros name. rewrite Hlj', Hlj. simpl. by intros ?%not_elem_of_empty.
    + intros name. rewrite Hlc', Hlc. simpl. by intros ?%not_elem_of_empty.
  - by rewrite Hcp', Hcp.
  - by rewrite Hcj', Hcj.
  - by rewrite Hlj', Hlj.
  - by rewrite Hlc', Hlc.
  - rewrite reverse_Permutation. by eapply sort_NoDup.
Qed.

(** The final state of [init]: the state after the file pass, a step of
    the stylesheet rewriting, and the two plans. *)
Lemma init_final (URL_pathname : string → string → option string)
    (prototype_text : string → string) (completion : list read → list read)
    (zip : archive) (this : H5PRunner) :
  init URL_pathname prototype_text completion zip = Resolved this →
  ∃ this0 this1 this2 this3 pc pj,
    recurseDependencies (S (length zip)) zip "h5p.json" true ∅ EmptyString new_runner
      = Resolved this0 ∧
    setDependencies this0 = Resolved this1 ∧
    processFiles completion zip this1 = Resolved this2 ∧
    css_step this2 this3 ∧
    this = set_jsPlan pj (set_cssPlan pc this3).
Proof.
  intros (this0 & this1 & this2 & this3 & E0 & E1 & E2 & E3 & E4)%init_stages.
  pose proof (processCssDependencies_result URL_pathname prototype_text this2 _ E3)
    as (this3' & pc & -> & S3 & _).
  apply processJsDependencies_inv in E4 as (pj & -> & _).
  by exists this0, this1, this2, this3', pc, pj.
Qed.

(** The file pass in [init]: it resolves from the state that
    [setDependencies] leaves, in whatever order the reads complete, and
    what it stores is valid. *)
Lemma init_file_pass (completion : list read → list read) (zip : archive) (fuel : nat)
    (this0 this1 this2 : H5PRunner) :
  completion_order completion →
  recurseDependencies fuel zip "h5p.json" true ∅ EmptyString new_runner = Resolved this0 →
  setDependencies this0 = Resolved this1 →
  processFiles completion zip this1 = Resolved this2 →
  store_valid zip this2 ∧ store_step this1 this2 ∧
  (∀ f, f ∈ zip → includes "content/" f.1 = true →
        remove_first "content/" f.1 ≠ "content.json" →
        remove_first "content/" f.1 ≠ "__proto__" →
        is_Some (contentPaths this2 !! remove_first "content/" f.1)) ∧
  (∀ P f, P ∈ obj_keys (packageFiles this1) → f ∈ zip → includes P f.1 = true →
     (remove_first P f.1 ≠ "__proto__" →
      ∃ files', obj_get (packageFiles this2) P = Some files' ∧
                is_Some (files' !! remove_first P f.1)) ∧
     (∀ js, jsDependencies this1 !! P = Some js → remove_first P f.1 ∈ js →
            f.1 ∈ loadedJs this2) ∧
     (stylesheet_of this1 P (remove_first P f.1) → f.1 ∈ loadedCss this2)) ∧
  ∃ reads, json_contents reads = content_json_texts zip ∧
    contentJson this2 = default EmptyString (last (json_contents (completion reads))).
Proof.
  intros Hc E0 E1 E2.
  destruct (sorted_state_valid zip fuel this0 this1 E0 E1)
    as (Hvalid & _ & _ & _ & _ & _ & _ & Hcj & _).
  destruct (processFiles_spec completion zip this1 Hc Hvalid) as (this2' & E2' & Hfacts).
  rewrite E2 in E2'. injection E2' as <-. by rewrite Hcj in Hfacts.
Qed.

(** ** The file pass does not reject *)

Lemma processPackageFile_resolves (name : string) (file : entry) (P : string)
    (this : H5PRunner) :
  registered this → P ∈ obj_keys (packageFiles this) →
  ∃ this' r,
    processPackageFile name file P this = Resolved (this', r) ∧
    files_frame this this' ∧
    packageFiles this' = packageFiles this ∧
    read_registered this r.
Proof.
  intros Hreg HP. destruct (Hreg P HP) as [[js Hjs] [css Hcss]].
  unfold processPackageFile. rewrite Hjs, Hcss. simpl.
  case_bool_decide; [|case_bool_decide]; simpl;
    (eexists _, _; split_and!; [done|by unfold files_frame|done|done]).
Qed.

Lemma startFiles_resolves (zip : archive) (this : H5PRunner) :
  registered this →
  ∃ this' reads,
    startFiles zip this = Resolved (this', reads) ∧
    files_frame this this' ∧
    packageFiles this' = packageFiles this ∧
    Forall (read_registered this) reads.
Proof.
  intros Hreg. unfold startFiles.
  set (I := λ st : H5PRunner * list read,
              files_frame this st.1 ∧ packageFiles st.1 = packageFiles this ∧
              Forall (read_registered this) st.2).
  set (R := λ _ _ : H5PRunner * list read, True).
  assert (Hrefl : ∀ st, R st st) by done.
  assert (Htrans : ∀ a b c, R a b → R b c → R a c) by done.
  assert (Hreg' : ∀ st, I st → registered st.1).
  { intros st (Hf & Hp & _) p Hk. rewrite Hp in Hk.
    destruct Hf as (_ & -> & -> & _). by apply Hreg. }
  destruct (each_resolves
              (λ packagePath st,
                 each (λ f '(this, reads),
                         '(this, r) ← processPackageFile f.1 f.2 packagePath this;
                         Resolved (this, reads ++ [r]))
                   (zip_files_matching zip packagePath) st) I R
              (obj_keys (packageFiles this)) Hrefl Htrans)
    with (st := (this, (λ f, processContent f.1 f.2) <$> zip_files_matching zip "content/"))
    as ([this' reads] & E & (Hf & Hp & Hr) & _).
  - intros P st HP HI.
    destruct (each_resolves
                (λ f '(this, reads),
                   '(this, r) ← processPackageFile f.1 f.2 P this;
                   Resolved (this, reads ++ [r])) I R
                (zip_files_matching zip P) Hrefl Htrans) with (st := st)
      as (st' & E' & HI' & _); [|done|by exists st'].
    intros [name file] [st1 reads1] _ HI1.
    destruct (processPackageFile_resolves name file P st1) as (st2 & r & E2 & F2 & K2 & Hr2).
    { by apply (Hreg' (st1, reads1)). }
    { destruct HI1 as (_ & Hp1 & _). simpl in Hp1. by rewrite Hp1. }
    simpl. rewrite E2. simpl. eexists. split; [done|]. split; [|done].
    destruct HI1 as (Hf1 & Hp1 & Hr1). simpl in *. split_and!; cbn [fst snd].
    + by eapply files_frame_trans.
    + by rewrite K2.
    + apply Forall_app. split; [done|]. apply Forall_singleton.
      destruct r; simpl in *; try done; by rewrite <- Hp1.
  - split_and!; simpl; [apply files_frame_refl|done|].
    apply Forall_fmap, Forall_forall. intros [name file] _. simpl.
    unfold processContent. by destruct (decide _).
  - by exists this', reads.
Qed.

Lemma complete_resolves (r : read) (this : H5PRunner) :
  read_registered this r →
  ∃ this',
    complete r this = Resolved this' ∧
    files_frame this this' ∧
    obj_keys (packageFiles this') = obj_keys (packageFiles this).
Proof.
  intros Hr. destruct r as [c|k c|P k c|P k c]; simpl in Hr; cbn [complete].
  - eexists. by split_and!.
  - unfold createBlobUrl. rewrite createObjectURL_eq. eexists. by split_and!.
  - destruct (proj2 (obj_get_is_Some_keys (packageFiles this) P) Hr) as [files Hfiles].
    unfold set_packageFile. rewrite Hfiles. simpl. eexists.
    split_and!; [done|by unfold files_frame|]. simpl. by apply obj_keys_set_elem_of.
  - destruct (proj2 (obj_get_is_Some_keys (packageFiles this) P) Hr) as [files Hfiles].
    unfold createBlobUrl. rewrite createObjectURL_eq. unfold set_packageFile. simpl.
    rewrite Hfiles. simpl. eexists.
    split_and!; [done|by unfold files_frame|]. simpl. by apply obj_keys_set_elem_of.
Qed.

(** X8: [processFiles] does not reject when every package that has a
    resource map also has its lists of declared scripts and styles, which
    is how [setDependencies] leaves [this], in whatever order the reads
    complete: every entry of the archive can be read, and the only lookups
    that could fail are those of the lists.  It leaves the recorded
    dependencies, the lists, the sorted order and the keys of
    [packageFiles] as they are. *)
Theorem processFiles_resolves (completion : list read → list read) (zip : archive)
    (this : H5PRunner) :
  completion_order completion →
  registered this →
  ∃ this',
    processFiles completion zip this = Resolved this' ∧
    files_frame this this' ∧
    obj_keys (packageFiles this') = obj_keys (packageFiles this).
Proof.
  intros Hc Hreg. unfold processFiles.
  destruct (startFiles_resolves zip this Hreg) as (this1 & reads & -> & Hf1 & Hp1 & Hr1).
  rewrite bind_Resolved.
  assert (Hr : Forall (read_registered this) (completion reads)) by by rewrite (Hc reads).
  rewrite Forall_forall in Hr.
  destruct (each_resolves complete
              (λ st, obj_keys (packageFiles st) = obj_keys (packageFiles this))
              files_frame (completion reads) files_frame_refl files_frame_trans)
    with (st := this1) as (this' & E & Hk & Hf & _).
  - intros r st Hin Hk. destruct (complete_resolves r st) as (st' & E & F & K).
    + specialize (Hr r Hin). destruct r; simpl in *; try done; by rewrite Hk.
    + exists st'. split_and!; [done|congruence|done].
  - by rewrite Hp1.
  - exists this'. split_and!; [done| |done]. by eapply files_frame_trans.
Qed.

Lemma processFiles_resolves_witness :
  ∃ this', processFiles reverse content_archive content_sorted_state = Resolved this'.
Proof.
  assert (E0 : recurseDependencies 8 content_archive "h5p.json" true ∅ EmptyString
                 new_runner = Resolved content_walk_state) by (vm_compute; reflexivity).
  assert (E1 : setDependencies content_walk_state = Resolved content_sorted_state)
    by (vm_compute; reflexivity).
  destruct (sorted_state_valid content_archive _ _ _ E0 E1) as ((Hreg & _) & _).
  destruct (processFiles_resolves reverse content_archive content_sorted_state)
    as (this' & E & _); [intros l; apply reverse_Permutation|exact Hreg|].
  by exists this'.
Defined.

(** ** Names of entries *)

Lemma includes_prefix (needle s rest : string) :
  strip_prefix needle s = Some rest → includes needle s = true.
Proof. intros H. destruct s; simpl; by rewrite H. Qed.

Lemma remove_first_prefix (needle s rest : string) :
  strip_prefix needle s = Some rest → remove_first needle s = rest.
Proof. intros H. destruct s; simpl; by rewrite H. Qed.

Lemma substring_0_length_app (a b : string) :
  substring 0 (String.length a) (a +:+ b) = a.
Proof.
  induction a as [|x a IH]; app_simpl; simpl.
  - by destruct b.
  - by rewrite IH.
Qed.

Lemma substring_length_app (a b : string) (n : nat) :
  substring (String.length a) n (a +:+ b) = substring 0 n b.
Proof. induction a as [|x a IH]; app_simpl; simpl; [done|apply IH]. Qed.

Lemma has_tmp_suffix_app (p : string) : has_tmp_suffix (p +:+ "#tmp") = true.
Proof.
  unfold has_tmp_suffix. rewrite string_length_app. simpl.
  replace (String.length p + 4 - 4) with (String.length p) by lia.
  rewrite substring_length_app. by apply bool_decide_eq_true.
Qed.

Lemma blob_url_nonempty (n : nat) : blob_url n ≠ EmptyString.
Proof. unfold blob_url. by app_simpl. Qed.

(** What [H5P.getPath] does with a path that has the suffix [#tmp]. *)
Lemma getPath_tmp (this : H5PRunner) (originalGetPath : string → string → string)
    (p contentId : string) :
  getPath this originalGetPath (p +:+ "#tmp") contentId =
  let url := get_property (contentPaths this) p in
  if truthy url then url else Str (originalGetPath p contentId).
Proof.
  unfold getPath. rewrite has_tmp_suffix_app, string_length_app. simpl.
  replace (String.length p + 4 - 4) with (String.length p) by lia.
  by rewrite substring_0_length_app.
Qed.

Lemma truthy_blob_url (n : nat) : truthy (Str (blob_url n)) = true.
Proof.
  unfold truthy. apply negb_true_iff, bool_decide_eq_false, blob_url_nonempty.
Qed.

Lemma json_contents_Permutation (l1 l2 : list read) :
  l1 ≡ₚ l2 → json_contents l1 ≡ₚ json_contents l2.
Proof.
  induction 1 as [|r l1 l2 _ IH|r1 r2 l|l1 l2 l3 _ IH1 _ IH2].
  - done.
  - rewrite !json_contents_cons. by apply Permutation_app_head.
  - rewrite !json_contents_cons. apply Permutation_app_swap_app.
  - by etrans.
Qed.

(** ** The stores after [init] *)

(** The resource maps and [contentPaths] after [init], in whatever order
    the reads of the file pass completed. *)
Lemma init_stores (URL_pathname : string → string → option string)
    (prototype_text : string → string) (completion : list read → list read)
    (zip : archive) (this : H5PRunner) :
  completion_order completion →
  init URL_pathname prototype_text completion zip = Resolved this →
  (∀ P, P ∈ obj_keys (packageFiles this) ↔ recorded (dependencies this) P) ∧
  (∀ P files k, obj_get (packageFiles this) P = Some files →
     is_Some (files !! k) ↔ k ≠ "__proto__" ∧ ∃ f, package_entry zip P k f) ∧
  (∀ P files k v css, obj_get (packageFiles this) P = Some files →
     cssDependencies this !! P = Some css → k ∉ css → files !! k = Some v →
     ∃ f, package_entry zip P k f ∧ blob_of this v (text f.2)) ∧
  (∀ k, is_Some (contentPaths this !! k) ↔
        k ≠ "content.json" ∧ k ≠ "__proto__" ∧ ∃ f, content_entry zip k f) ∧
  (∀ k v, contentPaths this !! k = Some v →
          ∃ f, content_entry zip k f ∧ blob_of this v (text f.2)).
Proof.
  intros Hc (this0 & this1 & this2 & this3 & pc & pj & E0 & E1 & E2 & S3 & ->)%init_final.
  destruct (sorted_state_valid zip _ this0 this1 E0 E1)
    as (_ & Hd1 & Hkeys1 & _ & _ & Hempty & _).
  destruct (init_file_pass completion zip _ this0 this1 this2 Hc E0 E1 E2)
    as (Hvalid2 & S2 & Hcont & Hpack & _).
  destruct S2 as ((Hd2 & _) & K2 & _).
  destruct S3 as ((Hd3 & _ & Ecss3 & _) & C3 & _ & _ & _ & K3 & B3 & D3).
  destruct Hvalid2 as (_ & Hc2 & Hv2 & _).
  assert (Hblob : ∀ v c, blob_of this2 v c → blob_of this3 v c).
  { intros v c (n & -> & Hn). exists n. split; [done|]. by eapply prefix_lookup_Some. }
  simpl. split_and!.
  - intros P. by rewrite K3, K2, Hkeys1, Hd3, Hd2, Hd1.
  - intros P files3 k HP3.
    assert (is_Some (obj_get (packageFiles this2) P)) as [files2 HP2].
    { apply obj_get_is_Some_keys. rewrite <- K3. by eapply obj_get_Some_keys. }
    destruct (D3 P files2 HP2) as (files3' & HP3' & Hdom & _).
    rewrite HP3 in HP3'. injection HP3' as <-. rewrite Hdom. split.
    + intros [v Hv]. destruct (Hv2 P files2 k v HP2 Hv) as (? & f & ? & _).
      split; [done|]. by exists f.
    + intros (Hk & f & Hin & Hinc & <-).
      destruct (Hpack P f) as (Hs & _); [|done|done|].
      * rewrite <- K2. by eapply obj_get_Some_keys.
      * destruct (Hs Hk) as (files2' & HP2' & Hs').
        rewrite HP2 in HP2'. by injection HP2' as <-.
  - intros P files3 k v css HP3 Hcss Hk Hv.
    assert (is_Some (obj_get (packageFiles this2) P)) as [files2 HP2].
    { apply obj_get_is_Some_keys. rewrite <- K3. by eapply obj_get_Some_keys. }
    destruct (D3 P files2 HP2) as (files3' & HP3' & _ & Hsame).
    rewrite HP3 in HP3'. injection HP3' as <-.
    rewrite Hsame in Hv.
    2: { intros css'. rewrite <- Ecss3, Hcss. by intros [= <-]. }
    destruct (Hv2 _ files2 _ v HP2 Hv) as (_ & f & Hf & _ & Hb).
    exists f. split; [done|]. apply Hblob, Hb.
    intros (js' & css' & _ & Hcss' & _ & Hin'). rewrite <- Ecss3, Hcss in Hcss'.
    by injection Hcss' as <-.
  - intros k. rewrite C3. split.
    + intros [v Hv]. destruct (Hc2 k v Hv) as (? & ? & f & ? & _).
      split_and!; [done..|]. by exists f.
    + intros (Hj & Hp & f & Hin & Hinc & Hname).
      specialize (Hcont f Hin Hinc). rewrite Hname in Hcont. by apply Hcont.
  - intros k v. rewrite C3. intros Hv.
    destruct (Hc2 k v Hv) as (_ & _ & f & Hf & Hb). exists f. split; [done|].
    by apply Hblob.
Qed.

(** X9: after [init], in whatever order the reads of the file pass
    completed, [packageFiles] has a resource map for exactly the recorded
    packages, and the keys of the resource map of a package come from
    exactly the entries of the archive whose name contains the package
    path: the key is the name without the first occurrence of the path.
    The one name that gives no key is [__proto__]: the resource map is a
    plain object, and the assignment of a text to its [__proto__] stores
    nothing.  The path need not be at the start of the name, so that the
    entries of a package whose path ends like the path of another appear
    in the resource maps of both. *)
Theorem resource_map_entries (URL_pathname : string → string → option string)
    (prototype_text : string → string) (completion : list read → list read)
    (zip : archive) (this : H5PRunner) :
  completion_order completion →
  init URL_pathname prototype_text completion zip = Resolved this →
  (∀ P, P ∈ obj_keys (packageFiles this) ↔ recorded (dependencies this) P) ∧
  ∀ P files, obj_get (packageFiles this) P = Some files →
    ∀ k, is_Some (files !! k) ↔ k ≠ "__proto__" ∧ ∃ f, package_entry zip P k f.
Proof.
  intros Hc E.
  destruct (init_stores _ _ _ _ _ Hc E) as (Hkeys & Hfiles & _).
  split; [done|]. intros P files HP k. by apply Hfiles.
Qed.

(** X10: after [init], the [getLibraryFilePath] that the shim gives the
    content types reads the resource map of the library, a plain object.
    For a file of a recorded package that is not among the declared
    stylesheets of the package, and whose name is not [__proto__], it
    answers with a blob URL, and the blob holds the content of an archive
    entry stored under that name.  For a name for which the archive has
    no entry in the package, or for [__proto__], it answers with the
    member of [Object.prototype] of that name when there is one, and with
    [undefined] otherwise.  For a library that is not a recorded package
    it throws a [TypeError], since the lookup of the resource map is not
    guarded. *)
Theorem library_file_paths (URL_pathname : string → string → option string)
    (prototype_text : string → string) (completion : list read → list read)
    (zip : archive) (this : H5PRunner) :
  completion_order completion →
  init URL_pathname prototype_text completion zip = Resolved this →
  (∀ lib k css f,
     cssDependencies this !! (lib +:+ "/") = Some css → k ∉ css → k ≠ "__proto__" →
     package_entry zip (lib +:+ "/") k f →
     ∃ url f',
       getLibraryFilePath this lib k = Resolved (Str url) ∧
       isBlobUrl url = true ∧
       package_entry zip (lib +:+ "/") k f' ∧
       blob_of this url (text f'.2)) ∧
  (∀ lib k, recorded (dependencies this) (lib +:+ "/") →
     k = "__proto__" ∨ (∀ f, ¬ package_entry zip (lib +:+ "/") k f) →
     getLibraryFilePath this lib k
     = Resolved (if inherited k then Inherited k else Undefined)) ∧
  (∀ lib k, ¬ recorded (dependencies this) (lib +:+ "/") →
            getLibraryFilePath this lib k = Rejected TypeError).
Proof.
  intros Hc E.
  destruct (init_stores _ _ _ _ _ Hc E) as (Hkeys & Hfiles & Hblobs & _).
  unfold getLibraryFilePath. split_and!.
  - intros lib k css f Hcss Hk Hp Hf.
    assert (Hrec : recorded (dependencies this) (lib +:+ "/")).
    { destruct (init_final _ _ _ _ _ E)
        as (this0 & this1 & this2 & this3 & pc & pj & E0 & E1 & E2 & S3 & ->).
      destruct (sorted_state_valid zip _ this0 this1 E0 E1)
        as (_ & Hd1 & _ & _ & Hcss1 & _).
      destruct (init_file_pass completion zip _ this0 this1 this2 Hc E0 E1 E2)
        as (_ & ((Hd2 & _ & Ecss2 & _) & _) & _).
      destruct S3 as ((Hd3 & _ & Ecss3 & _) & _).
      simpl in *. rewrite Hd3, Hd2, Hd1. apply Hcss1.
      rewrite <- Ecss2, <- Ecss3, Hcss. by eexists. }
    destruct (proj2 (obj_get_is_Some_keys (packageFiles this) (lib +:+ "/")))
      as [files HP]; [by apply Hkeys|].
    rewrite HP. simpl.
    destruct (proj2 (Hfiles _ files k HP)) as [v Hv]; [split; [done|by exists f]|].
    destruct (Hblobs _ files k v css HP Hcss Hk Hv) as (f' & Hf' & Hb).
    rewrite (get_property_Some _ _ _ Hv).
    exists v, f'. split_and!; [done| |done..].
    destruct Hb as (n & -> & _). apply isBlobUrl_blob_url.
  - intros lib k Hrec Hno.
    destruct (proj2 (obj_get_is_Some_keys (packageFiles this) (lib +:+ "/")))
      as [files HP]; [by apply Hkeys|].
    rewrite HP. simpl. f_equal.
    assert (Hnone : files !! k = None).
    { destruct (files !! k) as [v|] eqn:Hv; [|done].
      destruct (proj1 (Hfiles _ files k HP)) as (Hp & f & Hf); [by eexists|].
      destruct Hno as [->|Hno]; [done|by destruct (Hno f)]. }
    unfold get_property. by rewrite Hnone.
  - intros lib k Hn.
    destruct (obj_get (packageFiles this) (lib +:+ "/")) as [files|] eqn:HP; [|done].
    destruct Hn. apply Hkeys. by eapply obj_get_Some_keys.
Qed.

(** X11: after [init], the [H5P.getPath] of the shim reads [contentPaths],
    a plain object.  For a file of the [content] folder other than
    [content.json], asked for by its path inside the folder, with or
    without the suffix [#tmp], and whose path is not [__proto__], it
    answers with a blob URL; the blob holds the content of an archive
    entry of that path.  A path for which [contentPaths] has no entry,
    because the archive has no such entry or because the path is
    [content.json] or [__proto__], is handed to the [H5P.getPath] that the
    shim replaced, unless it is the name of a member of
    [Object.prototype]: the shim then answers with that member. *)
Theorem content_paths_resolve (URL_pathname : string → string → option string)
    (prototype_text : string → string) (completion : list read → list read)
    (zip : archive) (this : H5PRunner)
    (originalGetPath : string → string → string) (contentId : string) :
  completion_order completion →
  init URL_pathname prototype_text completion zip = Resolved this →
  (∀ X file, ("content/" +:+ X, file) ∈ zip → X ≠ "content.json" → X ≠ "__proto__" →
     ∃ url f,
       isBlobUrl url = true ∧ content_entry zip X f ∧ blob_of this url (text f.2) ∧
       getPath this originalGetPath (X +:+ "#tmp") contentId = Str url ∧
       (has_tmp_suffix X = false → getPath this originalGetPath X contentId = Str url)) ∧
  (∀ p, has_tmp_suffix p = false →
        p = "content.json" ∨ p = "__proto__" ∨ (∀ f, ¬ content_entry zip p f) →
        getPath this originalGetPath p contentId
        = if inherited p then Inherited p else Str (originalGetPath p contentId)).
Proof.
  intros Hc E.
  destruct (init_stores _ _ _ _ _ Hc E) as (_ & _ & _ & Hcont & Hcblob).
  split.
  - intros X file Hin Hne Hp.
    destruct (proj2 (Hcont X)) as [v Hv].
    { split_and!; [done..|]. exists ("content/" +:+ X, file).
      split_and!; [done| |]; cbn [fst].
      - eapply includes_prefix, strip_prefix_app.
      - apply remove_first_prefix, strip_prefix_app. }
    destruct (Hcblob X v Hv) as (f & Hf & n & -> & Hn).
    exists (blob_url n), f. split_and!; [apply isBlobUrl_blob_url|done| | |].
    + by exists n.
    + rewrite getPath_tmp. cbn zeta. rewrite (get_property_Some _ _ _ Hv).
      by rewrite truthy_blob_url.
    + intros Htmp. unfold getPath. rewrite Htmp. cbn zeta.
      rewrite (get_property_Some _ _ _ Hv). by rewrite truthy_blob_url.
  - intros p Htmp Hno. unfold getPath. rewrite Htmp. cbn zeta.
    assert (Hnone : contentPaths this !! p = None).
    { destruct (contentPaths this !! p) as [v|] eqn:Hv; [|done].
      destruct (proj1 (Hcont p)) as (Hj & Hp & f & Hf); [by eexists|].
      destruct Hno as [->|[->|Hno]]; [done|done|by destruct (Hno f)]. }
    unfold get_property. rewrite Hnone. by destruct (inherited p).
Qed.

(** X12: after [init], [contentJson] is the raw text of a content
    descriptor.  The reads that the file pass starts include one for each
    entry of the archive whose name contains [content/] and is
    [content.json] once the first [content/] is removed, in the order of
    the archive; each callback assigns [contentJson], so that it ends as
    the text of the read that completes last.  It is the empty string
    when there is no such entry, the text of one of these entries
    otherwise, and the text of the last of them when the reads complete
    in the order in which they were started.  No blob is made for the
    descriptor: [contentPaths] has no entry [content.json]. *)
Theorem content_json_text (URL_pathname : string → string → option string)
    (prototype_text : string → string) (completion : list read → list read)
    (zip : archive) (this : H5PRunner) :
  completion_order completion →
  init URL_pathname prototype_text completion zip = Resolved this →
  (∃ reads, json_contents reads = content_json_texts zip ∧
     contentJson this = default EmptyString (last (json_contents (completion reads)))) ∧
  (content_json_texts zip = [] → contentJson this = EmptyString) ∧
  (content_json_texts zip ≠ [] → contentJson this ∈ content_json_texts zip) ∧
  ((∀ reads, completion reads = reads) →
   contentJson this = default EmptyString (last (content_json_texts zip))) ∧
  contentPaths this !! "content.json" = None.
Proof.
  intros Hc E.
  destruct (init_stores _ _ _ _ _ Hc E) as (_ & _ & _ & Hcont & _).
  destruct (init_final _ _ _ _ _ E)
    as (this0 & this1 & this2 & this3 & pc & pj & E0 & E1 & E2 & S3 & ->).
  destruct (init_file_pass completion zip _ this0 this1 this2 Hc E0 E1 E2)
    as (_ & _ & _ & _ & reads & Hreads & Hjson).
  destruct S3 as (_ & _ & J3 & _).
  unfold set_jsPlan, set_cssPlan in *. cbn [contentJson contentPaths] in *.
  rewrite J3.
  pose proof (json_contents_Permutation _ _ (Hc reads)) as Hperm.
  rewrite Hreads in Hperm.
  split_and!.
  - by exists reads.
  - intros Hnil. rewrite Hnil in Hperm. apply Permutation_nil_r in Hperm.
    by rewrite Hjson, Hperm.
  - intros Hne. rewrite Hjson.
    destruct (last (json_contents (completion reads))) as [c|] eqn:Hl.
    + simpl. rewrite <- Hperm. by eapply last_Some_elem_of.
    + apply last_None in Hl. rewrite Hl in Hperm.
      by apply Permutation_nil_l in Hperm.
  - intros Hid. by rewrite Hjson, Hid, Hreads.
  - destruct (contentPaths _ !! "content.json") as [v|] eqn:Hv; [|done].
    by destruct (proj1 (Hcont "content.json")) as (? & _); [by eexists|].
Qed.

(** X13: after [init], in whatever order the reads of the file pass
    completed, [loadedJs] holds exactly the names of the archive entries
    that are, for some package, among its declared scripts, and
    [loadedCss] exactly the names of those that are among its declared
    styles without being among its declared scripts; the name of an entry
    is compared without the first occurrence of the package path.  A file
    that a package declares as a script and as a stylesheet is listed for
    it as a script only. *)
Theorem loaded_files (URL_pathname : string → string → option string)
    (prototype_text : string → string) (completion : list read → list read)
    (zip : archive) (this : H5PRunner) :
  completion_order completion →
  init URL_pathname prototype_text completion zip = Resolved this →
  (∀ name, name ∈ loadedJs this ↔
     ∃ P js file, jsDependencies this !! P = Some js ∧ (name, file) ∈ zip ∧
                  includes P name = true ∧ remove_first P name ∈ js) ∧
  (∀ name, name ∈ loadedCss this ↔
     ∃ P file, (name, file) ∈ zip ∧ includes P name = true ∧
               stylesheet_of this P (remove_first P name)).
Proof.
  intros Hc (this0 & this1 & this2 & this3 & pc & pj & E0 & E1 & E2 & S3 & ->)%init_final.
  destruct (sorted_state_valid zip _ this0 this1 E0 E1)
    as (_ & _ & Hkeys1 & Hjs1 & _).
  destruct (init_file_pass completion zip _ this0 this1 this2 Hc E0 E1 E2)
    as (Hvalid2 & S2 & _ & Hpack & _).
  pose proof S2 as (F2 & _).
  pose proof S3 as (F3 & _ & _ & LJ3 & LC3 & _).
  destruct Hvalid2 as (_ & _ & _ & Hlj2 & Hlc2).
  assert (Hstyle : ∀ P k, stylesheet_of (set_jsPlan pj (set_cssPlan pc this3)) P k ↔
                          stylesheet_of this1 P k).
  { intros P k. etrans; [|by apply (stylesheet_of_frame this1 this2)].
    etrans; [|by apply (stylesheet_of_frame this2 this3)]. done. }
  assert (Ejs : jsDependencies this3 = jsDependencies this1).
  { destruct F2 as (_ & <- & _), F3 as (_ & <- & _). done. }
  simpl. rewrite LJ3, LC3. split.
  - intros name. split.
    + intros Hn. destruct (Hlj2 name Hn) as (P & js & file & _ & ? & ? & Hjs & ?).
      exists P, js, file. split_and!; [|done..].
      destruct F3 as (_ & -> & _). done.
    + intros (P & js & file & Hjs & Hin & Hinc & Hk). rewrite Ejs in Hjs.
      destruct (Hpack P (name, file)) as (_ & Hj & _); [|done|done|by apply (Hj js)].
      apply Hkeys1, Hjs1. by eexists.
  - intros name. split.
    + intros Hn. destruct (Hlc2 name Hn) as (P & file & _ & ? & ? & Hs).
      exists P, file. split_and!; [done..|].
      apply Hstyle. by apply (stylesheet_of_frame this1 this2).
    + intros (P & file & Hin & Hinc & Hs%Hstyle).
      destruct (Hpack P (name, file)) as (_ & _ & Hc'); [|done|done|by apply Hc'].
      destruct Hs as (js & _ & Hjs & _). apply Hkeys1, Hjs1. by eexists.
Qed.

(** The content descriptor that [init] keeps depends on the order in
    which the reads complete. *)
Lemma content_json_by_completion :
  contentJson (state_of (init example_pathname example_prototype_text id
                           two_descriptors_archive)) = "second" ∧
  contentJson (state_of (init example_pathname example_prototype_text reverse
                           two_descriptors_archive)) = "first".
Proof. split; vm_compute; reflexivity. Qed.

(** Entries named [__proto__] are not stored, and the shims answer with
    members of [Object.prototype] for names that have no entry. *)
Lemma inherited_names_in_the_shims :
  let this := state_of (init example_pathname example_prototype_text id proto_archive) in
  init example_pathname example_prototype_text id proto_archive = Resolved this ∧
  obj_get (packageFiles this) "A-1.0/" = Some (<["library.json" := "blob:1"]> ∅) ∧
  contentPaths this = ∅ ∧
  getLibraryFilePath this "A-1.0" "__proto__" = Resolved (Inherited "__proto__") ∧
  getLibraryFilePath this "A-1.0" "toString" = Resolved (Inherited "toString") ∧
  getPath this (λ path _, path) "constructor" "cid" = Inherited "constructor" ∧
  getPath this (λ path _, path) "images/none.png" "cid" = Str "images/none.png".
Proof. split_and!; vm_compute; reflexivity. Qed.

Lemma reverse_completion_order : completion_order reverse.
Proof. intros reads. apply reverse_Permutation. Qed.

Lemma content_state_init :
  init example_pathname example_prototype_text reverse content_archive
  = Resolved content_state.
Proof. vm_compute. reflexivity. Qed.

Lemma resource_map_entries_witness :
  ∃ files, obj_get (packageFiles content_state) "A-1.0/" = Some files ∧
           is_Some (files !! "img.png").
Proof.
  destruct (obj_get (packageFiles content_state) "A-1.0/") as [files|] eqn:Hfiles.
  - exists files. split; [reflexivity|].
    apply (proj2 (resource_map_entries _ _ _ _ _ reverse_completion_order
                    content_state_init) _ _ Hfiles).
    split; [discriminate|].
    exists ("A-1.0/img.png", {| text := "PNG"; parsed := None |}).
    split_and!; [|reflexivity..]. do 4 right. by left.
  - exfalso. vm_compute in Hfiles. discriminate Hfiles.
Defined.

Lemma library_file_paths_witness :
  ∃ url, getLibraryFilePath content_state "A-1.0" "img.png" = Resolved (Str url) ∧
         isBlobUrl url = true.
Proof.
  assert (Hcss : cssDependencies content_state !! "A-1.0/" = Some ["a.css"])
    by (vm_compute; reflexivity).
  destruct (proj1 (library_file_paths _ _ _ _ _ reverse_completion_order
                     content_state_init) "A-1.0" "img.png" ["a.css"]
              ("A-1.0/img.png", {| text := "PNG"; parsed := None |}))
    as (url & f' & Hget & Hblob & _).
  - exact Hcss.
  - intros [?|?%elem_of_nil]%elem_of_cons; done.
  - discriminate.
  - split_and!; [|reflexivity..]. do 4 right. by left.
  - exists url. split; [exact Hget|exact Hblob].
Defined.

Lemma content_paths_resolve_witness :
  ∃ url,
    getPath content_state (λ path _, path) "images/pic.png#tmp" "cid" = Str url ∧
    getPath content_state (λ path _, path) "images/pic.png" "cid" = Str url ∧
    isBlobUrl url = true.
Proof.
  destruct (proj1 (content_paths_resolve _ _ _ _ _ (λ path _, path) "cid"
                     reverse_completion_order content_state_init)
              "images/pic.png" {| text := "PIC"; parsed := None |})
    as (url & f & Hblob & _ & _ & Htmp & Hplain).
  - do 6 right. by left.
  - discriminate.
  - discriminate.
  - exists url. split_and!; [exact Htmp|apply Hplain; reflexivity|exact Hblob].
Defined.

Lemma content_json_text_witness :
  contentJson content_state ∈ ["{ }"].
Proof.
  destruct (content_json_text _ _ _ _ _ reverse_completion_order content_state_init)
    as (_ & _ & Hin & _).
  apply Hin. discriminate.
Defined.

Lemma loaded_files_witness :
  "A-1.0/a.js" ∈ loadedJs content_state.
Proof.
  assert (Hjs : jsDependencies content_state !! "A-1.0/" = Some ["a.js"])
    by (vm_compute; reflexivity).
  apply (proj1 (loaded_files _ _ _ _ _ reverse_completion_order content_state_init)).
  exists "A-1.0/", ["a.js"], {| text := "a()"; parsed := None |}.
  split_and!; [exact Hjs| |reflexivity|by left].
  do 2 right. by left.
Defined.

(** ** More on the ordered loader *)

Lemma inject_styles_offset (tier : nat) (urls : list js_value) :
  ∀ k n t f url,
    mjoin (imap (λ file url, [Loaded true tier (k + file); Inject true tier (k + file) url])
             urls) !! n = Some (Inject true t f url) →
    t = tier ∧ ∃ i, f = k + i ∧ n = 2 * i + 1 ∧ urls !! i = Some url.
Proof.
  induction urls as [|u urls IH]; intros k n t f url Hn; [done|].
  rewrite imap_cons in Hn. simpl in Hn.
  destruct n as [|[|n]]; simpl in Hn.
  - done.
  - injection Hn as <- <- <-. split; [done|]. exists 0. split_and!; [lia|done|done].
  - rewrite (imap_ext _ (λ file url, [Loaded true tier (S k + file);
                                      Inject true tier (S k + file) url])) in Hn.
    2: { intros i x _. simpl. by replace (k + S i) with (S (k + i)) by lia. }
    destruct (IH (S k) n t f url Hn) as (-> & i & -> & -> & Hi).
    split; [done|]. exists (S i). split_and!; [lia|lia|done].
Qed.

Lemma inject_styles_lookup (tier : nat) (urls : list js_value)
    (n t f : nat) (url : js_value) :
  inject_styles tier urls !! n = Some (Inject true t f url) →
  t = tier ∧ n = 2 * f + 1 ∧ urls !! f = Some url.
Proof.
  intros Hn. destruct (inject_styles_offset tier urls 0 n t f url Hn)
    as (-> & i & -> & -> & Hi). done.
Qed.

(** Where an injection is in the trace of its tier. *)
Lemma tier_run_inject (tier : nat) (urls : list js_value) (css : bool)
    (tr : list event) (o : outcome) (n t f : nat) (url : js_value) (c : bool) :
  tier_run tier urls css tr o →
  tr !! n = Some (Inject c t f url) →
  c = css ∧ t = tier ∧ urls !! f = Some url ∧ n = if css then 2 * f + 1 else f.
Proof.
  intros [|tr' o' Hs] Hn.
  - pose proof (list_elem_of_lookup_2 _ _ _ Hn) as Hin.
    apply inject_styles_elem_of in Hin as (f' & url' & _ & [?|[= -> _ _ _]]); [done|].
    apply inject_styles_lookup in Hn as (-> & -> & ?). done.
  - apply lookup_app_Some in Hn as [Hn|[_ Hn]].
    + apply inject_scripts_lookup in Hn as (url' & Hu & [= -> -> -> ->]). done.
    + apply list_elem_of_lookup_2 in Hn.
      by destruct (script_events_tier _ _ _ _ _ Hs _ Hn) as [f' [?|?]].
Qed.

(** In a completed tier every file has been injected. *)
Lemma tier_run_injected (tier : nat) (urls : list js_value) (css : bool)
    (tr : list event) (o : outcome) (f : nat) (url : js_value) :
  tier_run tier urls css tr o → urls !! f = Some url → Inject css tier f url ∈ tr.
Proof.
  intros [|tr' o' Hs] Hu.
  - apply inject_styles_elem_of. exists f, url. split; [done|by right].
  - apply elem_of_app. left. apply list_elem_of_lookup. exists f.
    unfold inject_scripts. by rewrite list_lookup_imap, Hu.
Qed.

(** Every injection of a chain is a file of the plan, at its tier and
    position, and it is made once. *)
Lemma loadDependencies_run_inject (css : bool) (tier : nat) (plan : list depMap)
    (tr : list event) (o : outcome) :
  loadDependencies_run css tier plan tr o →
  (∀ n c t f url, tr !! n = Some (Inject c t f url) →
     c = css ∧ tier ≤ t ∧
     ∃ d, plan !! (t - tier) = Some d ∧ Object_values (fileMap d) !! f = Some url) ∧
  (∀ n m c t f url url', tr !! n = Some (Inject c t f url) →
     tr !! m = Some (Inject c t f url') → n = m).
Proof.
  induction 1 as [|tier d rest tr1 tr2 o H1 H2 [IH1 IH2]|tier d rest tr1 o H1 _].
  - split; intros; done.
  - split.
    + intros n c t f url Hn. apply lookup_app_Some in Hn as [Hn|[_ Hn]].
      * destruct (tier_run_inject _ _ _ _ _ _ _ _ _ _ H1 Hn) as (-> & -> & Hu & _).
        split_and!; [done|done|]. exists d. by rewrite Nat.sub_diag.
      * destruct (IH1 _ _ _ _ _ Hn) as (-> & Hle & d' & Hd' & Hu).
        split_and!; [done|lia|]. exists d'. split; [|done].
        by replace (t - tier) with (S (t - S tier)) by lia.
    + intros n m c t f url url' Hn Hm.
      apply lookup_app_Some in Hn as [Hn|[Hlen Hn]];
        apply lookup_app_Some in Hm as [Hm|[Hlen' Hm]].
      * destruct (tier_run_inject _ _ _ _ _ _ _ _ _ _ H1 Hn) as (_ & _ & _ & ->).
        by destruct (tier_run_inject _ _ _ _ _ _ _ _ _ _ H1 Hm) as (_ & _ & _ & ->).
      * destruct (tier_run_inject _ _ _ _ _ _ _ _ _ _ H1 Hn) as (_ & -> & _).
        destruct (IH1 _ _ _ _ _ Hm) as (_ & ? & _). lia.
      * destruct (tier_run_inject _ _ _ _ _ _ _ _ _ _ H1 Hm) as (_ & -> & _).
        destruct (IH1 _ _ _ _ _ Hn) as (_ & ? & _). lia.
      * pose proof (IH2 _ _ _ _ _ _ _ Hn Hm). lia.
  - split.
    + intros n c t f url Hn.
      destruct (tier_run_inject _ _ _ _ _ _ _ _ _ _ H1 Hn) as (-> & -> & Hu & _).
      split_and!; [done|done|]. exists d. by rewrite Nat.sub_diag.
    + intros n m c t f url url' Hn Hm.
      destruct (tier_run_inject _ _ _ _ _ _ _ _ _ _ H1 Hn) as (_ & _ & _ & ->).
      by destruct (tier_run_inject _ _ _ _ _ _ _ _ _ _ H1 Hm) as (_ & _ & _ & ->).
Qed.

(** In a completed chain every file of the plan has been injected. *)
Lemma loadDependencies_run_injected (css : bool) (tier : nat) (plan : list depMap)
    (tr : list event) :
  loadDependencies_run css tier plan tr Completed →
  ∀ i d f url, plan !! i = Some d → Object_values (fileMap d) !! f = Some url →
    Inject css (tier + i) f url ∈ tr.
Proof.
  intros H. remember Completed as o eqn:Ho.
  induction H as [|tier d rest tr1 tr2 o H1 _ IH|tier d rest tr1 o H1 Hne];
    intros i d' f url Hi Hf; [done| |done].
  destruct i as [|i]; simpl in Hi.
  - injection Hi as <-. apply elem_of_app. left. rewrite Nat.add_0_r.
    by eapply tier_run_injected.
  - apply elem_of_app. right. replace (tier + S i) with (S tier + i) by lia.
    by eapply IH.
Qed.

(** A chain of styles has one run. *)
Lemma loadDependencies_run_styles (tier : nat) (plan : list depMap)
    (tr : list event) (o : outcome) :
  loadDependencies_run true tier plan tr o →
  o = Completed ∧ tr = styles_trace tier plan.
Proof.
  induction 1 as [|tier d rest tr1 tr2 o H1 _ [-> ->]|tier d rest tr1 o H1 Hne].
  - done.
  - inversion H1; subst. done.
  - inversion H1; subst. done.
Qed.

(** How the scripts of a tier end: an [error] event rejects, and a
    rejection comes from an [error] event. *)
Lemma script_events_end (tier n : nat) (loaded : list nat) (tr : list event) (o : outcome) :
  script_events tier n loaded tr o →
  (∀ t f, Failed t f ∈ tr → o = Aborted ScriptLoadFailure) ∧
  (∀ e, o = Aborted e → e = ScriptLoadFailure ∧ ∃ f, Failed tier f ∈ tr).
Proof.
  induction 1 as [| |loaded file tr o ? ? ? [IH1 IH2]|loaded file tr ? ? ?].
  - split; [by intros t f ?%elem_of_nil|done].
  - split; [by intros t f ?%elem_of_nil|done].
  - split.
    + intros t f [?|Hin]%elem_of_cons; [done|]. by eapply IH1.
    + intros e ->. destruct (IH2 e eq_refl) as (-> & f & Hl). split; [done|].
      exists f. by right.
  - split; [done|]. intros e [= <-]. split; [done|]. exists file. by left.
Qed.

Lemma script_settled_Failed (tier t f : nat) : script_settled tier (Failed t f) → t = tier.
Proof. by intros [f' [?|[= -> _]]]. Qed.

Lemma script_settled_Inject (tier : nat) (c : bool) (t f : nat) (url : js_value) :
  ¬ script_settled tier (Inject c t f url).
Proof. by intros [f' [?|?]]. Qed.

(** How a chain of scripts ends.  After the first [error] event nothing
    happens but [load] and [error] events of the tier of that script, and
    no element of a later tier was or is injected. *)
Lemma loadDependencies_run_end (tier : nat) (plan : list depMap)
    (tr : list event) (o : outcome) :
  loadDependencies_run false tier plan tr o →
  (∀ k t f, tr !! k = Some (Failed t f) →
     o = Aborted ScriptLoadFailure ∧
     (∀ m e, k < m → tr !! m = Some e → script_settled t e) ∧
     (∀ c t' f' url, Inject c t' f' url ∈ tr → t' ≤ t)) ∧
  (∀ e, o = Aborted e → e = ScriptLoadFailure ∧ ∃ t f, Failed t f ∈ tr).
Proof.
  induction 1 as [|tier d rest tr1 tr2 o H1 H2 [IH1 IH2]|tier d rest tr1 o H1 _].
  - split; intros; done.
  - assert (Hno : ∀ t f, Failed t f ∉ tr1).
    { intros t f Hin. inversion H1 as [|tr' o' Hs]; subst.
      apply elem_of_app in Hin as [Hin|Hin].
      - apply list_elem_of_lookup in Hin as [i Hi].
        by apply inject_scripts_lookup in Hi as (? & _ & ?).
      - by pose proof (proj1 (script_events_end _ _ _ _ _ Hs) _ _ Hin). }
    split.
    + intros k t f Hk. apply lookup_app_Some in Hk as [Hk|[Hlen Hk]].
      { by destruct (Hno t f (list_elem_of_lookup_2 _ _ _ Hk)). }
      destruct (IH1 _ _ _ Hk) as (-> & Hlate & Hinj). split_and!; [done| |].
      * intros m e Hm He. apply lookup_app_Some in He as [He|[Hlen' He]].
        { apply lookup_lt_Some in He. lia. }
        apply (Hlate (m - length tr1)); [lia|done].
      * intros c t' f' url [Hin|Hin]%elem_of_app; [|by eapply Hinj].
        pose proof (tier_run_tier _ _ _ _ _ H1 _ Hin) as [_ ->].
        destruct (loadDependencies_run_from _ _ _ _ _ H2 _ (list_elem_of_lookup_2 _ _ _ Hk))
          as (t0 & Hle & _ & ->). lia.
    + intros e ->. destruct (IH2 e eq_refl) as (-> & t & f & Hl). split; [done|].
      exists t, f. apply elem_of_app. by right.
  - inversion H1 as [|tr' o' Hs]; subst. split.
    + intros k t f Hk. apply lookup_app_Some in Hk as [Hk|[Hlen Hk]].
      { by apply inject_scripts_lookup in Hk as (? & _ & ?). }
      pose proof (list_elem_of_lookup_2 _ _ _ Hk) as Hin.
      pose proof (proj1 (script_events_end _ _ _ _ _ Hs) _ _ Hin) as ->.
      pose proof (script_settled_Failed _ _ _ (script_events_tier _ _ _ _ _ Hs _ Hin)) as ->.
      split_and!; [done| |].
      * intros m e Hm He. apply lookup_app_Some in He as [He|[Hlen' He]].
        { apply lookup_lt_Some in He. lia. }
        by eapply script_events_tier, list_elem_of_lookup_2.
      * intros c t' f' url Hin'.
        by pose proof (tier_run_tier _ _ _ _ _ H1 _ Hin') as [_ ->].
    + intros e ->. destruct (proj2 (script_events_end _ _ _ _ _ Hs) e eq_refl)
        as (-> & f & Hl). split; [done|]. exists tier, f. apply elem_of_app. by right.
Qed.

Lemma initH5P_run_inv (this : H5PRunner) (tr : list event) (o : outcome) :
  initH5P_run this tr o →
  ∃ trj oj,
    loadDependencies_run true 0 (cssPlan this) (styles_trace 0 (cssPlan this)) Completed ∧
    loadDependencies_run false 0 (jsPlan this) trj oj ∧
    (oj ≠ Completed ∧ o = oj ∧ tr = styles_trace 0 (cssPlan this) ++ trj ∨
     oj = Completed ∧ o = Completed ∧
     tr = styles_trace 0 (cssPlan this) ++ trj ++ [H5P_init]).
Proof.
  intros [trc o' Hc Hne|trc trj o' Hc Hj Hne|trc trj Hc Hj].
  - by destruct (loadDependencies_run_styles _ _ _ _ Hc) as [-> _].
  - destruct (loadDependencies_run_styles _ _ _ _ Hc) as [_ ->].
    exists trj, o'. split_and!; [done|done|]. left. done.
  - destruct (loadDependencies_run_styles _ _ _ _ Hc) as [_ ->].
    exists trj, Completed. split_and!; [done|done|]. right. done.
Qed.

Lemma example_run : initH5P_run example_plans example_trace Completed.
Proof.
  apply (initH5P_started example_plans (take 2 example_trace) (take 6 (drop 2 example_trace))).
  - apply (loadDependencies_next true 0 _ [] (take 2 example_trace) [] Completed).
    + apply tier_styles.
    + constructor.
  - apply (loadDependencies_next false 0 _ _ (take 4 (drop 2 example_trace))
             (take 2 (drop 6 example_trace)) Completed).
    + apply (tier_scripts 0 [Str "blob:1"; Str "blob:2"]
               [Loaded false 0 1; Loaded false 0 0]).
      apply script_events_load; [simpl; lia|by intros ?%elem_of_nil|].
      apply script_events_load; [simpl; lia| |].
      * intros [?|?%elem_of_nil]%elem_of_cons; done.
      * apply script_events_all. intros file Hfile. simpl in Hfile.
        destruct file as [|[|file]]; [by left|right; by left|lia].
    + apply (loadDependencies_next false 1 _ [] (take 2 (drop 6 example_trace)) [] Completed).
      * apply (tier_scripts 1 [Str "blob:3"] [Loaded false 1 0]).
        apply script_events_load; [simpl; lia|by intros ?%elem_of_nil|].
        apply script_events_all. intros file Hfile. simpl in Hfile.
        destruct file as [|file]; [by left|lia].
      * constructor.
Qed.

Lemma failing_run :
  initH5P_run example_plans failing_trace (Aborted ScriptLoadFailure).
Proof.
  apply (initH5P_scripts_stop example_plans (take 2 failing_trace) (drop 2 failing_trace));
    [|  |done].
  - apply (loadDependencies_next true 0 _ [] (take 2 failing_trace) [] Completed).
    + apply tier_styles.
    + constructor.
  - apply loadDependencies_stop; [|done].
    apply (tier_scripts 0 [Str "blob:1"; Str "blob:2"]
             [Failed 0 0; Loaded false 0 1]).
    apply script_events_error; [simpl; lia|by intros ?%elem_of_nil|].
    apply late_events_load; [simpl; lia| |apply late_events_end].
    intros [?|?%elem_of_nil]%elem_of_cons; done.
Qed.

(** X14: the stylesheets cannot make a load fail or hang.  Whatever
    happens to the scripts, a run of [initH5P] begins with the whole style
    plan, each link element appended right after its promise has resolved,
    and goes on with events of scripts only; if the load is rejected, it
    is by the [error] event of a script. *)
Theorem styles_always_load (this : H5PRunner) (tr : list event) (o : outcome) :
  initH5P_run this tr o →
  (∃ rest, tr = styles_trace 0 (cssPlan this) ++ rest ∧
           ∀ e, e ∈ rest → ¬ event_from_tier true 0 e) ∧
  (∀ e, o = Aborted e → e = ScriptLoadFailure).
Proof.
  intros (trj & oj & _ & Hj & Hcase)%initH5P_run_inv.
  assert (Hscripts : ∀ e, e ∈ trj → ¬ event_from_tier true 0 e).
  { intros e He (t & _ & Ht).
    destruct (loadDependencies_run_from _ _ _ _ _ Hj e He) as (t' & _ & Ht').
    destruct e; simpl in *.
    - destruct Ht as [-> _]. by destruct Ht'.
    - destruct Ht as [-> _]. by destruct Ht'.
    - by destruct Ht.
    - done. }
  destruct Hcase as [(Hne & -> & ->)|(-> & -> & ->)].
  - split.
    + by exists trj.
    + intros e ->. by destruct (proj2 (loadDependencies_run_end _ _ _ _ Hj) e eq_refl).
  - split; [|done]. exists (trj ++ [H5P_init]). split; [done|].
    intros e [He| ->%list_elem_of_singleton]%elem_of_app; [by apply Hscripts|].
    by intros (t & _ & ?).
Qed.

(** X15: [H5P.init()] is called exactly when both chains have resolved:
    it is in the trace of a run if and only if the run completes, and then
    it is the last event and the only call, made after every stylesheet
    and every script of the plans has loaded.  A script that fails or
    never loads means that [H5P.init()] is never called. *)
Theorem H5P_init_when_loaded (this : H5PRunner) (tr : list event) (o : outcome) :
  initH5P_run this tr o →
  (H5P_init ∈ tr ↔ o = Completed) ∧
  (o = Completed →
   ∃ tr', tr = tr' ++ [H5P_init] ∧ (H5P_init ∉ tr') ∧
     ∀ css i d file, plan_of this css !! i = Some d →
       file < length (Object_values (fileMap d)) → Loaded css i file ∈ tr').
Proof.
  intros (trj & oj & Hc & Hj & Hcase)%initH5P_run_inv.
  assert (Hno : H5P_init ∉ styles_trace 0 (cssPlan this) ++ trj).
  { intros [He|He]%elem_of_app.
    - by destruct (loadDependencies_run_from _ _ _ _ _ Hc _ He) as (t & _ & ?).
    - by destruct (loadDependencies_run_from _ _ _ _ _ Hj _ He) as (t & _ & ?). }
  destruct Hcase as [(Hne & -> & ->)|(-> & -> & ->)].
  - split; [|done]. split; [done|]. by intros ->.
  - split.
    + split; [done|]. intros _. rewrite (assoc_L (++)). apply elem_of_app. right. by left.
    + intros _. exists (styles_trace 0 (cssPlan this) ++ trj).
      split_and!; [by rewrite (assoc_L (++))|done|].
      intros css i d file Hd Hf. apply elem_of_app. destruct css; simpl in Hd.
      * left. by apply (loadDependencies_run_completed _ _ _ _ Hc i d file).
      * right. by apply (loadDependencies_run_completed _ _ _ _ Hj i d file).
Qed.

(** X16: the [error] event of a script rejects the load, with the
    failure of the script, and nothing removes the elements that are
    already injected: after the [error] event the other scripts of the
    same tier may still load or fail, and nothing else happens.  No
    element of a later tier is ever injected and [H5P.init()] is not
    called.  Conversely a rejected run has the [error] event of a
    script. *)
Theorem script_failure_stops_the_load (this : H5PRunner) (tr : list event) (o : outcome) :
  initH5P_run this tr o →
  (∀ n t f, tr !! n = Some (Failed t f) →
     o = Aborted ScriptLoadFailure ∧
     (H5P_init ∉ tr) ∧
     (∀ css t' f' url, Inject css t' f' url ∈ tr → css = true ∨ t' ≤ t) ∧
     (∀ m e, n < m → tr !! m = Some e → script_settled t e)) ∧
  (∀ e, o = Aborted e → e = ScriptLoadFailure ∧ ∃ t f, Failed t f ∈ tr).
Proof.
  intros (trj & oj & Hc & Hj & Hcase)%initH5P_run_inv.
  destruct (loadDependencies_run_end _ _ _ _ Hj) as [Hfail Hlast].
  assert (Hcss : ∀ e, e ∈ styles_trace 0 (cssPlan this) → event_from_tier true 0 e).
  { intros e He. by apply (loadDependencies_run_from _ _ _ _ _ Hc). }
  assert (Hjs : ∀ e, e ∈ trj → event_from_tier false 0 e).
  { intros e He. by apply (loadDependencies_run_from _ _ _ _ _ Hj). }
  assert (Hat : ∀ n t f,
            (styles_trace 0 (cssPlan this) ++ trj) !! n = Some (Failed t f) →
            length (styles_trace 0 (cssPlan this)) ≤ n ∧
            trj !! (n - length (styles_trace 0 (cssPlan this))) = Some (Failed t f)).
  { intros n t f Hn. apply lookup_app_Some in Hn as [Hn|[Hlen Hn]]; [|done].
    by destruct (Hcss _ (list_elem_of_lookup_2 _ _ _ Hn)) as (t' & _ & ? & _). }
  destruct Hcase as [(Hne & -> & ->)|(-> & -> & ->)].
  - split.
    + intros n t f Hn. destruct (Hat n t f Hn) as [Hlen Hn'].
      destruct (Hfail _ _ _ Hn') as (-> & Hlate & Hinj). split_and!; [done| | |].
      * intros [He|He]%elem_of_app.
        -- by destruct (Hcss _ He) as (t' & _ & ?).
        -- by destruct (Hjs _ He) as (t' & _ & ?).
      * intros css t' f' url [He|He]%elem_of_app.
        -- left. by destruct (Hcss _ He) as (t0 & _ & ? & _).
        -- right. by eapply Hinj.
      * intros m e Hm He. apply lookup_app_Some in He as [He|[Hlen' He]].
        { apply lookup_lt_Some in He. lia. }
        apply (Hlate (m - length (styles_trace 0 (cssPlan this)))); [lia|done].
    + intros e ->. destruct (Hlast e eq_refl) as (-> & t & f & Hl). split; [done|].
      exists t, f. apply elem_of_app. by right.
  - split; [|done]. intros n t f Hn. rewrite (assoc_L (++)) in Hn.
    apply lookup_app_Some in Hn as [Hn|[Hlen Hn]].
    + destruct (Hat n t f Hn) as [_ Hn']. by destruct (Hfail _ _ _ Hn').
    + by destruct (n - _) as [|[|?]].
Qed.

(** X17: the loader injects the plans and nothing else.  Every element
    that a run of [initH5P] injects carries the URL that the plan of its
    chain has at its tier and position; no file is injected twice; and in
    a run that completes every file of both plans has been injected. *)
Theorem injected_elements_are_the_plans (this : H5PRunner) (tr : list event) (o : outcome) :
  initH5P_run this tr o →
  (∀ css t f url, Inject css t f url ∈ tr →
     ∃ d, plan_of this css !! t = Some d ∧ Object_values (fileMap d) !! f = Some url) ∧
  (∀ n m css t f url url', tr !! n = Some (Inject css t f url) →
     tr !! m = Some (Inject css t f url') → n = m) ∧
  (o = Completed →
   ∀ css t d f url, plan_of this css !! t = Some d →
     Object_values (fileMap d) !! f = Some url → Inject css t f url ∈ tr).
Proof.
  intros (trj & oj & Hc & Hj & Hcase)%initH5P_run_inv.
  destruct (loadDependencies_run_inject _ _ _ _ _ Hc) as [Hc1 Hc2].
  destruct (loadDependencies_run_inject _ _ _ _ _ Hj) as [Hj1 Hj2].
  set (trc := styles_trace 0 (cssPlan this)) in *.
  assert (Hin : ∀ n css t f url, (trc ++ trj) !! n = Some (Inject css t f url) →
            (css = true ∧ trc !! n = Some (Inject css t f url)) ∨
            (css = false ∧ length trc ≤ n ∧
             trj !! (n - length trc) = Some (Inject css t f url))).
  { intros n css t f url Hn. apply lookup_app_Some in Hn as [Hn|[Hlen Hn]].
    - left. by destruct (Hc1 _ _ _ _ _ Hn) as (-> & _).
    - right. by destruct (Hj1 _ _ _ _ _ Hn) as (-> & _). }
  assert (Hplan : ∀ css t f url, Inject css t f url ∈ trc ++ trj →
            ∃ d, plan_of this css !! t = Some d ∧ Object_values (fileMap d) !! f = Some url).
  { intros css t f url [n Hn]%list_elem_of_lookup.
    destruct (Hin _ _ _ _ _ Hn) as [[-> Hn']|(-> & _ & Hn')].
    - destruct (Hc1 _ _ _ _ _ Hn') as (_ & _ & d & Hd & Hu).
      exists d. by rewrite Nat.sub_0_r in Hd.
    - destruct (Hj1 _ _ _ _ _ Hn') as (_ & _ & d & Hd & Hu).
      exists d. by rewrite Nat.sub_0_r in Hd. }
  assert (Honce : ∀ n m css t f url url', (trc ++ trj) !! n = Some (Inject css t f url) →
            (trc ++ trj) !! m = Some (Inject css t f url') → n = m).
  { intros n m css t f url url' Hn Hm.
    destruct (Hin _ _ _ _ _ Hn) as [[-> Hn']|(-> & ? & Hn')];
      destruct (Hin _ _ _ _ _ Hm) as [[? Hm']|(? & ? & Hm')]; try done.
    - by eapply Hc2.
    - pose proof (Hj2 _ _ _ _ _ _ _ Hn' Hm'). lia. }
  destruct Hcase as [(Hne & -> & ->)|(-> & -> & ->)].
  - split_and!; [done|done|]. by intros ->.
  - rewrite (assoc_L (++)). split_and!.
    + intros css t f url [He|[=]%list_elem_of_singleton]%elem_of_app. by apply Hplan.
    + intros n m css t f url url' Hn Hm.
      apply lookup_app_Some in Hn as [Hn|[_ Hn]]; [|by destruct (n - _) as [|[|?]]].
      apply lookup_app_Some in Hm as [Hm|[_ Hm]]; [|by destruct (m - _) as [|[|?]]].
      by eapply Honce.
    + intros _ css t d f url Hd Hu. apply elem_of_app. left. apply elem_of_app.
      destruct css; simpl in Hd.
      * left. by apply (loadDependencies_run_injected _ _ _ _ Hc t d f url).
      * right. by apply (loadDependencies_run_injected _ _ _ _ Hj t d f url).
Qed.

Lemma styles_always_load_witness :
  ∃ rest, failing_trace = [Loaded true 0 0; Inject true 0 0 (Str "blob:0")] ++ rest.
Proof.
  destruct (styles_always_load example_plans failing_trace _ failing_run)
    as [(rest & Hrest & _) _].
  by exists rest.
Defined.

Lemma H5P_init_when_loaded_witness :
  H5P_init ∈ example_trace ∧ H5P_init ∉ failing_trace.
Proof.
  split.
  - by apply (H5P_init_when_loaded example_plans example_trace Completed example_run).
  - intros Hin.
    by apply (H5P_init_when_loaded example_plans failing_trace _ failing_run) in Hin.
Defined.

Lemma script_failure_stops_the_load_witness :
  (H5P_init ∉ failing_trace) ∧ script_settled 0 (Loaded false 0 1).
Proof.
  destruct (proj1 (script_failure_stops_the_load example_plans failing_trace _
                     failing_run) 4 0 0 eq_refl) as (_ & Hinit & _ & Hlate).
  split; [exact Hinit|]. apply (Hlate 5); [lia|reflexivity].
Defined.

Lemma injected_elements_are_the_plans_witness :
  Inject false 1 0 (Str "blob:3") ∈ example_trace.
Proof.
  destruct (injected_elements_are_the_plans example_plans example_trace _ example_run)
    as (_ & _ & Hall).
  apply (Hall eq_refl false 1
           {| dependency := "A-1.0/"; fileMap := [("a.js", Str "blob:3")] |} 0);
    reflexivity.
Defined.

(** ** The user data shims together *)

Section userStore.

Context {value exn store : Type}.
Variable JSON_stringify : value → exn + option string.
Variable lodash_set : store → string → string → option string → store.
Variable lodash_get : store → string → string → option string.
Variable lodash_unset : store → string → string → store.

(** What the store of lodash paths gives: a path that was set reads as
    the value set, and a path that was unset reads as [undefined]. *)
Hypothesis get_set : ∀ st sub id v, lodash_get (lodash_set st sub id v) sub id = v.
Hypothesis get_unset : ∀ st sub id, lodash_get (lodash_unset st sub id) sub id = None.

(** X18: what [setUserData] has stored, [getUserData] hands to [done]
    under the same data id and sub-content id, whatever the content ids of
    the two calls: the serialized text of the data and not the data, and
    [null] if that text is [RESET].  After [deleteUserData] for the same
    ids [getUserData] hands over [undefined]; [deleteUserData] signals a
    state update like [setUserData] does. *)
Theorem user_data_round_trip (contentId contentId' dataId : string) (d : value)
    (o : UserData.options) (s : @UserData.self exn store) (text : option string) :
  JSON_stringify d = inr text →
  let s' := UserData.setUserData JSON_stringify lodash_set contentId dataId d o s in
  let s'' := UserStore.deleteUserData lodash_unset contentId' dataId
               (UserData.subContentId o) s' in
  UserStore.getUserData lodash_get contentId' dataId (UserData.subContentId o) s'
    = (if decide (text = Some "RESET") then UserStore.Null else UserStore.Data text) ∧
  UserStore.getUserData lodash_get contentId dataId (UserData.subContentId o) s''
    = UserStore.Data None ∧
  UserData.calls s'' =
    UserData.calls s ++ [UserData.StateUpdated; UserData.StateUpdated].
Proof.
  intros Htext s' s''. subst s' s''.
  unfold UserData.setUserData, UserStore.getUserData, UserStore.deleteUserData.
  rewrite Htext. simpl. split_and!.
  - by rewrite get_set.
  - rewrite get_unset. by rewrite decide_False.
  - by rewrite <- (assoc_L (++)).
Qed.

End userStore.

Lemma user_data_round_trip_witness :
  UserStore.getUserData example_get "c2" "state" "0"
    (UserData.setUserData example_stringify example_set "c1" "state" (Some "{}")
       UserData.default_options {| UserData.data := []; UserData.calls := [] |})
  = UserStore.Data (Some "{}").
Proof.
  assert (Hgs : ∀ st sub id v, example_get (example_set st sub id v) sub id = v).
  { intros st sub id v. simpl. by rewrite decide_True. }
  assert (Hgu : ∀ st sub id, example_get (example_unset st sub id) sub id = None).
  { intros st sub id. simpl. by rewrite decide_True. }
  destruct (user_data_round_trip example_stringify example_set example_get example_unset
              Hgs Hgu "c1" "c2" "state" (Some "{}") UserData.default_options
              {| UserData.data := []; UserData.calls := [] |} (Some "{}") eq_refl)
    as (Hget & _ & _).
  exact Hget.
Defined.

(** ** The xAPI listener: what is sent *)

Section xapi_listener.

Local Open Scope Z_scope.

Variable XAPIVerbMap : string → option string.

(** A call of a debounced handler passes on nothing but its own
    arguments, and leaves nothing else pending. *)
Lemma debounced_call_sent (wait maxWait time : Z) (args : XAPI.statement)
    (d d' : XAPI.debounced) (out : list XAPI.statement) :
  XAPI.debounced_call wait maxWait time args d = (d', out) →
  (∀ a, a ∈ out → a = args) ∧ (∀ a, XAPI.lastArgs d' = Some a → a = args).
Proof.
  unfold XAPI.debounced_call, XAPI.leadingEdge, XAPI.invokeFunc.
  destruct (XAPI.shouldInvoke wait maxWait time d); simpl;
    destruct (XAPI.timerId d); simpl; intros [= <- <-]; simpl; split;
    try (by intros a ?%elem_of_nil); try (by intros a [= <-]); try done;
    by intros a ->%list_elem_of_singleton.
Qed.

(** The timer passes on nothing but the pending arguments. *)
Lemma timerExpired_sent (wait maxWait time : Z) (d d' : XAPI.debounced)
    (out : list XAPI.statement) :
  XAPI.timerExpired wait maxWait time d = (d', out) →
  (∀ a, a ∈ out → XAPI.lastArgs d = Some a) ∧
  (∀ a, XAPI.lastArgs d' = Some a → XAPI.lastArgs d = Some a).
Proof.
  unfold XAPI.timerExpired, XAPI.trailingEdge, XAPI.invokeFunc.
  destruct (XAPI.shouldInvoke wait maxWait time d); simpl.
  - destruct (XAPI.lastArgs d) as [a0|] eqn:Ea; simpl; intros [= <- <-]; simpl; split;
      try done; try (by intros a ?%elem_of_nil).
    by intros a ->%list_elem_of_singleton.
  - intros [= <- <-]. simpl. split; [by intros a ?%elem_of_nil|done].
Qed.

(** Whatever holds of the pending statements and of the statements of
    the events that are not on the deny list holds of every report. *)
Lemma run_reports (Q : XAPI.statement → Prop) (inputs : list XAPI.input) :
  ∀ clock handlers reports,
    XAPI.run XAPIVerbMap inputs clock handlers = Some reports →
    (∀ k d a, handlers !! k = Some d → XAPI.lastArgs d = Some a → Q a) →
    (∀ i s, i ∈ inputs → statement_of i = Some s →
            XAPI.denied XAPIVerbMap (XAPI.verb s) = false → Q s) →
    ∀ r, r ∈ reports → Q r.2.
Proof.
  induction inputs as [|i inputs IH]; intros clock handlers reports Hrun Hpending Hevents.
  - injection Hrun as <-. by intros r ?%elem_of_nil.
  - destruct i as [time s|time key]; simpl in Hrun.
    + case_decide; [|done].
      destruct (XAPI.dispatch XAPIVerbMap time s handlers) as [handlers' sent] eqn:Hd.
      destruct (XAPI.run XAPIVerbMap inputs time handlers') as [reports'|] eqn:Hrest;
        [|done].
      simpl in Hrun. injection Hrun as <-.
      assert (Hsent : (∀ a, a ∈ sent → Q a) ∧
                      ∀ k d a, handlers' !! k = Some d → XAPI.lastArgs d = Some a → Q a).
      { unfold XAPI.dispatch in Hd.
        destruct (XAPI.denied XAPIVerbMap (XAPI.verb s)) eqn:Hlog.
        - injection Hd as <- <-. split; [by intros a ?%elem_of_nil|done].
        - assert (HQ : Q s) by (apply (Hevents (XAPI.Xapi time s)); [by left|done|done]).
          destruct (handlers !! XAPI.verb s) as [d|] eqn:Hh.
          + destruct (XAPI.debounced_call _ _ time s d) as [d' out] eqn:Hc.
            injection Hd as <- <-.
            destruct (debounced_call_sent _ _ _ _ _ _ _ Hc) as [Ho Hp]. split.
            * by intros a ->%Ho.
            * intros k d0 a [[<- <-]|[? Hk]]%lookup_insert_Some Ha.
              -- by rewrite (Hp a Ha).
              -- by eapply Hpending.
          + injection Hd as <- <-. split; [|done].
            by intros a ->%list_elem_of_singleton. }
      destruct Hsent as [Hsent Hpending'].
      intros r [(a & -> & Ha)%list_elem_of_fmap|Hr]%elem_of_app; [by apply Hsent|].
      eapply IH; [done|done| |done].
      intros i s' Hi. apply Hevents. by right.
    + case_decide; [|done].
      destruct (handlers !! key) as [d|] eqn:Hh; [|done]. simpl in Hrun.
      destruct (XAPI.timerId d) as [due|]; [|done]. simpl in Hrun.
      case_decide; [|done].
      destruct (XAPI.timerExpired _ _ time d) as [d' out] eqn:He.
      destruct (XAPI.run XAPIVerbMap inputs time _) as [reports'|] eqn:Hrest; [|done].
      simpl in Hrun. injection Hrun as <-.
      destruct (timerExpired_sent _ _ _ _ _ _ He) as [Ho Hp].
      intros r [(a & -> & Ha)%list_elem_of_fmap|Hr]%elem_of_app.
      * simpl. by eapply Hpending, Ho.
      * eapply IH; [done| |  |done].
        -- intros k d0 a [[<- <-]|[? Hk]]%lookup_insert_Some Ha.
           ++ by eapply Hpending, Hp.
           ++ by eapply Hpending.
        -- intros i s' Hi. apply Hevents. by right.
Qed.

Lemma debouncedHandlers_new (k : string) (d : XAPI.debounced) :
  XAPI.debouncedHandlers XAPIVerbMap !! k = Some d → d = XAPI.debounce_new.
Proof.
  unfold XAPI.debouncedHandlers, XAPI.debounceVerbs. simpl.
  intros [[_ <-]|[_ [[_ <-]|[_ ?]]%lookup_insert_Some]]%lookup_insert_Some; done.
Qed.

Lemma denied_false (id : string) :
  XAPI.denied XAPIVerbMap id = false →
  (id ∉ XAPI.doNotLogVerbMap XAPIVerbMap) ∧ inherited id = false.
Proof.
  unfold XAPI.denied. intros [H1 H2]%orb_false_iff. split; [|done].
  by apply bool_decide_eq_false in H1.
Qed.

(** X19: the deny list wins.  Whatever events arrive and whenever the
    timers of the debounced handlers fire, every statement that the
    listener sends is the statement of an event of the run, and its verb
    is not on the deny list: a statement of a denied verb is never sent,
    not even when its verb is one of the debounced verbs.  Nor is a
    statement sent whose verb is the name of a member of
    [Object.prototype], which the read of the deny list finds. *)
Theorem denied_verbs_are_never_sent (inputs : list XAPI.input) (clock : Z)
    (reports : list (Z * XAPI.statement)) :
  XAPI.run XAPIVerbMap inputs clock (XAPI.debouncedHandlers XAPIVerbMap) = Some reports →
  ∀ r, r ∈ reports →
    (XAPI.verb r.2 ∉ XAPI.doNotLogVerbMap XAPIVerbMap) ∧
    (∃ i, i ∈ inputs ∧ statement_of i = Some r.2) ∧
    XAPI.denied XAPIVerbMap (XAPI.verb r.2) = false.
Proof.
  intros Hrun.
  apply (run_reports (λ s, (XAPI.verb s ∉ XAPI.doNotLogVerbMap XAPIVerbMap) ∧
                           (∃ i, i ∈ inputs ∧ statement_of i = Some s) ∧
                           XAPI.denied XAPIVerbMap (XAPI.verb s) = false)
           inputs clock _ reports Hrun).
  - intros k d a Hk Ha. apply debouncedHandlers_new in Hk. by subst d.
  - intros i s Hi Hs Hlog. split_and!; [by apply denied_false|by exists i|done].
Qed.


(** A verb whose id is the name of a member of [Object.prototype] is
    denied, whatever the deny list holds. *)
Lemma inherited_verbs_are_denied (time : Z) (s : XAPI.statement)
    (handlers : gmap string XAPI.debounced) :
  inherited (XAPI.verb s) = true →
  XAPI.dispatch XAPIVerbMap time s handlers = (handlers, []).
Proof.
  intros Hi. unfold XAPI.dispatch, XAPI.denied. rewrite Hi.
  by rewrite orb_true_r.
Qed.

End xapi_listener.

Lemma denied_verbs_are_never_sent_witness :
  ∃ reports,
    XAPI.run example_verbs denied_events 0 (XAPI.debouncedHandlers example_verbs)
      = Some reports ∧
    ∀ r, r ∈ reports → XAPI.verb r.2 ∉ XAPI.doNotLogVerbMap example_verbs.
Proof.
  eexists.
  eassert (Hrun : XAPI.run example_verbs denied_events 0
                    (XAPI.debouncedHandlers example_verbs) = Some _)
    by (vm_compute; reflexivity).
  split; [exact Hrun|].
  intros r Hr.
  exact (proj1 (denied_verbs_are_never_sent example_verbs _ _ _ Hrun r Hr)).
Defined.


(** ** escapeRegExp *)

Lemma is_syntax_character_escaped (c : ascii) :
  is_syntax_character c = true → is_escaped c = true.
Proof.
  unfold is_syntax_character, is_escaped. intros H%bool_decide_eq_true.
  apply bool_decide_eq_true.
  repeat (apply elem_of_cons in H as [->|H]; [by repeat (first [left|right])|]).
  by apply elem_of_nil in H.
Qed.

Lemma backslash_escaped : is_escaped backslash = true.
Proof. by apply bool_decide_eq_true; repeat (first [left|right]). Qed.

Lemma pattern_literal_escaped (c : ascii) (p : string) :
  is_escaped c = true →
  pattern_literal (String backslash (String c p)) = String c <$> pattern_literal p.
Proof.
  intros Hc. cbn [pattern_literal]. rewrite bool_decide_true by done. by rewrite Hc.
Qed.

Lemma pattern_literal_plain (c : ascii) (p : string) :
  is_escaped c = false →
  pattern_literal (String c p) = String c <$> pattern_literal p.
Proof.
  intros Hc. cbn [pattern_literal]. rewrite bool_decide_false.
  - destruct (is_syntax_character c) eqn:Hs; [|done].
    apply is_syntax_character_escaped in Hs. congruence.
  - intros ->. by rewrite backslash_escaped in Hc.
Qed.

(** X21: [escapeRegExp] turns any text into a pattern without operators
    that stands for that text: every syntax character of the text is
    behind a backslash in the pattern, and reading the pattern back gives
    the text.  So the test of [zip.file] with the escaped package path is
    the test whether the name of the entry contains the package path, and
    a text without characters of the class is its own pattern. *)
Theorem escapeRegExp_literal (s : string) :
  pattern_literal (escapeRegExp s) = Some s ∧
  (∀ name, literal_test (escapeRegExp s) name = Some (includes s name)) ∧
  String.length s ≤ String.length (escapeRegExp s) ≤ 2 * String.length s ∧
  ((∀ c, c ∈ list_ascii_of_string s → is_escaped c = false) → escapeRegExp s = s).
Proof.
  assert (Hlit : pattern_literal (escapeRegExp s) = Some s).
  { induction s as [|c s IH]; [done|]. cbn [escapeRegExp].
    destruct (is_escaped c) eqn:Hc.
    - by rewrite pattern_literal_escaped, IH.
    - by rewrite pattern_literal_plain, IH. }
  split; [done|]. split; [|split].
  - intros name. unfold literal_test. by rewrite Hlit.
  - clear Hlit. induction s as [|c s IH]; simpl; [lia|].
    destruct (is_escaped c); simpl; lia.
  - clear Hlit. induction s as [|c s IH]; [done|]. simpl. intros Hfree.
    rewrite (Hfree c) by by left. rewrite IH; [done|].
    intros c' Hc'. apply Hfree. by right.
Qed.

(** ** The extension of a file name *)

Lemma split_dot_nonempty (s : string) : split_dot s ≠ [].
Proof.
  induction s as [|c s IH]; [done|]. simpl.
  case_bool_decide; [done|]. by destruct (split_dot s).
Qed.

Lemma split_dot_free (s : string) : free_of "." s = true → split_dot s = [s].
Proof.
  induction s as [|c s IH]; [done|]. simpl. intros [Hc Hs]%andb_true_iff.
  apply negb_true_iff in Hc. rewrite Hc. by rewrite IH.
Qed.

(** Splitting at the dots distributes over a dot. *)
Lemma split_dot_app (a b : string) :
  split_dot (a +:+ String "." b) = split_dot a ++ split_dot b.
Proof.
  induction a as [|c a IH]; app_simpl.
  - done.
  - simpl. case_bool_decide; [by rewrite IH|].
    rewrite IH. pose proof (split_dot_nonempty a). by destruct (split_dot a).
Qed.

Lemma fileNameExt_app (stem ext : string) :
  free_of "." ext = true → fileNameExt (stem +:+ "." +:+ ext) = ext.
Proof.
  intros Hfree. unfold fileNameExt.
  change (stem +:+ "." +:+ ext) with (stem +:+ String "." ext).
  by rewrite split_dot_app, (split_dot_free ext), last_snoc.
Qed.

Lemma free_of_dec_split (c : ascii) (s : string) :
  free_of c s = true ∨ ∃ dir name, s = dir +:+ String c name ∧ free_of c name = true.
Proof.
  induction s as [|x s IH]; [by left|]. simpl.
  destruct IH as [Hfree|(dir & name & -> & Hfree)].
  - destruct (decide (x = c)) as [->|Hne].
    + right. exists EmptyString, s. by app_simpl.
    + left. rewrite Hfree. by rewrite bool_decide_false.
  - right. exists (String x dir), name. by app_simpl.
Qed.

Lemma fileNameExt_spec (s : string) :
  free_of "." (fileNameExt s) = true ∧
  (s = fileNameExt s ∨ ∃ stem, s = stem +:+ "." +:+ fileNameExt s).
Proof.
  destruct (free_of_dec_split "." s) as [Hfree|(stem & ext & -> & Hfree)].
  - assert (E : fileNameExt s = s).
    { unfold fileNameExt. by rewrite split_dot_free. }
    rewrite E. split; [done|by left].
  - change (stem +:+ String "." ext) with (stem +:+ "." +:+ ext).
    rewrite fileNameExt_app by done. split; [done|]. right. by exists stem.
Qed.

(** X22: the type that [createBlobUrl] gives a blob is chosen by the text
    after the last dot of the file name, in lower case.  That text has no
    dot, and the name is that text alone or ends with a dot and that
    text.  A name without any dot is taken as its own extension, and a
    name that ends with a dot, like the empty name, gives the empty type
    without a lookup. *)
Theorem blob_type_by_extension (mimetypes : string → option string)
    (toLowerCase : string → string) (fileName : string) :
  free_of "." (fileNameExt fileName) = true ∧
  (fileName = fileNameExt fileName ∨
   ∃ stem, fileName = stem +:+ "." +:+ fileNameExt fileName) ∧
  (∀ stem ext, free_of "." ext = true → ext ≠ EmptyString →
     blob_type mimetypes toLowerCase (stem +:+ "." +:+ ext)
     = mimetypes (toLowerCase ext)) ∧
  (free_of "." fileName = true → fileName ≠ EmptyString →
     blob_type mimetypes toLowerCase fileName = mimetypes (toLowerCase fileName)) ∧
  (∀ stem, blob_type mimetypes toLowerCase (stem +:+ ".") = Some EmptyString) ∧
  blob_type mimetypes toLowerCase EmptyString = Some EmptyString.
Proof.
  destruct (fileNameExt_spec fileName) as [Hfree Hname].
  split_and!; [done|done| | | |done].
  - intros stem ext Hext Hne. unfold blob_type.
    rewrite fileNameExt_app by done. by rewrite decide_False.
  - intros Hf Hne. unfold blob_type, fileNameExt.
    rewrite split_dot_free by done. simpl. by rewrite decide_False.
  - intros stem. unfold blob_type.
    replace (stem +:+ ".") with (stem +:+ "." +:+ EmptyString) by done.
    by rewrite fileNameExt_app.
Qed.

(** ** The name of the archive in urlLibraries *)

Lemma lastIndexOf_free (c : ascii) (s : string) :
  free_of c s = true → lastIndexOf c s = None.
Proof.
  induction s as [|x s IH]; [done|]. simpl. intros [Hx Hs]%andb_true_iff.
  rewrite IH by done. apply negb_true_iff, bool_decide_eq_false in Hx.
  by rewrite decide_False.
Qed.

Lemma lastIndexOf_app (c : ascii) (dir name : string) :
  free_of c name = true →
  lastIndexOf c (dir +:+ String c name) = Some (String.length dir).
Proof.
  intros Hfree. induction dir as [|x dir IH]; app_simpl; simpl.
  - rewrite lastIndexOf_free by done. by rewrite decide_True.
  - by rewrite IH.
Qed.

(** X23: the getter [urlLibraries] names the archive by the part of
    [filepath] after its last slash: that part has no slash, [filepath]
    ends with it, and what precedes it is empty or ends with a slash.  A
    file path without any slash is taken whole. *)
Theorem urlLibraries_names_the_archive (filepath : string) :
  (free_of "/" filepath = true →
   urlLibraries_path filepath = "../../zipcontent/" +:+ filepath) ∧
  (∀ dir name, free_of "/" name = true →
     urlLibraries_path (dir +:+ "/" +:+ name) = "../../zipcontent/" +:+ name) ∧
  ∃ dir name,
    filepath = dir +:+ name ∧ free_of "/" name = true ∧
    (dir = EmptyString ∨ ∃ d, dir = d +:+ "/") ∧
    urlLibraries_path filepath = "../../zipcontent/" +:+ name.
Proof.
  assert (H1 : ∀ s, free_of "/" s = true →
            urlLibraries_path s = "../../zipcontent/" +:+ s).
  { intros s Hs. unfold urlLibraries_path. rewrite lastIndexOf_free by done.
    by destruct s. }
  assert (H2 : ∀ dir name, free_of "/" name = true →
            urlLibraries_path (dir +:+ "/" +:+ name) = "../../zipcontent/" +:+ name).
  { intros dir name Hname. unfold urlLibraries_path.
    replace (dir +:+ "/" +:+ name) with (dir +:+ String "/" name) by done.
    rewrite lastIndexOf_app by done. f_equal.
    replace (dir +:+ String "/" name) with ((dir +:+ "/") +:+ name)
      by by rewrite string_app_assoc.
    replace (String.length dir + 1) with (String.length (dir +:+ "/"))
      by by rewrite string_length_app.
    apply drop_string_app. }
  split_and!; [by apply H1|exact H2|].
  destruct (free_of_dec_split "/" filepath) as [Hfree|(dir & name & -> & Hfree)].
  - exists EmptyString, filepath. split_and!; [done|done|by left|by apply H1].
  - exists (dir +:+ "/"), name. split_and!; [by rewrite string_app_assoc|done| |].
    + right. by exists dir.
    + by apply (H2 dir name).
Qed.

(** ** Stylesheets without references *)

Lemma includes_cons_false (needle : string) (c : ascii) (s : string) :
  includes needle (String c s) = false →
  strip_prefix needle (String c s) = None ∧ includes needle s = false.
Proof. simpl. by destruct (strip_prefix needle (String c s)). Qed.

Lemma replace_cssPathRegex_without_references (f : css_match → string) (text : string) :
  includes "url(" text = false → replace_cssPathRegex f text = text.
Proof.
  unfold replace_cssPathRegex. induction text as [|c text IH]; [done|].
  intros [Hstrip Hrest]%includes_cons_false.
  cbn [pieces]. unfold cssPathRegex_at. rewrite Hstrip. simpl.
  app_simpl. f_equal. by apply IH.
Qed.

(** X24: [replacePaths] returns a stylesheet in which [url(] does not
    occur as it is, whatever the resource map holds and however URLs
    resolve; and it throws, on the missing text, when the resource map has
    no entry for the stylesheet. *)
Theorem replacePaths_without_references
    (URL_pathname : string → string → option string)
    (prototype_text : string → string)
    (dep : string) (packageFiles : gmap string string) :
  (∀ text, packageFiles !! dep = Some text → includes "url(" text = false →
           replacePaths URL_pathname prototype_text dep packageFiles = Some text) ∧
  (packageFiles !! dep = None →
   replacePaths URL_pathname prototype_text dep packageFiles = None).
Proof.
  unfold replacePaths. split.
  - intros text -> Hno. simpl. f_equal.
    by apply replace_cssPathRegex_without_references.
  - by intros ->.
Qed.

(** ** The script plan after [init] *)

(** X25: after [init], in whatever order the reads of the file pass
    completed, what the script plan gives the loader for a declared script
    that is not also a declared stylesheet of its package is what the read
    of the resource map of the package gave.  It is the URL of a blob that
    holds the content of an archive entry stored under the name of the
    script when the archive has such an entry.  When it has none, it is
    the member of [Object.prototype] of that name if there is one, and
    [undefined] otherwise: the script element is then injected with a
    source that is no URL of the archive.  No script has the key
    [__proto__]. *)
Theorem script_plan_urls (URL_pathname : string → string → option string)
    (prototype_text : string → string) (completion : list read → list read)
    (zip : archive) (this : H5PRunner) :
  completion_order completion →
  init URL_pathname prototype_text completion zip = Resolved this →
  ∀ d k css u,
    d ∈ jsPlan this →
    cssDependencies this !! dependency d = Some css → k ∉ css →
    obj_get (fileMap d) k = Some u →
    k ≠ "__proto__" ∧
    match u with
    | Str url =>
        isBlobUrl url = true ∧
        ∃ f, package_entry zip (dependency d) k f ∧ blob_of this url (text f.2)
    | Inherited name =>
        name = k ∧ inherited k = true ∧ ∀ f, ¬ package_entry zip (dependency d) k f
    | Undefined =>
        inherited k = false ∧ ∀ f, ¬ package_entry zip (dependency d) k f
    end.
Proof.
  intros Hc E d k css u Hd Hcss Hk Hu.
  destruct (init_stores _ _ _ _ _ Hc E) as (_ & Hfiles & Hblobs & _).
  destruct (init_stages _ _ _ _ _ E)
    as (this0 & this1 & this2 & this3 & E0 & E1 & E2 & E3 & E4).
  pose proof E4 as (pj & Hthis & _ & Htiers)%processJsDependencies_inv.
  assert (Hpf : packageFiles this = packageFiles this3) by by rewrite Hthis.
  assert (Hplan : jsPlan this = pj) by by rewrite Hthis.
  rewrite Hplan in Hd. rewrite Forall_forall in Htiers.
  destruct (Htiers d Hd) as (js & Hjs & Ha & Hv).
  destruct (assigned_keys_nil js (fileMap d) Ha) as (_ & Hkeys & _).
  assert (Hown : k ∈ own_names js).
  { apply Hkeys. by eapply obj_get_Some_keys. }
  assert (Hp : k ≠ "__proto__") by by apply elem_of_own_names in Hown as [? ?].
  split; [done|].
  destruct (Hv k Hown) as (files & HP & Hval).
  rewrite Hu in Hval. injection Hval as ->. rewrite <- Hpf in HP.
  assert (Hnone : files !! k = None → ∀ f, ¬ package_entry zip (dependency d) k f).
  { intros Hn f Hf. destruct (proj2 (Hfiles _ files k HP)) as [v Hv']; [|congruence].
    split; [done|]. by exists f. }
  destruct (get_property files k) as [|url|name] eqn:Hget.
  - apply get_property_Undefined in Hget as [Hn Hi]. split; [done|]. by apply Hnone.
  - apply get_property_Str in Hget.
    destruct (Hblobs _ files k url css HP Hcss Hk Hget) as (f & Hf & Hb).
    split; [|by exists f]. destruct Hb as (n & -> & _). apply isBlobUrl_blob_url.
  - apply get_property_Inherited in Hget as (Hn & Hi & ->).
    split_and!; [done..|]. by apply Hnone.
Qed.

Lemma script_plan_urls_witness :
  ∃ f,
    jsPlan content_state =
      [{| dependency := "A-1.0/"; fileMap := [("a.js", Str "blob:1")] |}] ∧
    isBlobUrl "blob:1" = true ∧
    package_entry content_archive "A-1.0/" "a.js" f ∧
    blob_of content_state "blob:1" (text f.2).
Proof.
  assert (Hplan : jsPlan content_state =
                  [{| dependency := "A-1.0/"; fileMap := [("a.js", Str "blob:1")] |}])
    by (vm_compute; reflexivity).
  assert (Hcss : cssDependencies content_state !! "A-1.0/" = Some ["a.css"])
    by (vm_compute; reflexivity).
  destruct (script_plan_urls _ _ _ _ _ reverse_completion_order content_state_init
              {| dependency := "A-1.0/"; fileMap := [("a.js", Str "blob:1")] |}
              "a.js" ["a.css"] (Str "blob:1")) as (_ & Hblob & f & Hf & Hb).
  - rewrite Hplan. by left.
  - exact Hcss.
  - intros [?|?%elem_of_nil]%elem_of_cons; done.
  - reflexivity.
  - exists f. split_and!; [exact Hplan|exact Hblob|exact Hf|exact Hb].
Defined.
